(** * srndv2: the metadata index, the article store and signature checks

    A shallow embedding of the parts of [src/srnd/redis.go] and
    [src/srnd/store.go] that the ingestion pipeline relies on, together with
    the properties of the index orderings, of article deletion, of the ban
    lookup, of the message-id gate and of signature verification.

    Conventions.
    - A Go [string] and a Go [[]byte] are both sequences of bytes; both are
      modelled by [string] (a list of 8-bit [ascii]).
    - A Go [int64] whose value is converted to a [float64] sorted-set score is
      modelled by [Z]; the conversion is exact below [2^53], which covers every
      unix time stamp.
    - A Go call returning [(value, err)] is modelled by a pair whose second
      component is [option error]; [None] is Go's [nil] error.
    - The redis server is assumed reachable: the only command errors modelled
      are the ones redis itself answers ([redis.Nil] and [WRONGTYPE]). *)

From Stdlib Require Import ZArith Ascii String List DecimalString.
From stdpp Require Import base gmap strings list sorting.

Local Open Scope Z_scope.

(** Go's [error] values that occur in the embedded code. *)
Inductive error :=
| redis_Nil
| redis_WRONGTYPE
| io_EOF
| errors_New (msg : string)
| io_error (msg : string).

(** How a call ends: it returns, it panics (a Go run-time error), or the
    model ran out of the fuel that bounds its recursion. *)
Inductive run (A : Type) :=
| Done (a : A)
| Panics
| NoFuel.
Arguments Done {A} a.
Arguments Panics {A}.
Arguments NoFuel {A}.

#[global] Instance error_eq_dec : EqDecision error.
Proof. solve_decision. Defined.

(** [strconv.Itoa] on a Go [int]. *)
Definition Itoa (n : Z) : string := NilZero.string_of_int (Z.to_int n).

(** ** The redis keyspace *)

Module Redis.

(** One keyspace, four value types; a command applied to a key of another
    type is answered with [WRONGTYPE] and changes nothing. *)
Inductive value :=
| VString (v : string)
| VHash (h : gmap string string)
| VSet (m : gset string)
| VZSet (z : gmap string Z).

Abbreviation db := (gmap string value).

(** A write command acts on the slot of its key only: it is a function on
    [option value] ([None]: the key does not exist), applied with
    [partial_alter]. redis removes a set or a sorted set that has become
    empty. *)
Definition keep_set (m : gset string) : option value :=
  if decide (m = ∅) then None else Some (VSet m).

Definition keep_zset (z : gmap string Z) : option value :=
  if decide (z = ∅) then None else Some (VZSet z).

(** *** Keys *)

Definition Exists (k : string) (s : db) : bool :=
  match s !! k with Some _ => true | None => false end.

Definition Del (ks : list string) (s : db) : db :=
  foldl (λ acc k, partial_alter (λ _, None) k acc) s ks.

(** *** Strings *)

Definition Set_slot (v : string) (o : option value) : option value :=
  Some (VString v).

Definition Set_ (k v : string) (s : db) : db := partial_alter (Set_slot v) k s.

Definition Get (k : string) (s : db) : string * option error :=
  match s !! k with
  | Some (VString v) => (v, None)
  | Some _ => (EmptyString, Some redis_WRONGTYPE)
  | None => (EmptyString, Some redis_Nil)
  end.

(** *** Hashes *)

Definition hset_all (h : gmap string string) (fvs : list (string * string))
  : gmap string string :=
  foldl (λ acc fv, <[fv.1 := fv.2]> acc) h fvs.

Definition HMSet_slot (fvs : list (string * string)) (o : option value)
  : option value :=
  match o with
  | None => Some (VHash (hset_all ∅ fvs))
  | Some (VHash h) => Some (VHash (hset_all h fvs))
  | Some v => Some v
  end.

Definition HMSet (k : string) (fvs : list (string * string)) (s : db) : db :=
  partial_alter (HMSet_slot fvs) k s.

Definition HSetNX_slot (f v : string) (o : option value) : option value :=
  match o with
  | None => Some (VHash {[f := v]})
  | Some (VHash h) =>
      match h !! f with
      | Some _ => Some (VHash h)
      | None => Some (VHash (<[f := v]> h))
      end
  | Some v => Some v
  end.

Definition HSetNX (k f v : string) (s : db) : db :=
  partial_alter (HSetNX_slot f v) k s.

(** The answer of a write command on a hash: an error on another type. *)
Definition hash_err (k : string) (s : db) : option error :=
  match s !! k with
  | None | Some (VHash _) => None
  | Some _ => Some redis_WRONGTYPE
  end.

Definition HGet (k f : string) (s : db) : string * option error :=
  match s !! k with
  | None => (EmptyString, Some redis_Nil)
  | Some (VHash h) =>
      match h !! f with
      | Some v => (v, None)
      | None => (EmptyString, Some redis_Nil)
      end
  | Some _ => (EmptyString, Some redis_WRONGTYPE)
  end.

(** [HGETALL] followed by [processHashResult]: the field map. *)
Definition HGetAll (k : string) (s : db) : gmap string string * option error :=
  match s !! k with
  | None => (∅, None)
  | Some (VHash h) => (h, None)
  | Some _ => (∅, Some redis_WRONGTYPE)
  end.

(** *** Sets *)

Definition SAdd_slot (m : string) (o : option value) : option value :=
  match o with
  | None => Some (VSet {[m]})
  | Some (VSet ms) => Some (VSet ({[m]} ∪ ms))
  | Some v => Some v
  end.

Definition SAdd (k m : string) (s : db) : db := partial_alter (SAdd_slot m) k s.

Definition SRem_slot (m : string) (o : option value) : option value :=
  match o with
  | Some (VSet ms) => keep_set (ms ∖ {[m]})
  | o => o
  end.

Definition SRem (k m : string) (s : db) : db := partial_alter (SRem_slot m) k s.

Definition SMembers (k : string) (s : db) : list string * option error :=
  match s !! k with
  | None => ([], None)
  | Some (VSet ms) => (elements ms, None)
  | Some _ => ([], Some redis_WRONGTYPE)
  end.

Definition SIsMember (k m : string) (s : db) : bool :=
  match s !! k with
  | Some (VSet ms) => bool_decide (m ∈ ms)
  | _ => false
  end.

(** *** Sorted sets *)

Inductive zflag := ZAny | ZNX | ZXX.

(** [NX] never changes the score of a member, [XX] never adds one. *)
Definition zadd_to (fl : zflag) (score : Z) (m : string) (z : gmap string Z)
  : gmap string Z :=
  match fl, z !! m with
  | ZNX, Some _ => z
  | ZXX, None => z
  | _, _ => <[m := score]> z
  end.

Definition ZAdd_slot (fl : zflag) (score : Z) (m : string) (o : option value)
  : option value :=
  match o with
  | None => keep_zset (zadd_to fl score m ∅)
  | Some (VZSet z) => Some (VZSet (zadd_to fl score m z))
  | Some v => Some v
  end.

Definition ZAddF (fl : zflag) (k : string) (score : Z) (m : string) (s : db) : db :=
  partial_alter (ZAdd_slot fl score m) k s.

Definition ZAdd := ZAddF ZAny.
Definition ZAddNX := ZAddF ZNX.
Definition ZAddXX := ZAddF ZXX.

Definition zset_err (k : string) (s : db) : option error :=
  match s !! k with
  | None | Some (VZSet _) => None
  | Some _ => Some redis_WRONGTYPE
  end.

Definition ZRem_slot (m : string) (o : option value) : option value :=
  match o with
  | Some (VZSet z) => keep_zset (delete m z)
  | o => o
  end.

Definition ZRem (k m : string) (s : db) : db := partial_alter (ZRem_slot m) k s.

(** The score of a member in a slot, and [ZSCORE key member]. *)
Definition slot_score (o : option value) (m : string) : option Z :=
  match o with
  | Some (VZSet z) => z !! m
  | _ => None
  end.

Definition ZScore (k m : string) (s : db) : option Z := slot_score (s !! k) m.

(** A member's score after an update that applies to members only: the new
    score if it was a member, still none if it was not. *)
Definition rescore (score : Z) (old : option Z) : option Z :=
  match old with
  | Some _ => Some score
  | None => None
  end.

Definition ZCard (k : string) (s : db) : Z * option error :=
  match s !! k with
  | None => (0, None)
  | Some (VZSet z) => (Z.of_nat (size z), None)
  | Some _ => (0, Some redis_WRONGTYPE)
  end.

(** Members are ordered by score, and by their bytes among equal scores. *)
Definition zle (x y : string * Z) : Prop :=
  x.2 < y.2 ∨ (x.2 = y.2 ∧ String.le x.1 y.1).

#[global] Instance zle_dec : RelDecision zle.
Proof. intros x y. unfold zle. apply _. Defined.

Definition zsorted (z : gmap string Z) : list (string * Z) :=
  merge_sort zle (map_to_list z).

Definition zmembers (k : string) (s : db) : list string * option error :=
  match s !! k with
  | None => ([], None)
  | Some (VZSet z) => ((zsorted z).*1, None)
  | Some _ => ([], Some redis_WRONGTYPE)
  end.

(** The index arithmetic of [ZRANGE key start stop]: negative indices count
    from the end, the range is clipped to the list. *)
Definition range_slice {A} (l : list A) (start stop : Z) : list A :=
  let n := Z.of_nat (length l) in
  let start := if start <? 0 then Z.max 0 (n + start) else start in
  let stop := if stop <? 0 then n + stop else stop in
  if (stop <? start) || (n <=? start) then []
  else
    let stop := Z.min stop (n - 1) in
    take (Z.to_nat (stop - start + 1)) (drop (Z.to_nat start) l).

Definition ZRange (k : string) (start stop : Z) (s : db)
  : list string * option error :=
  let '(l, err) := zmembers k s in (range_slice l start stop, err).

Definition ZRank (k m : string) (s : db) : Z * option error :=
  match s !! k with
  | None => (0, Some redis_Nil)
  | Some (VZSet z) =>
      match list_find (λ x, x = m) (zsorted z).*1 with
      | Some (i, _) => (Z.of_nat i, None)
      | None => (0, Some redis_Nil)
      end
  | Some _ => (0, Some redis_WRONGTYPE)
  end.

(** [ZRANGEBYLEX key "[start" "+" LIMIT 0 count]: the first [count] members not
    below [start], in the order of the sorted set. redis defines the command
    for sorted sets whose members all have the same score. *)
Definition ZRangeByLexFrom (k start : string) (count : nat) (s : db)
  : list string * option error :=
  let '(l, err) := zmembers k s in
  (take count (filter (λ m, String.le start m) l), err).

(** [ZRANGEBYLEX key "(start" "[stop"]: the members above [start] and not
    above [stop]. *)
Definition ZRangeByLexBetween (k start stop : string) (s : db)
  : list string * option error :=
  let '(l, err) := zmembers k s in
  (filter (λ m, (String.le start m ∧ start ≠ m) ∧ String.le m stop) l, err).

(** [ZREVRANGE] and [ZREVRANK]: the same members, read from the highest
    score down. *)
Definition ZRevRange (k : string) (start stop : Z) (s : db)
  : list string * option error :=
  let '(l, err) := zmembers k s in (range_slice (reverse l) start stop, err).

Definition ZRevRank (k m : string) (s : db) : Z * option error :=
  match s !! k with
  | None => (0, Some redis_Nil)
  | Some (VZSet z) =>
      match list_find (λ x, x = m) (reverse (zsorted z).*1) with
      | Some (i, _) => (Z.of_nat i, None)
      | None => (0, Some redis_Nil)
      end
  | Some _ => (0, Some redis_WRONGTYPE)
  end.

(** The answer of a write command on a set. *)
Definition set_err (k : string) (s : db) : option error :=
  match s !! k with
  | None | Some (VSet _) => None
  | Some _ => Some redis_WRONGTYPE
  end.

End Redis.

(** ** The message and attachment interfaces consumed by the index

    [RegisterArticle] reads a message only through the accessors of the
    [NNTPMessage] interface; the record holds what they return. *)

Record NNTPAttachment := {
  att_Hash : string;      (* Hash() []byte *)
  att_Filename : string;  (* Filename() *)
  att_Filepath : string   (* Filepath() *)
}.

Record NNTPMessage := {
  MessageID : string;
  Newsgroup : string;
  Reference : string;
  Name : string;
  Subject : string;
  Path : string;
  Posted : Z;
  Message : string;
  Addr : string;
  OP : bool;
  Sage : bool;
  Headers : list (string * list string);
  Attachments : list NNTPAttachment
}.

(** ** [encoding/hex] *)

Module hex.

Definition digit (n : N) : ascii :=
  match String.get (N.to_nat n) "0123456789abcdef" with
  | Some c => c
  | None => "0"%char
  end.

Fixpoint EncodeToString (src : string) : string :=
  match src with
  | EmptyString => EmptyString
  | String c rest =>
      let n := N_of_ascii c in
      String (digit (n / 16)) (String (digit (n mod 16)) (EncodeToString rest))
  end.

(** [fromHexChar] *)
Definition fromHexChar (c : ascii) : option N :=
  let n := N_of_ascii c in
  if ((48 <=? n) && (n <=? 57))%N then Some (n - 48)%N
  else if ((97 <=? n) && (n <=? 102))%N then Some (n - 97 + 10)%N
  else if ((65 <=? n) && (n <=? 70))%N then Some (n - 65 + 10)%N
  else None.

(** [DecodeString]: [None] stands for its errors ([ErrLength] on an odd
    length, [InvalidByteError] on a byte that is no hex digit). *)
Fixpoint DecodeString (s : string) : option string :=
  match s with
  | EmptyString => Some EmptyString
  | String _ EmptyString => None
  | String a (String b rest) =>
      match fromHexChar a, fromHexChar b, DecodeString rest with
      | Some x, Some y, Some r => Some (String (ascii_of_N (x * 16 + y)) r)
      | _, _, _ => None
      end
  end.

End hex.

(** ** The redis-backed index ([redis.go]) *)

Module RedisDB.
Import Redis.

(** *** Key prefixes *)

Definition APP_PREFIX := "NNTP::".

Definition ARTICLE_PREFIX := APP_PREFIX +:+ "Article::".
Definition ARTICLE_POST_PREFIX := APP_PREFIX +:+ "ArticlePost::".
Definition ARTICLE_KEY_PREFIX := APP_PREFIX +:+ "ArticleKey::".
Definition HASH_MESSAGEID_PREFIX := APP_PREFIX +:+ "HashMessageID::".
Definition ATTACHMENT_PREFIX := APP_PREFIX +:+ "Attachment::".
Definition IP_BAN_PREFIX := APP_PREFIX +:+ "IPBan::".
Definition IP_RANGE_BAN_PREFIX := APP_PREFIX +:+ "IPRangeBan::".
Definition MOD_KEY_PREFIX := APP_PREFIX +:+ "ModKey::".

Definition GROUP_POSTTIME_WKR := APP_PREFIX +:+ "GroupPostTimeWKR".
Definition GROUP_ARTICLE_POSTTIME_WKR_PREFIX := APP_PREFIX +:+ "GroupArticlePostTimeWKR::".
Definition GROUP_THREAD_POSTTIME_WKR_PREFIX := APP_PREFIX +:+ "GroupThreadPostTimeWKR::".
Definition GROUP_THREAD_BUMPTIME_WKR_PREFIX := APP_PREFIX +:+ "GroupThreadBumpTimeWKR::".
Definition THREAD_POST_WKR := APP_PREFIX +:+ "ThreadPostsWKR::".
Definition ARTICLE_WKR := APP_PREFIX +:+ "ArticleWKR".
Definition THREAD_BUMPTIME_WKR := APP_PREFIX +:+ "ThreadBumpTimeWKR".
Definition HEADER_KR_PREFIX := APP_PREFIX +:+ "HeaderKR::".
Definition MESSAGEID_HEADER_KR_PREFIX := APP_PREFIX +:+ "MessageIDHeaderKR::".
Definition ARTICLE_ATTACHMENT_KR_PREFIX := APP_PREFIX +:+ "ArticleAttachmentsKR::".
Definition ATTACHMENT_ARTICLE_KR_PREFIX := APP_PREFIX +:+ "AttachmentArticlesKR::".
Definition IP_RANGE_BAN_KR := APP_PREFIX +:+ "IPRangeBanKR".
Definition GROUP_MOD_KEY_REVERSE_KR_PREFIX := APP_PREFIX +:+ "GroupModKeysKR::".

(** No prefix is the beginning of another: any two disagree at a position
    both have. [differ p q] tests this. *)
Fixpoint differ (p q : string) : bool :=
  match p, q with
  | String a p', String b q' => if Ascii.eqb a b then differ p' q' else true
  | _, _ => false
  end.

Definition all_prefixes : list string :=
  [ ARTICLE_PREFIX; ARTICLE_POST_PREFIX; ARTICLE_KEY_PREFIX; HASH_MESSAGEID_PREFIX;
    ATTACHMENT_PREFIX; IP_BAN_PREFIX; IP_RANGE_BAN_PREFIX; MOD_KEY_PREFIX;
    GROUP_POSTTIME_WKR; GROUP_ARTICLE_POSTTIME_WKR_PREFIX;
    GROUP_THREAD_POSTTIME_WKR_PREFIX; GROUP_THREAD_BUMPTIME_WKR_PREFIX;
    THREAD_POST_WKR; ARTICLE_WKR; THREAD_BUMPTIME_WKR; HEADER_KR_PREFIX;
    MESSAGEID_HEADER_KR_PREFIX; ARTICLE_ATTACHMENT_KR_PREFIX;
    ATTACHMENT_ARTICLE_KR_PREFIX; IP_RANGE_BAN_KR;
    GROUP_MOD_KEY_REVERSE_KR_PREFIX ].

(** *** Pipelines

    [client.Pipeline()] queues commands; [pipe.Exec()] sends them, and redis
    runs them in the order queued. A pipeline that is closed without [Exec]
    (the deferred [pipe.Close()]) runs nothing. *)

Inductive cmd :=
| pHMSet (k : string) (fvs : list (string * string))
| pSet (k v : string)
| pZAddNX (k : string) (score : Z) (m : string)
| pZAddXX (k : string) (score : Z) (m : string)
| pSAdd (k m : string)
| pHSetNX (k f v : string).

Definition cmd_key (c : cmd) : string :=
  match c with
  | pHMSet k _ | pSet k _ | pZAddNX k _ _ | pZAddXX k _ _
  | pSAdd k _ | pHSetNX k _ _ => k
  end.

Definition cmd_slot (c : cmd) : option value → option value :=
  match c with
  | pHMSet _ fvs => HMSet_slot fvs
  | pSet _ v => Set_slot v
  | pZAddNX _ score m => ZAdd_slot ZNX score m
  | pZAddXX _ score m => ZAdd_slot ZXX score m
  | pSAdd _ m => SAdd_slot m
  | pHSetNX _ f v => HSetNX_slot f v
  end.

Definition run (c : cmd) (s : db) : db :=
  partial_alter (cmd_slot c) (cmd_key c) s.

Definition Exec (pipe : list cmd) (s : db) : db :=
  foldl (λ acc c, run c acc) s pipe.

(** What a pipeline does to the slot of key [k]: the commands on other keys
    leave it alone. *)
Definition slot_at (k : string) (pipe : list cmd) (o : option value) : option value :=
  foldl (λ acc c, if decide (cmd_key c = k) then cmd_slot c acc else acc) o pipe.

(** The shape of the commands of a pipeline on one key. *)
Definition on_key (k : string) (P : cmd → Prop) (pipe : list cmd) : Prop :=
  Forall (λ c, cmd_key c = k → P c) pipe.

Definition is_SAdd (c : cmd) : Prop := ∃ m, c = pSAdd (cmd_key c) m.
Definition is_HSetNX (c : cmd) : Prop := ∃ f v, c = pHSetNX (cmd_key c) f v.

Definition none_or_set (o : option value) : Prop :=
  match o with None | Some (VSet _) => True | Some _ => False end.

(** *** Queries used by registration *)

Definition HasNewsgroup (group : string) (s : db) : bool :=
  match (ZRank GROUP_POSTTIME_WKR group s).2 with
  | None => true
  | Some _ => false
  end.

Definition HasArticle (message_id : string) (s : db) : bool :=
  Exists (ARTICLE_PREFIX +:+ message_id) s.

Definition HasArticleLocal (message_id : string) (s : db) : bool :=
  Exists (ARTICLE_POST_PREFIX +:+ message_id) s.

Definition IsExpired (root_message_id : string) (s : db) : bool :=
  HasArticle root_message_id s && negb (HasArticleLocal root_message_id s).

(** [timeNow()] is read inside; its result is the argument [now]. *)
Definition RegisterNewsgroup (now : Z) (group : string) (s : db) : db :=
  ZAddNX GROUP_POSTTIME_WKR now group s.

Definition RegisterSigned (message_id pubkey : string) (s : db) : db :=
  Set_ (ARTICLE_KEY_PREFIX +:+ message_id) pubkey s.

Definition GetLastAndFirstForGroup (group : string) (s : db)
  : Z * Z * option error :=
  let '(last, err) := ZCard (GROUP_ARTICLE_POSTTIME_WKR_PREFIX +:+ group) s in
  if last =? 0 then (0, 1, err) else (last + 1, 1, err).

Definition GetMessageIDForNNTPID (group : string) (id : Z) (s : db)
  : string * option error :=
  let id := if id =? 0 then 1 else id in
  let '(posts, err) :=
    ZRange (GROUP_ARTICLE_POSTTIME_WKR_PREFIX +:+ group) (id - 1) (id - 1) s in
  match err, posts with
  | None, msgid :: _ => (msgid, err)
  | _, _ => (EmptyString, err)
  end.

Section Register.
(** [HashMessageID] lives in a file that is not part of the sources at
    hand; registration only stores what it returns. *)
Variable HashMessageID : string → string.

Definition header_cmds (msgid : string) (hdr : string * list string) : list cmd :=
  let k := hdr.1 in
  flat_map (λ v,
    let header := "Name::" +:+ k +:+ "::Value::" +:+ v in
    [ pSAdd (HEADER_KR_PREFIX +:+ header) msgid;
      pSAdd (MESSAGEID_HEADER_KR_PREFIX +:+ msgid) header ]) hdr.2.

Definition attachment_cmds (msgid : string) (att : NNTPAttachment) : list cmd :=
  let hash := hex.EncodeToString (att_Hash att) in
  [ pSAdd (ATTACHMENT_ARTICLE_KR_PREFIX +:+ hash) msgid;
    pSAdd (ARTICLE_ATTACHMENT_KR_PREFIX +:+ msgid) hash;
    pHSetNX (ATTACHMENT_PREFIX +:+ hash) "message_id" msgid;
    pHSetNX (ATTACHMENT_PREFIX +:+ hash) "sha_hash" hash;
    pHSetNX (ATTACHMENT_PREFIX +:+ hash) "filename" (att_Filename att);
    pHSetNX (ATTACHMENT_PREFIX +:+ hash) "filepath" (att_Filepath att) ].

(** The commands [RegisterArticle] queues once the article is known to be
    new, in the order of the source. *)
Definition register_pipeline (now : Z) (message : NNTPMessage) : list cmd :=
  let msgid := MessageID message in
  let group := Newsgroup message in
  [ pHMSet (ARTICLE_PREFIX +:+ msgid)
      [ ("msgid", msgid);
        ("message_id_hash", HashMessageID msgid);
        ("message_newsgroup", group);
        ("time_obtained", Itoa now);
        ("message_ref_id", Reference message) ];
    pSet (HASH_MESSAGEID_PREFIX +:+ HashMessageID msgid) msgid;
    pZAddXX GROUP_POSTTIME_WKR now group;
    pZAddNX (GROUP_ARTICLE_POSTTIME_WKR_PREFIX +:+ group) now msgid;
    pHMSet (ARTICLE_POST_PREFIX +:+ msgid)
      [ ("newsgroup", group);
        ("message_id", msgid);
        ("ref_id", Reference message);
        ("name", Name message);
        ("subject", Subject message);
        ("path", Path message);
        ("time_posted", Itoa (Posted message));
        ("message", Message message);
        ("addr", Addr message) ] ]
  ++ (if decide (group ≠ "ctl")
      then [ pZAddNX ARTICLE_WKR now msgid ] else [])
  ++ (if OP message then
        [ pZAddNX (GROUP_THREAD_POSTTIME_WKR_PREFIX +:+ group) (Posted message) msgid;
          pZAddNX (GROUP_THREAD_BUMPTIME_WKR_PREFIX +:+ group) (Posted message) msgid ]
        ++ (if decide (group ≠ "ctl")
            then [ pZAddNX THREAD_BUMPTIME_WKR (Posted message) msgid ] else [])
      else
        let ref := Reference message in
        (if negb (Sage message) then
           [ pZAddXX (GROUP_THREAD_BUMPTIME_WKR_PREFIX +:+ group) (Posted message) ref;
             pZAddXX THREAD_BUMPTIME_WKR (Posted message) ref ]
         else [])
        ++ [ pZAddXX (GROUP_THREAD_POSTTIME_WKR_PREFIX +:+ group) (Posted message) ref;
             pZAddNX (THREAD_POST_WKR +:+ ref) (Posted message) msgid ])
  ++ flat_map (header_cmds msgid) (Headers message)
  ++ flat_map (attachment_cmds msgid) (Attachments message).

(** [RegisterArticle]. The clock is read twice: [t_group] by
    [RegisterNewsgroup], [now] by [RegisterArticle] itself. *)
Definition RegisterArticle (t_group now : Z) (message : NNTPMessage) (s : db) : db :=
  let msgid := MessageID message in
  let group := Newsgroup message in
  let s := if HasNewsgroup group s then s else RegisterNewsgroup t_group group s in
  if HasArticle msgid s then s
  else Exec (register_pipeline now message) s.

End Register.

(** *** Post models and deletion *)

Record attachment := {
  att_prefix : string;
  att_filepath : string;
  att_filename : string
}.

Record post := {
  board : string;
  message_id : string;
  parent : string;
  name : string;
  subject : string;
  path : string;
  posted : Z;
  addr : string;
  message : string;
  op : bool;
  sage : bool;
  attachments : list attachment;
  pubkey : string
}.

Definition GetPostAttachments (messageID : string) (s : db) : list string :=
  let '(hashes, err) := SMembers (ARTICLE_ATTACHMENT_KR_PREFIX +:+ messageID) s in
  match err with
  | None => map (λ hash, (HGet (ATTACHMENT_PREFIX +:+ hash) "filepath" s).1) hashes
  | Some _ => []
  end.

Definition GetPostAttachmentModels (prefix messageID : string) (s : db)
  : list attachment :=
  let '(hashes, err) := SMembers (ARTICLE_ATTACHMENT_KR_PREFIX +:+ messageID) s in
  match err with
  | None =>
      map (λ hash,
        {| att_prefix := prefix;
           att_filepath := (HGet (ATTACHMENT_PREFIX +:+ hash) "filepath" s).1;
           att_filename := (HGet (ATTACHMENT_PREFIX +:+ hash) "filename" s).1 |})
        hashes
  | Some _ => []
  end.

Section Models.
(** [strconv.Atoi] with its error dropped ([tmp, _ := ...]) and [isSage]
    (declared outside the sources at hand) only fill fields of the model. *)
Variable Atoi : string → Z.
Variable isSage : string → bool.

(** [mapRes[f]]: a missing field reads as the empty string. *)
Definition field (mapRes : gmap string string) (f : string) : string :=
  default EmptyString (mapRes !! f).

(** [GetPostModel]; [None] is the [nil] model returned on an error. *)
Definition GetPostModel (prefix messageID : string) (s : db) : option post :=
  let '(mapRes, err) := HGetAll (ARTICLE_POST_PREFIX +:+ messageID) s in
  match err with
  | None =>
      let parent := field mapRes "ref_id" in
      let message_id := field mapRes "message_id" in
      Some {| board := field mapRes "newsgroup";
              message_id := message_id;
              parent := if decide (parent = EmptyString) then message_id else parent;
              name := field mapRes "name";
              subject := field mapRes "subject";
              path := field mapRes "path";
              posted := Atoi (field mapRes "time_posted");
              addr := field mapRes "addr";
              message := field mapRes "message";
              op := bool_decide (parent = EmptyString);
              sage := isSage (field mapRes "subject");
              attachments := GetPostAttachmentModels prefix messageID s;
              pubkey := (Get (ARTICLE_KEY_PREFIX +:+ messageID) s).1 |}
  | Some _ => None
  end.

(** [DeleteArticle], in the three parts its body has: the records and
    orderings of the article, the header index, the attachments. [p.OP()],
    [p.Reference()] and [p.Board()] read the fields [op], [parent] and [board]
    of the model. *)
Definition delete_records (msgid : string) (p : post) (s : db) : db :=
  let s := if negb (op p)
           then ZRem (THREAD_POST_WKR +:+ parent p) msgid s else s in
  let hash := (HGet (ARTICLE_PREFIX +:+ msgid) "message_id_hash" s).1 in
  let s := if decide (hash ≠ EmptyString)
           then Del [HASH_MESSAGEID_PREFIX +:+ hash] s else s in
  let s := Del [ARTICLE_PREFIX +:+ msgid; ARTICLE_POST_PREFIX +:+ msgid;
                ARTICLE_KEY_PREFIX +:+ msgid] s in
  let s := ZRem (GROUP_ARTICLE_POSTTIME_WKR_PREFIX +:+ board p) msgid s in
  ZRem ARTICLE_WKR msgid s.

Definition delete_header_links (msgid : string) (s : db) : db :=
  let headers := (SMembers (MESSAGEID_HEADER_KR_PREFIX +:+ msgid) s).1 in
  let s := foldl (λ acc h, SRem (HEADER_KR_PREFIX +:+ h) msgid acc) s headers in
  Del [MESSAGEID_HEADER_KR_PREFIX +:+ msgid] s.

(** One round of the attachment loop. *)
Definition delete_attachment_link (msgid : string) (s : db) (a : string) : db :=
  let s := SRem (ATTACHMENT_ARTICLE_KR_PREFIX +:+ a) msgid s in
  if negb (Exists (ATTACHMENT_ARTICLE_KR_PREFIX +:+ a) s)
  then Del [ATTACHMENT_PREFIX +:+ a] s  (* TODO delete files from disk *)
  else s.

Definition delete_attachment_links (msgid : string) (s : db) : db :=
  let atts := (SMembers (ARTICLE_ATTACHMENT_KR_PREFIX +:+ msgid) s).1 in
  let s := foldl (delete_attachment_link msgid) s atts in
  Del [ARTICLE_ATTACHMENT_KR_PREFIX +:+ msgid] s.

Definition DeleteArticle (msgid : string) (s : db) : db :=
  match GetPostModel EmptyString msgid s with
  | Some p =>
      delete_attachment_links msgid
        (delete_header_links msgid (delete_records msgid p s))
  | None => s
  end.

(** [GetThreadReplies]: the range starts at [-limit+1], with [limit] raised
    to 1 when it is smaller. *)
Definition GetThreadReplies (rootpost : string) (limit : Z) (s : db) : list string :=
  let limit := if limit <? 1 then 1 else limit in
  (ZRange (THREAD_POST_WKR +:+ rootpost) (- limit + 1) (-1) s).1.

Definition DeleteThread (msgid : string) (s : db) : db :=
  let repls := GetThreadReplies msgid 0 s in
  let s := foldl (λ acc r, DeleteArticle r acc) s repls in
  let group := (HGet (ARTICLE_PREFIX +:+ msgid) "message_newsgroup" s).1 in
  let s := if decide (group ≠ EmptyString)
           then ZRem (GROUP_THREAD_BUMPTIME_WKR_PREFIX +:+ group) msgid
                  (ZRem (GROUP_THREAD_POSTTIME_WKR_PREFIX +:+ group) msgid s)
           else s in
  let s := ZRem THREAD_BUMPTIME_WKR msgid s in
  let s := Del [THREAD_POST_WKR +:+ msgid] s in
  DeleteArticle msgid s.

(** The index together with the files of the attachment directory.
    [DeleteArticle] is a method of the index: it has no store at hand and
    makes no call on the file system, so the files stay as they are. *)
Record world := {
  index : db;
  disk : gset string
}.

Definition DeleteArticle_world (msgid : string) (w : world) : world :=
  {| index := DeleteArticle msgid (index w); disk := disk w |}.

End Models.

(** *** Address bans *)

(** The members of [ip_range_ban] (none when the key is missing or holds
    another type), and the least of them that is not below [start]. *)
Definition range_endpoints (s : db) : gmap string Z :=
  match s !! IP_RANGE_BAN_KR with
  | Some (VZSet z) => z
  | _ => ∅
  end.

Definition least_endpoint_from (s : db) (start e : string) : Prop :=
  is_Some (range_endpoints s !! e)
  ∧ String.le start e
  ∧ ∀ e', is_Some (range_endpoints s !! e') → String.le start e' → String.le e e'.

(** The keys the range bans are stored under: the sorted set of the
    endpoints and the record of each range. *)
Definition is_range_key (k : string) : Prop :=
  k = IP_RANGE_BAN_KR ∨ ∃ e, k = IP_RANGE_BAN_PREFIX +:+ e.

(** The stored ranges are in order: the set of endpoints is a sorted set
    whose members all have score 0, the records are hashes, every endpoint
    has a stored start that is not above it, and a larger endpoint does not
    have a smaller start. *)
Definition ranges_ordered (s : db) : Prop :=
  zset_err IP_RANGE_BAN_KR s = None
  ∧ (∀ e, hash_err (IP_RANGE_BAN_PREFIX +:+ e) s = None)
  ∧ (∀ e sc, range_endpoints s !! e = Some sc → sc = 0)
  ∧ (∀ e, is_Some (range_endpoints s !! e) →
          ∃ st, HGet (IP_RANGE_BAN_PREFIX +:+ e) "start" s = (st, None)
                ∧ String.le st e)
  ∧ (∀ e1 e2 st1 st2,
        is_Some (range_endpoints s !! e1) →
        is_Some (range_endpoints s !! e2) →
        String.le e1 e2 →
        HGet (IP_RANGE_BAN_PREFIX +:+ e1) "start" s = (st1, None) →
        HGet (IP_RANGE_BAN_PREFIX +:+ e2) "start" s = (st2, None) →
        String.le st1 st2).

Section Bans.
(** [IsSubnet], [IPNet2MinMax] and [ZeroIPString] are declared outside the
    sources at hand, [net.ParseIP] is Go's; the lookup only compares the
    strings they produce. [IsSubnet] answers [None] for [(false, nil)]. *)
Context {IP IPNet : Type}.
Variable IsSubnet : string → option IPNet.
Variable IPNet2MinMax : IPNet → IP * IP.
Variable ZeroIPString : IP → string.
Variable ParseIP : string → option IP.

(** The pair [(start, range_start)] the lookup computes for [addr]: the
    largest and the smallest address of the query. *)
Definition query_endpoints (addr : string) : option (string * string) :=
  match IsSubnet addr with
  | Some ipnet =>
      let '(min, max) := IPNet2MinMax ipnet in
      Some (ZeroIPString max, ZeroIPString min)
  | None =>
      match ParseIP addr with
      | None => None
      | Some ip => Some (ZeroIPString ip, ZeroIPString ip)
      end
  end.

Definition CheckIPBanned (addr : string) (s : db) : bool * option error :=
  let banned := Exists (IP_BAN_PREFIX +:+ addr) s in
  if banned then (banned, None)
  else
    match query_endpoints addr with
    | None => (false, Some (errors_New "Couldn't parse IP"))
    | Some (start, range_start) =>
        let '(res, err) := ZRangeByLexFrom IP_RANGE_BAN_KR start 1 s in
        match err, res with
        | None, range_max :: _ =>
            let '(range_min, err) :=
              HGet (IP_RANGE_BAN_PREFIX +:+ range_max) "start" s in
            match err with
            | Some _ => (banned, err)
            | None => (bool_decide (String.le range_min range_start), err)
            end
        | _, _ => (banned, err)
        end
    end.

Definition clearIPRange (start end_ : string) (s : db) : db :=
  let ranges := (ZRangeByLexBetween IP_RANGE_BAN_KR start end_ s).1 in
  foldl (λ acc iprange,
           Del [IP_RANGE_BAN_PREFIX +:+ iprange] (ZRem IP_RANGE_BAN_KR iprange acc))
        s ranges.

Definition BanAddr (now : Z) (addr : string) (s : db) : db * option error :=
  match IsSubnet addr with
  | None =>
      (HMSet (IP_BAN_PREFIX +:+ addr) [("addr", addr); ("made", Itoa now)] s,
       hash_err (IP_BAN_PREFIX +:+ addr) s)
  | Some ipnet =>
      let '(isBanned, err) := CheckIPBanned addr s in
      match isBanned, err with
      | false, None =>
          let '(min, max) := IPNet2MinMax ipnet in
          let start := ZeroIPString min in
          let end_ := ZeroIPString max in
          let s := clearIPRange start end_ s in
          let err := zset_err IP_RANGE_BAN_KR s in
          let s := ZAdd IP_RANGE_BAN_KR 0 end_ s in
          match err with
          | Some _ => (s, err)
          | None =>
              (HMSet (IP_RANGE_BAN_PREFIX +:+ end_)
                 [("start", start); ("end", end_); ("made", Itoa now)] s,
               hash_err (IP_RANGE_BAN_PREFIX +:+ end_) s)
          end
      | _, _ => (s, err)
      end
  end.

End Bans.

(** *** Bans of newsgroups and articles *)

Definition BANNED_GROUP_PREFIX := APP_PREFIX +:+ "BannedGroup::".
Definition BANNED_ARTICLE_PREFIX := APP_PREFIX +:+ "BannedArticle::".
Definition ENCRYPTED_IP_BAN_PREFIX := APP_PREFIX +:+ "EncIPBan::".

Definition BanNewsgroup (now : Z) (group : string) (s : db) : db * option error :=
  (HMSet (BANNED_GROUP_PREFIX +:+ group)
     [("newsgroup", group); ("time_banned", Itoa now)] s,
   hash_err (BANNED_GROUP_PREFIX +:+ group) s).

Definition UnbanNewsgroup (group : string) (s : db) : db * option error :=
  (Del [BANNED_GROUP_PREFIX +:+ group] s, None).

Definition NewsgroupBanned (group : string) (s : db) : bool * option error :=
  (Exists (BANNED_GROUP_PREFIX +:+ group) s, None).

Definition ArticleBanned (messageID : string) (s : db) : bool :=
  Exists (BANNED_ARTICLE_PREFIX +:+ messageID) s.

Definition BanArticle (now : Z) (messageID reason : string) (s : db)
  : db * option error :=
  if ArticleBanned messageID s then (s, None)
  else
    (HMSet (BANNED_ARTICLE_PREFIX +:+ messageID)
       [("message_id", messageID); ("time_banned", Itoa now);
        ("ban_reason", reason)] s,
     hash_err (BANNED_ARTICLE_PREFIX +:+ messageID) s).

Definition CheckEncIPBanned (encaddr : string) (s : db) : bool * option error :=
  (Exists (ENCRYPTED_IP_BAN_PREFIX +:+ encaddr) s, None).

Definition BanEncAddr (now : Z) (encaddr : string) (s : db) : db * option error :=
  (HMSet (ENCRYPTED_IP_BAN_PREFIX +:+ encaddr)
     [("encaddr", encaddr); ("made", Itoa now)] s,
   hash_err (ENCRYPTED_IP_BAN_PREFIX +:+ encaddr) s).

(** *** Moderator keys *)

(** The key of the permissions of [pubkey] in [group]. *)
Definition permissions_key (pubkey group : string) : string :=
  MOD_KEY_PREFIX +:+ pubkey +:+ "::Group::" +:+ group +:+ "::Permissions".

Definition CheckModPubkey (pubkey : string) (s : db) : bool :=
  SIsMember (permissions_key pubkey "ctl") "login" s.

Definition CheckModPubkeyGlobal (pubkey : string) (s : db) : bool :=
  SIsMember (permissions_key pubkey "overchan") "all" s.

Definition CheckModPubkeyCanModGroup (pubkey newsgroup : string) (s : db) : bool :=
  SIsMember (permissions_key pubkey newsgroup) "default" s.

Definition AddModPubkey (pubkey : string) (s : db) : db * option error :=
  if CheckModPubkey pubkey s then (s, None)
  else (SAdd (permissions_key pubkey "ctl") "login" s,
        set_err (permissions_key pubkey "ctl") s).

Definition MarkModPubkeyGlobal (pubkey : string) (s : db) : db * option error :=
  if negb (String.length pubkey =? 64)%nat
  then (s, Some (errors_New "invalid pubkey length"))
  else if CheckModPubkeyGlobal pubkey s then (s, None)
  else (SAdd (permissions_key pubkey "overchan") "all" s,
        set_err (permissions_key pubkey "overchan") s).

Definition UnMarkModPubkeyGlobal (pubkey : string) (s : db) : db * option error :=
  if CheckModPubkeyGlobal pubkey s
  then (SRem (permissions_key pubkey "overchan") "all" s,
        set_err (permissions_key pubkey "overchan") s)
  else (s, Some (errors_New "public key not marked as global")).

Definition MarkModPubkeyCanModGroup (pubkey group : string) (s : db)
  : db * option error :=
  let err := set_err (permissions_key pubkey group) s in
  let s := SAdd (permissions_key pubkey group) "default" s in
  (SAdd (GROUP_MOD_KEY_REVERSE_KR_PREFIX +:+ group) pubkey s, err).

Definition UnMarkModPubkeyCanModGroup (pubkey group : string) (s : db)
  : db * option error :=
  let err := set_err (permissions_key pubkey group) s in
  let s := SRem (permissions_key pubkey group) "default" s in
  (SRem (GROUP_MOD_KEY_REVERSE_KR_PREFIX +:+ group) pubkey s, err).

(** *** Lookups *)

Definition GetGroupForMessage (message_id : string) (s : db) : string * option error :=
  HGet (ARTICLE_POST_PREFIX +:+ message_id) "newsgroup" s.

(** Hard-coded in the source. *)
Definition GetPagesPerBoard (group : string) : Z * option error := (10, None).

(** [GetPageForRootMessage]. The page is
    [int64(math.Floor(float64(index) / float64(perpage)))]; for a rank, which
    is not negative, that is the quotient of the integers. *)
Definition GetPageForRootMessage (root_message_id : string) (s : db)
  : string * Z * option error :=
  let '(group, err) := GetGroupForMessage root_message_id s in
  match err with
  | None =>
      let perpage := (GetPagesPerBoard group).1 in
      let '(index, err) :=
        ZRevRank (GROUP_THREAD_BUMPTIME_WKR_PREFIX +:+ group) root_message_id s in
      (group, index / perpage, err)
  | Some _ => (group, 0, err)
  end.

Definition GetInfoForMessage (msgid : string) (s : db)
  : string * string * Z * option error :=
  let '(root, err) := HGet (ARTICLE_POST_PREFIX +:+ msgid) "ref_id" s in
  match err with
  | None =>
      let root := if decide (root = EmptyString) then msgid else root in
      let '(newsgroup, page, err) := GetPageForRootMessage root s in
      (root, newsgroup, page, err)
  | Some _ => (root, EmptyString, 0, err)
  end.

Definition CountThreadReplies (root_message_id : string) (s : db) : Z :=
  (ZCard (THREAD_POST_WKR +:+ root_message_id) s).1.

Definition GetRootPostsForExpiration (newsgroup : string) (threadcount : Z) (s : db)
  : list string :=
  (ZRange (GROUP_THREAD_POSTTIME_WKR_PREFIX +:+ newsgroup) 0 (- threadcount - 1) s).1.

Definition GetAllNewsgroups (s : db) : list string :=
  (ZRevRange GROUP_POSTTIME_WKR 0 (-1) s).1.

Definition GetGroupPageCount (newsgroup : string) (s : db) : Z :=
  let '(count, err) := ZCard (GROUP_THREAD_POSTTIME_WKR_PREFIX +:+ newsgroup) s in
  match err with
  | Some _ => 0
  | None =>
      if 0 <? count
      then (count - 1) / (GetPagesPerBoard newsgroup).1 + 1
      else 1
  end.

Definition GetMessageIDByHeader (name val : string) (s : db)
  : list string * option error :=
  let header := "Name::" +:+ name +:+ "::Value::" +:+ val in
  SMembers (HEADER_KR_PREFIX +:+ header) s.

(** An [ArticleEntry] is the pair of a message-id and a newsgroup. *)
Definition GetMessageIDByHash (hash : string) (s : db)
  : (string * string) * option error :=
  let '(msgid, err) := Get (HASH_MESSAGEID_PREFIX +:+ hash) s in
  match err with
  | Some _ => ((EmptyString, EmptyString), err)
  | None =>
      let '(group, err) := GetGroupForMessage msgid s in
      match err with
      | Some _ => ((EmptyString, EmptyString), err)
      | None => ((msgid, group), err)
      end
  end.

Definition GetAllArticlesInGroup (group : string) (s : db) : list (string * string) :=
  let '(articles, err) :=
    ZRange (GROUP_ARTICLE_POSTTIME_WKR_PREFIX +:+ group) 0 (-1) s in
  match err with
  | None => map (λ msgid, (msgid, group)) articles
  | Some _ => []
  end.

(** *** Pages of a board *)

Record thread := {
  thread_prefix : string;
  posts : list (option post);
  links : list (string * string)
}.

Record boardModel := {
  bm_prefix : string;
  bm_frontend : string;
  bm_board : string;
  bm_page : Z;
  bm_pages : Z;
  threads : list thread
}.

Section Pages.
Variable Atoi : string → Z.
Variable isSage : string → bool.

(** [GetGroupForPage]; a thread holds the model of its root post alone. *)
Definition GetGroupForPage (prefix frontend newsgroup : string) (pageno perpage : Z)
    (s : db) : boardModel :=
  let pages := GetGroupPageCount newsgroup s in
  let '(threadids, err) :=
    ZRevRange (GROUP_THREAD_BUMPTIME_WKR_PREFIX +:+ newsgroup)
              (pageno * perpage) (pageno * perpage + perpage - 1) s in
  let threads :=
    match err with
    | None =>
        map (λ msgid,
               {| thread_prefix := prefix;
                  posts := [GetPostModel Atoi isSage prefix msgid s];
                  links := [(newsgroup, prefix +:+ newsgroup +:+ "-0.html")] |})
            threadids
    | Some _ => []
    end in
  {| bm_prefix := prefix; bm_frontend := frontend; bm_board := newsgroup;
     bm_page := pageno; bm_pages := pages; threads := threads |}.

End Pages.

(** *** Lifting a ban of an address *)

Section Unban.
Context {IP IPNet : Type}.
Variable IsSubnet : string → option IPNet.
Variable IPNet2MinMax : IPNet → IP * IP.
Variable ZeroIPString : IP → string.

Definition UnbanAddr (addr : string) (s : db) : db * option error :=
  let s := Del [IP_BAN_PREFIX +:+ addr] s in
  match IsSubnet addr with
  | None => (Del [IP_BAN_PREFIX +:+ addr] s, None)
  | Some ipnet =>
      let '(min, max) := IPNet2MinMax ipnet in
      let range_start := ZeroIPString min in
      let start := ZeroIPString max in
      let '(res, err) := ZRangeByLexFrom IP_RANGE_BAN_KR start 1 s in
      match err, res with
      | None, range_max :: _ =>
          let '(range_min, err) :=
            HGet (IP_RANGE_BAN_PREFIX +:+ range_max) "start" s in
          match err with
          | Some _ => (s, err)
          | None =>
              if bool_decide (String.le range_min range_start)
              then (Del [IP_RANGE_BAN_PREFIX +:+ range_max]
                      (ZRem IP_RANGE_BAN_KR range_max s), err)
              else (s, err)
          end
      | _, _ => (s, err)
      end
  end.

End Unban.

(** *** The states the ban operations reach

    [BanAddr] and [UnbanAddr] are the only operations of the index that write
    the keys of the range bans; every other operation leaves them as they
    are. *)

Section Reachable.
Context {IP IPNet : Type}.
Variable IsSubnet : string → option IPNet.
Variable IPNet2MinMax : IPNet → IP * IP.
Variable ZeroIPString : IP → string.
Variable ParseIP : string → option IP.

Inductive ban_reachable : db → Prop :=
| reach_empty : ban_reachable ∅
| reach_BanAddr (now : Z) (addr : string) (s : db) :
    ban_reachable s →
    ban_reachable (BanAddr IsSubnet IPNet2MinMax ZeroIPString ParseIP now addr s).1
| reach_UnbanAddr (addr : string) (s : db) :
    ban_reachable s →
    ban_reachable (UnbanAddr IsSubnet IPNet2MinMax ZeroIPString addr s).1
| reach_other (s s' : db) :
    ban_reachable s →
    (∀ k, is_range_key k → s' !! k = s !! k) →
    ban_reachable s'.

End Reachable.

End RedisDB.

(** ** Replies of redis ([processHashResult] in [redis.go]) *)

Module RedisReply.

(** [processHashResult]: the flat reply of [HGETALL], field and value in
    turn, made into a map. A reply of odd length reads past its end. *)
Fixpoint processHashResult_from (hash : list string) (mapRes : gmap string string)
  : run (gmap string string) :=
  match hash with
  | [] => Done mapRes
  | [_] => Panics
  | f :: v :: rest => processHashResult_from rest (<[f := v]> mapRes)
  end.

Definition processHashResult (hash : list string) : run (gmap string string) :=
  processHashResult_from hash ∅.

End RedisReply.

(** ** The article store ([store.go]) *)

Module Store.

(** What a store operation does besides returning: lines it logs and calls
    it makes on the file system. *)
Inductive event :=
| ev_log (args : list string)
| ev_stat (path : string)
| ev_create (path : string).

Definition is_fs_access (e : event) : bool :=
  match e with
  | ev_log _ => false
  | ev_stat _ | ev_create _ => true
  end.

Record articleStore := {
  directory : string;
  temp : string;
  attachments : string;
  thumbs : string;
  compression : bool
}.

(** Modelled from the spec: [ValidMessageID] is declared outside the sources
    at hand. "A message-id is valid iff it begins with [<], ends with [>],
    contains [@], and has total length within NNTP limits"; the limit is
    the parameter [max_len]. *)
Definition begins_with (c : ascii) (s : string) : bool :=
  match s with
  | String a _ => Ascii.eqb a c
  | EmptyString => false
  end.

Fixpoint ends_with (c : ascii) (s : string) : bool :=
  match s with
  | EmptyString => false
  | String a EmptyString => Ascii.eqb a c
  | String _ rest => ends_with c rest
  end.

Fixpoint contains (c : ascii) (s : string) : bool :=
  match s with
  | EmptyString => false
  | String a rest => Ascii.eqb a c || contains c rest
  end.

Definition ValidMessageID (max_len : nat) (id : string) : bool :=
  begins_with "<" id && ends_with ">" id && contains "@" id
  && (String.length id <=? max_len)%nat.

Section Files.
Variable max_len : nat.
(** [filepath.Join], and the file system seen through [CheckFile]
    (declared outside the sources at hand) and [os.Create]. *)
Variable Join : string → string → string.
Variable FS : Type.
Variable CheckFile : string → FS → bool.
Variable os_Create : string → FS → FS * option error.

Definition GetFilename (self : articleStore) (messageID : string)
  : string * list event :=
  if negb (ValidMessageID max_len messageID)
  then (EmptyString,
        [ev_log ["!!! bug: tried to open invalid message"; messageID; "!!!"]])
  else (Join (directory self) messageID, []).

Definition HasArticle (self : articleStore) (messageID : string) (fs : FS)
  : bool * list event :=
  let '(fname, evs) := GetFilename self messageID in
  (CheckFile fname fs, evs ++ [ev_stat fname]).

(** [CreateFile]; the boolean tells whether a file (and not [nil]) is
    returned. *)
Definition CreateFile (self : articleStore) (messageID : string) (fs : FS)
  : bool * FS * list event :=
  let '(fname, evs) := GetFilename self messageID in
  if CheckFile fname fs
  then (false, fs,
        evs ++ [ev_stat fname;
                ev_log ["article with message-id"; messageID;
                        "already exists, not saving"]])
  else
    let '(fs', err) := os_Create fname fs in
    match err with
    | Some _ => (false, fs',
                 evs ++ [ev_stat fname; ev_create fname;
                         ev_log ["cannot open file"; fname]])
    | None => (true, fs', evs ++ [ev_stat fname; ev_create fname])
    end.

Definition AttachmentFilepath (self : articleStore) (fname : string) : string :=
  Join (attachments self) fname.

(** [strings.HasSuffix] *)
Definition HasSuffix (s suffix : string) : bool :=
  (String.length suffix <=? String.length s)%nat
  && String.eqb (String.substring (String.length s - String.length suffix)
                                  (String.length suffix) s) suffix.

Definition ThumbnailFilepath (self : articleStore) (fname : string) : string :=
  if HasSuffix fname ".gif" then Join (thumbs self) fname
  else Join (thumbs self) (fname +:+ ".jpg").

End Files.

(** *** [read_message_body]

    An [io.Reader] is the sequence of answers of its [Read] calls, each a
    chunk of bytes and an error; after the last one it answers [io.EOF].
    The bytes teed to [wr] and the attachment files written through [store]
    are effects on the writer and on the disk, not on the index: the model
    keeps the message and the error returned. *)

Definition reader := list (string * option error).

Abbreviation MIMEHeader := (gmap string (list string)).

Section Parser.
(** Go's [mime.ParseMediaType], [crypto/sha512] and [mime/multipart];
    [unhex], [readMIMEHeader], [readAttachmentFromMimePartAndStore],
    [createPlaintextAttachment], [nacl.CryptoVerifyFucky] and the
    accessors of [nntpArticle] are declared outside the sources at hand. *)
Variable ParseMediaType : string → string * gmap string string * option error.
Variable sha512_Sum : string → string.
Variable unhex : string → string.
Variable CryptoVerifyFucky : string → string → string → bool.
Variable readMIMEHeader : string → MIMEHeader * string * option error.
Variable Part : Type.
Variable NextParts : string → reader → list (Part * option error).
Variable part_ContentType : Part → string.
Variable Att : Type.
Variable readAttachmentFromMimePartAndStore : Part → bool → option Att.
Variable createPlaintextAttachment : string → Att.
Variable ContentType : MIMEHeader → string.
Variable Pubkey : MIMEHeader → string.
Variable headers_Get : MIMEHeader → string → string → string.

Record nntpArticle := {
  headers : MIMEHeader;
  message : option Att;
  attachments_ : list Att
}.

(** The part loop of the multipart branch; the list holds the answers of
    [NextPart], after the last one it answers [io.EOF]. *)
Fixpoint read_parts (store : bool) (parts : list (Part * option error))
    (nntp : nntpArticle) : option nntpArticle * option error :=
  match parts with
  | [] => (Some nntp, None)
  | (_, Some io_EOF) :: _ => (Some nntp, None)
  | (_, Some err) :: _ => (None, Some err)
  | (part, None) :: rest =>
      let part_type := part_ContentType part in
      let '(media_type, _, err) := ParseMediaType part_type in
      let nntp :=
        match err with
        | Some _ => nntp
        | None =>
            if decide (media_type = "text/plain") then
              match readAttachmentFromMimePartAndStore part false with
              | None => nntp
              | Some att =>
                  {| headers := headers nntp; message := Some att;
                     attachments_ := attachments_ nntp |}
              end
            else
              match readAttachmentFromMimePartAndStore part store with
              | None => nntp
              | Some att =>
                  {| headers := headers nntp; message := message nntp;
                     attachments_ := attachments_ nntp ++ [att] |}
              end
        end in
      read_parts store rest nntp
  end.

(** The read loop of the signed branch: the bytes written to the hasher
    and to the buffer, and the error that ends the loop ([None] after
    [io.EOF]). *)
Fixpoint read_signed (body : reader) (acc : string) : string * option error :=
  match body with
  | [] => (acc, None)
  | (chunk, None) :: rest => read_signed rest (acc +:+ chunk)
  | (_, Some io_EOF) :: _ => (acc, None)
  | (_, Some err) :: _ => (acc, Some err)
  end.

(** The read loop of the plain branch. *)
Fixpoint read_plain (body : reader) (str : string) : string * option error :=
  match body with
  | [] => (str, None)
  | (chunk, None) :: rest => read_plain rest (str +:+ chunk)
  | (_, Some io_EOF) :: _ => (str, None)
  | (_, Some err) :: _ => (str, Some err)
  end.

(** [read_message_body]; [store] tells whether a store is given, the writer
    [wr] and [discardAttachmentBody] only decide about the tee. The
    recursion on the inner message of a signed envelope is bounded by
    [fuel]. *)
Fixpoint read_message_body (fuel : nat) (body : reader) (hdr : MIMEHeader)
    (store : bool) : run (option nntpArticle * option error) :=
  match fuel with
  | O => NoFuel
  | S fuel =>
      let nntp := {| headers := hdr; message := None; attachments_ := [] |} in
      let content_type := ContentType hdr in
      let '(media_type, params, err) := ParseMediaType content_type in
      match err with
      | Some _ => Done (None, err)
      | None =>
          match params !! "boundary" with
          | Some boundary =>
              Done (read_parts store (NextParts boundary body) nntp)
          | None =>
              if decide (media_type = "message/rfc822") then
                let sig := headers_Get hdr "X-Signature-Ed25519-Sha512" EmptyString in
                let pk := Pubkey hdr in
                if decide (pk = EmptyString ∨ sig = EmptyString)
                then Done (None, Some (errors_New "invalid headers"))
                else
                  let pk_bytes := unhex pk in
                  let sig_bytes := unhex sig in
                  let '(buff, err) := read_signed body EmptyString in
                  match err with
                  | Some _ => Done (None, err)
                  | None =>
                      let hash := sha512_Sum buff in
                      if CryptoVerifyFucky hash sig_bytes pk_bytes then
                        let '(hdr, br, err) := readMIMEHeader buff in
                        match err with
                        | None => read_message_body fuel [(br, None)] hdr store
                        | Some _ => Done (None, err)
                        end
                      else Done (None, Some (errors_New "invalid signature"))
                  end
              else
                let '(str, err) := read_plain body EmptyString in
                Done (Some {| headers := hdr;
                              message := Some (createPlaintextAttachment str);
                              attachments_ := [] |}, err)
          end
      end
  end.

(** [ProcessMessageBody] on a store whose database is the index [s]:
    [RegisterPost] hands the parsed message to [RegisterArticle], which
    reads it through the accessors, [as_message]. *)
Variable HashMessageID : string → string.
Variable as_message : nntpArticle → NNTPMessage.

Definition RegisterPost (t_group now : Z) (nntp : nntpArticle) (s : Redis.db)
  : Redis.db * option error :=
  (RedisDB.RegisterArticle HashMessageID t_group now (as_message nntp) s, None).

Definition ProcessMessageBody (fuel : nat) (t_group now : Z)
    (hdr : MIMEHeader) (body : reader) (s : Redis.db)
  : run (Redis.db * option error) :=
  match read_message_body fuel body hdr true with
  | NoFuel => NoFuel
  | Panics => Panics
  | Done (Some nntp, None) => Done (RegisterPost t_group now nntp s)
  | Done (None, None) => Panics
  | Done (_, Some err) => Done (s, Some err)
  end.

End Parser.

End Store.

(** ** Header-based signatures ([message.go]) *)

Module MessageGo.

Record NNTPMessage := {
  MessageID : string;
  Key : string;
  Signature : string;
  Signed : string
}.

(** [strings.Replace(s, "\n", "\r\n", -1)] *)
Fixpoint Replace_LF_CRLF (s : string) : string :=
  match s with
  | EmptyString => EmptyString
  | String c rest =>
      if Ascii.eqb c "010"%char
      then String "013"%char (String "010"%char (Replace_LF_CRLF rest))
      else String c (Replace_LF_CRLF rest)
  end.

(** [buff[:len(buff)-2]]: a slice bound below zero is a run-time panic. *)
Definition trim2 (buff : string) : run string :=
  if (String.length buff <? 2)%nat then Panics
  else Done (String.substring 0 (String.length buff - 2) buff).

(** The bytes [Verify] hands to [sha512.Sum512]. *)
Definition signed_buffer (signed : string) : run string :=
  trim2 (Replace_LF_CRLF signed).

Section Verify.
(** [crypto/sha512] and [nacl.CryptoVerify] (the [crypto_sign_open] check
    of a signed message against a public key). *)
Variable sha512_Sum512 : string → string.
Variable CryptoVerify : string → string → bool.

Definition Verify (self : NNTPMessage) : run bool :=
  if (0 <? String.length (Signature self))%nat
     && (0 <? String.length (Key self))%nat
     && (0 <? String.length (Signed self))%nat
  then
    match signed_buffer (Signed self) with
    | Done buff =>
        let msg_hash := sha512_Sum512 buff in
        match hex.DecodeString (Signature self) with
        | None => Done false
        | Some sig_bytes =>
            match hex.DecodeString (Key self) with
            | None => Done false
            | Some pk_bytes =>
                let smsg := sig_bytes +:+ msg_hash in
                if CryptoVerify smsg pk_bytes then Done true else Done false
            end
        end
    | Panics => Panics
    | NoFuel => NoFuel
    end
  else Done true.

End Verify.

(** The canonical form in the spec's words: "every lone [\n] replaced by
    [\r\n]", a lone [\n] being one that does not follow a [\r]. *)
Fixpoint replace_lone_LF (prev_cr : bool) (s : string) : string :=
  match s with
  | EmptyString => EmptyString
  | String c rest =>
      if Ascii.eqb c "010"%char && negb prev_cr
      then String "013"%char (String "010"%char (replace_lone_LF false rest))
      else String c (replace_lone_LF (Ascii.eqb c "013"%char) rest)
  end.

Definition spec_signed_buffer (signed : string) : run string :=
  trim2 (replace_lone_LF false signed).

End MessageGo.

(** ** Removing a newsgroup ([NukeNewsgroup] in [redis.go])

    The one operation of the index that is handed the store, and removes
    files. [os.Remove] takes a path out of the set of files. *)

Module Nuke.
Import Redis RedisDB.

Section Nuke.
Variable max_len : nat.
Variable Join : string → string → string.
Variable Atoi : string → Z.
Variable isSage : string → bool.

Definition os_Remove (fname : string) (files : gset string) : gset string :=
  files ∖ {[ fname ]}.

(** One round of the loop over the articles of the group: the article file,
    then the thumbnail and the file of each of its attachments. The index is
    only read. *)
Definition remove_article_files (store : Store.articleStore) (s : db)
    (files : gset string) (msgid : string) : gset string :=
  let fname := (Store.GetFilename max_len Join store msgid).1 in
  let files := os_Remove fname files in
  foldl (λ acc att,
           os_Remove (Store.AttachmentFilepath Join store att)
             (os_Remove (Store.ThumbnailFilepath Join store att) acc))
        files (GetPostAttachments msgid s).

Definition NukeNewsgroup (group : string) (store : Store.articleStore) (w : world)
  : world :=
  let s := index w in
  let articles := (ZRange (GROUP_ARTICLE_POSTTIME_WKR_PREFIX +:+ group) 0 (-1) s).1 in
  let files := foldl (remove_article_files store s) (disk w) articles in
  let threads := (ZRange (GROUP_THREAD_BUMPTIME_WKR_PREFIX +:+ group) 0 (-1) s).1 in
  let s := foldl (λ acc t, DeleteThread Atoi isSage t acc) s threads in
  let mods := (SMembers (GROUP_MOD_KEY_REVERSE_KR_PREFIX +:+ group) s).1 in
  let s := foldl (λ acc m,
                    Del [MOD_KEY_PREFIX +:+ m +:+ "::Group::" +:+ group
                         +:+ "::Permissions"] acc) s mods in
  let s := Del [GROUP_MOD_KEY_REVERSE_KR_PREFIX +:+ group] s in
  let s := Del [GROUP_ARTICLE_POSTTIME_WKR_PREFIX +:+ group;
                GROUP_THREAD_POSTTIME_WKR_PREFIX +:+ group;
                GROUP_THREAD_BUMPTIME_WKR_PREFIX +:+ group] s in
  let s := ZRem GROUP_POSTTIME_WKR group s in
  {| index := s; disk := files |}.

End Nuke.

End Nuke.

(** ** Concrete articles and index states used in examples *)

Module Scenarios.
Import Redis RedisDB.

(** Scenario 1 of the spec: a plain text article, an OP. *)
Definition plain_article : NNTPMessage :=
  {| MessageID := "<abc@x>"; Newsgroup := "overchan.test"; Reference := "";
     Name := "anon"; Subject := "hello"; Path := "test.srndv2.tld";
     Posted := 1136239445; Message := "hi"; Addr := "";
     OP := true; Sage := false;
     Headers := [("Subject", ["hello"])]; Attachments := [] |}.

(** A reply to [<abc@x>] that does not sage. *)
Definition reply_article : NNTPMessage :=
  {| MessageID := "<def@x>"; Newsgroup := "overchan.test"; Reference := "<abc@x>";
     Name := "anon"; Subject := "re: hello"; Path := "test.srndv2.tld";
     Posted := 1136239500; Message := "hi again"; Addr := "";
     OP := false; Sage := false;
     Headers := []; Attachments := [] |}.

(** An article with the message-id of [plain_article] in another group. *)
Definition crosspost_article : NNTPMessage :=
  {| MessageID := "<abc@x>"; Newsgroup := "overchan.other"; Reference := "";
     Name := "anon"; Subject := "hello"; Path := "test.srndv2.tld";
     Posted := 1136239445; Message := "hi"; Addr := "";
     OP := true; Sage := false;
     Headers := []; Attachments := [] |}.

(** A stand-in for [HashMessageID] where an example needs a concrete index. *)
Definition hash_stub (msgid : string) : string := "hash-of-" +:+ msgid.

(** Two articles that carry the same blob, whose hash bytes are [0xab]. *)
Definition blob : NNTPAttachment :=
  {| att_Hash := String (ascii_of_N 171) EmptyString;
     att_Filename := "cat.png"; att_Filepath := "ab.png" |}.

Definition first_with_blob : NNTPMessage :=
  {| MessageID := "<one@x>"; Newsgroup := "overchan.test"; Reference := "";
     Name := "anon"; Subject := "see pic"; Path := "test.srndv2.tld";
     Posted := 1136239445; Message := "see pic"; Addr := "";
     OP := true; Sage := false;
     Headers := []; Attachments := [blob] |}.

Definition second_with_blob : NNTPMessage :=
  {| MessageID := "<two@x>"; Newsgroup := "overchan.test"; Reference := "";
     Name := "anon"; Subject := "same pic"; Path := "test.srndv2.tld";
     Posted := 1136239446; Message := "same pic"; Addr := "";
     OP := true; Sage := false;
     Headers := []; Attachments := [blob] |}.

Definition index_with_two : db :=
  RegisterArticle hash_stub 1136240002 1136240003 second_with_blob
    (RegisterArticle hash_stub 1136240000 1136240001 first_with_blob ∅).

(** A group ordering with one article. *)
Definition index_with_one : db :=
  ZAddNX (GROUP_ARTICLE_POSTTIME_WKR_PREFIX +:+ "overchan.test")
         1136240001 "<abc@x>" ∅.

(** The index of the two articles, and the one file of their blob. *)
Definition test_store : Store.articleStore :=
  {| Store.directory := "articles"; Store.temp := "incoming";
     Store.attachments := "attachments"; Store.thumbs := "thumbs";
     Store.compression := false |}.

Definition slash_join (dir name : string) : string := dir +:+ "/" +:+ name.

Definition world_with_two : world :=
  {| index := index_with_two;
     disk := {[ "articles/<one@x>"; "articles/<two@x>";
                "attachments/ab.png"; "thumbs/ab.png.jpg" ]} |}.

(** Addresses written zero-padded stand for themselves: a stand-in for
    [net.ParseIP] and [ZeroIPString] on such addresses. *)
Definition padded (ip : string) : string := ip.
Definition parse_padded (addr : string) : option string := Some addr.

(** One subnet, 10.0.0.0/24, with its smallest and its largest address. *)
Definition one_subnet (addr : string) : option unit :=
  if decide (addr = "10.0.0.0/24") then Some tt else None.
Definition subnet_minmax (ipnet : unit) : string * string :=
  ("010.000.000.000", "010.000.000.255").

(** The index after that subnet has been banned. *)
Definition one_ban : db :=
  (BanAddr one_subnet subnet_minmax padded parse_padded 1136240000
     "10.0.0.0/24" ∅).1.

(** A signed envelope whose signature does not verify (scenario 6 of the
    spec), with stand-ins for the functions the parser is given: a header map
    is read by its first value, a content type without parameters parses to
    itself, and the verifier rejects. *)
Definition first_value (hdr : Store.MIMEHeader) (k def : string) : string :=
  match hdr !! k with
  | Some (v :: _) => v
  | _ => def
  end.

Definition parse_bare (content_type : string)
  : string * gmap string string * option error :=
  (content_type, ∅, None).

Definition rejecting_verifier (hash sig pk : string) : bool := false.

Definition no_header (buff : string) : Store.MIMEHeader * string * option error :=
  (∅, buff, None).

Definition envelope_headers : Store.MIMEHeader :=
  {[ "Content-Type" := ["message/rfc822"];
     "X-Pubkey-Ed25519" := ["aa"];
     "X-Signature-Ed25519-Sha512" := ["bb"] ]}.

Definition envelope_body : Store.reader :=
  [("Subject: inner", None); (EmptyString, Some io_EOF)].




(** A file system that is the set of the names of its files. *)
Definition file_there (name : string) (fs : gset string) : bool :=
  bool_decide (name ∈ fs).
Definition create_file (name : string) (fs : gset string)
  : gset string * option error :=
  ({[ name ]} ∪ fs, None).

End Scenarios.

(** * Properties *)

(** ** Keys built from different prefixes are different *)

Module KeyFacts.
Import RedisDB.

Lemma differ_app_neq p q x y : differ p q = true → p +:+ x ≠ q +:+ y.
Proof.
  revert q. induction p as [|a p IH]; intros [|b q]; simpl; try discriminate.
  destruct (Ascii.eqb a b) eqn:E.
  - intros Hd Heq. injection Heq as _ Heq. exact (IH _ Hd Heq).
  - intros _ Heq. injection Heq as Hab _. apply Ascii.eqb_neq in E. contradiction.
Qed.

Lemma app_empty_r (p : string) : p +:+ EmptyString = p.
Proof.
  induction p as [|a p IH]; [done|].
  change (String a (p +:+ EmptyString) = String a p). by rewrite IH.
Qed.

Lemma differ_app_l p q x : differ p q = true → p +:+ x ≠ q.
Proof.
  intros Hd Heq. apply (differ_app_neq p q x EmptyString Hd).
  by rewrite (app_empty_r q).
Qed.

Lemma differ_app_r p q y : differ p q = true → p ≠ q +:+ y.
Proof.
  intros Hd Heq. apply (differ_app_neq p q EmptyString y Hd).
  by rewrite (app_empty_r p).
Qed.

Lemma differ_neq p q : differ p q = true → p ≠ q.
Proof.
  intros Hd Heq. apply (differ_app_neq p q EmptyString EmptyString Hd).
  by rewrite !app_empty_r.
Qed.

(** The prefixes and whole keys of the index differ pairwise in this way, so
    no key of one family is a key of another. *)
Lemma prefixes_pairwise_differ :
  forallb (λ p, forallb (λ q, String.eqb p q || differ p q) all_prefixes)
          all_prefixes = true.
Proof. vm_compute. reflexivity. Qed.

Lemma app_inj_l (p x y : string) : p +:+ x = p +:+ y → x = y.
Proof. induction p as [|a p IH]; simpl; [done|]. intros H. injection H as H. auto. Qed.

End KeyFacts.

(** Two keys of the index with different prefixes. *)
Ltac key_neq :=
  lazymatch goal with
  | |- (_ +:+ _)%string ≠ (_ +:+ _)%string =>
      apply KeyFacts.differ_app_neq; vm_compute; reflexivity
  | |- (_ +:+ _)%string ≠ _ =>
      apply KeyFacts.differ_app_l; vm_compute; reflexivity
  | |- _ ≠ (_ +:+ _)%string =>
      apply KeyFacts.differ_app_r; vm_compute; reflexivity
  | |- _ ≠ _ =>
      apply KeyFacts.differ_neq; vm_compute; reflexivity
  end.

(** ** Pipelines act slot by slot *)

Module PipeFacts.
Import Redis RedisDB.

Lemma Exec_lookup pipe s k : Exec pipe s !! k = slot_at k pipe (s !! k).
Proof.
  unfold Exec, slot_at. revert s. induction pipe as [|c pipe IH]; intros s; simpl.
  - done.
  - rewrite IH. unfold run. rewrite lookup_partial_alter.
    destruct (decide (cmd_key c = k)) as [<-|]; done.
Qed.

Lemma slot_at_app k p1 p2 o : slot_at k (p1 ++ p2) o = slot_at k p2 (slot_at k p1 o).
Proof. unfold slot_at. by rewrite foldl_app. Qed.

Lemma slot_at_other k pipe o :
  Forall (λ c, cmd_key c ≠ k) pipe → slot_at k pipe o = o.
Proof.
  unfold slot_at. intros HF. revert o.
  induction HF as [|c pipe Hc _ IH]; intros o; simpl; [done|].
  rewrite decide_False by done. apply IH.
Qed.

Lemma slot_at_cons_ne k c pipe o :
  cmd_key c ≠ k → slot_at k (c :: pipe) o = slot_at k pipe o.
Proof. intros H. unfold slot_at. simpl. by rewrite decide_False. Qed.

Lemma slot_at_cons_eq k c pipe o :
  cmd_key c = k → slot_at k (c :: pipe) o = slot_at k pipe (cmd_slot c o).
Proof. intros H. unfold slot_at. simpl. by rewrite decide_True. Qed.

(** No command of a pipeline removes a key. *)
Lemma cmd_slot_keeps c v : is_Some (cmd_slot c (Some v)).
Proof.
  destruct c, v; simpl; eauto.
  all: try (match goal with |- context [_ !! ?f] => destruct (_ !! f) end; eauto).
Qed.

Lemma slot_at_keeps k pipe o : is_Some o → is_Some (slot_at k pipe o).
Proof.
  unfold slot_at. revert o. induction pipe as [|c pipe IH]; intros o Ho; simpl; [done|].
  apply IH. destruct (decide (cmd_key c = k)); [|done].
  destruct Ho as [v ->]. apply cmd_slot_keeps.
Qed.

(** The keys the header and attachment loops write to. *)
Lemma header_cmds_keys msgid hdrs k :
  (∀ x, HEADER_KR_PREFIX +:+ x ≠ k) →
  MESSAGEID_HEADER_KR_PREFIX +:+ msgid ≠ k →
  Forall (λ c, cmd_key c ≠ k) (flat_map (header_cmds msgid) hdrs).
Proof.
  intros H1 H2. apply Forall_flat_map, Forall_forall. intros [h vs] _.
  unfold header_cmds. apply Forall_flat_map, Forall_forall. intros v _.
  repeat constructor; simpl; auto.
Qed.

Lemma attachment_cmds_keys msgid atts k :
  (∀ x, ATTACHMENT_ARTICLE_KR_PREFIX +:+ x ≠ k) →
  (∀ x, ATTACHMENT_PREFIX +:+ x ≠ k) →
  ARTICLE_ATTACHMENT_KR_PREFIX +:+ msgid ≠ k →
  Forall (λ c, cmd_key c ≠ k) (flat_map (attachment_cmds msgid) atts).
Proof.
  intros H1 H2 H3. apply Forall_flat_map, Forall_forall. intros att _.
  unfold attachment_cmds. repeat constructor; simpl; auto.
Qed.

End PipeFacts.

(** ** Registration *)

Module RegisterFacts.
Import Redis RedisDB PipeFacts.

Ltac slot_step :=
  first [ rewrite slot_at_cons_ne by (cbn [cmd_key]; key_neq)
        | rewrite slot_at_cons_eq by reflexivity ].

Lemma zsorted_members (z : gmap string Z) (m : string) :
  m ∈ (zsorted z).*1 ↔ is_Some (z !! m).
Proof.
  unfold zsorted. rewrite merge_sort_Permutation.
  rewrite list_elem_of_fmap. split.
  - intros [[m' sc] [-> Hin]]. apply elem_of_map_to_list in Hin. eauto.
  - intros [sc Hsc]. exists (m, sc). split; [done|]. by apply elem_of_map_to_list.
Qed.

Lemma HasNewsgroup_true group s :
  HasNewsgroup group s = true ↔
  ∃ z, s !! GROUP_POSTTIME_WKR = Some (VZSet z) ∧ is_Some (z !! group).
Proof.
  unfold HasNewsgroup, ZRank.
  destruct (s !! GROUP_POSTTIME_WKR) as [[v|h|ms|z]|] eqn:E; simpl;
    try (split; [discriminate | intros (? & ? & ?); discriminate]).
  destruct (list_find (λ x, x = group) (zsorted z).*1) as [[i x]|] eqn:F; simpl.
  - split; [intros _|done]. exists z. split; [done|].
    apply list_find_Some in F as (Hl & -> & _).
    apply zsorted_members. eapply list_elem_of_lookup_2. exact Hl.
  - split; [discriminate|]. intros (z' & Hz & Hin). injection Hz as <-.
    apply zsorted_members in Hin.
    apply list_find_None in F. rewrite Forall_forall in F.
    exfalso. by apply (F group).
Qed.

(** The first step of [RegisterArticle]: make the newsgroup known. *)
Lemma group_step_lookup t group s k :
  k ≠ GROUP_POSTTIME_WKR →
  (if HasNewsgroup group s then s else RegisterNewsgroup t group s) !! k = s !! k.
Proof.
  intros Hk. destruct (HasNewsgroup group s); [done|].
  unfold RegisterNewsgroup, ZAddNX, ZAddF. by rewrite lookup_partial_alter_ne.
Qed.

Lemma group_step_HasArticle t group msgid s :
  HasArticle msgid (if HasNewsgroup group s then s else RegisterNewsgroup t group s)
  = HasArticle msgid s.
Proof.
  unfold HasArticle, Exists. rewrite group_step_lookup; [done|]. key_neq.
Qed.

Lemma zadd_to_member fl score m z :
  fl ≠ ZXX → is_Some (zadd_to fl score m z !! m).
Proof.
  intros Hfl. unfold zadd_to. destruct fl, (z !! m) eqn:E; try done;
    rewrite ?lookup_insert_eq, ?E; eauto.
Qed.

Lemma zadd_to_nonempty fl score m z : fl ≠ ZXX → zadd_to fl score m z ≠ ∅.
Proof.
  intros Hfl Hz. pose proof (zadd_to_member fl score m z Hfl) as [x Hx].
  rewrite Hz, lookup_empty in Hx. discriminate.
Qed.

(** After the first step the newsgroup is known, unless the key of the group
    ordering holds a value of another type. *)
Lemma group_step_known t group s :
  let s0 := if HasNewsgroup group s then s else RegisterNewsgroup t group s in
  HasNewsgroup group s0 = true ∨ zset_err GROUP_POSTTIME_WKR s0 = Some redis_WRONGTYPE.
Proof.
  simpl. destruct (HasNewsgroup group s) eqn:E; [by left|].
  unfold RegisterNewsgroup, ZAddNX, ZAddF, zset_err.
  rewrite HasNewsgroup_true. rewrite lookup_partial_alter_eq.
  destruct (s !! GROUP_POSTTIME_WKR) as [[v|h|ms|z]|] eqn:F; simpl; try by right.
  - left. eexists. split; [done|]. by apply (zadd_to_member ZNX t group z).
  - left. unfold keep_zset.
    rewrite decide_False by by apply (zadd_to_nonempty ZNX t group ∅).
    eexists. split; [done|]. by apply (zadd_to_member ZNX t group ∅).
Qed.

Lemma RegisterNewsgroup_wrongtype t group s :
  zset_err GROUP_POSTTIME_WKR s = Some redis_WRONGTYPE →
  RegisterNewsgroup t group s = s.
Proof.
  unfold zset_err, RegisterNewsgroup, ZAddNX, ZAddF. intros H.
  apply map_eq. intros k. rewrite lookup_partial_alter.
  destruct (decide (GROUP_POSTTIME_WKR = k)) as [<-|]; [|done].
  destruct (s !! GROUP_POSTTIME_WKR) as [[v|h|ms|z]|]; simpl in *; done.
Qed.

Lemma group_step_fixed t group s :
  HasNewsgroup group s = true ∨ zset_err GROUP_POSTTIME_WKR s = Some redis_WRONGTYPE →
  (if HasNewsgroup group s then s else RegisterNewsgroup t group s) = s.
Proof.
  intros [->|H]; [done|]. destruct (HasNewsgroup group s); [done|].
  by apply RegisterNewsgroup_wrongtype.
Qed.

Section Register.
Variable HashMessageID : string → string.

(** The slot of a key the loops over headers and attachments leave alone. *)
Lemma loops_slot msgid hdrs atts k o :
  (∀ x, HEADER_KR_PREFIX +:+ x ≠ k) →
  MESSAGEID_HEADER_KR_PREFIX +:+ msgid ≠ k →
  (∀ x, ATTACHMENT_ARTICLE_KR_PREFIX +:+ x ≠ k) →
  (∀ x, ATTACHMENT_PREFIX +:+ x ≠ k) →
  ARTICLE_ATTACHMENT_KR_PREFIX +:+ msgid ≠ k →
  slot_at k (flat_map (header_cmds msgid) hdrs
             ++ flat_map (attachment_cmds msgid) atts) o = o.
Proof.
  intros. apply slot_at_other, Forall_app. split.
  - by apply header_cmds_keys.
  - by apply attachment_cmds_keys.
Qed.

Lemma slot_at_nil k o : slot_at k [] o = o.
Proof. done. Qed.

Ltac untouched_loops :=
  rewrite ?(slot_at_other _ (flat_map (attachment_cmds _) _))
    by (apply attachment_cmds_keys; intros; key_neq);
  rewrite ?(slot_at_other _ (flat_map (header_cmds _) _))
    by (apply header_cmds_keys; intros; key_neq).

Ltac slot_simpl :=
  repeat first
    [ rewrite slot_at_nil
    | rewrite slot_at_app
    | slot_step
    | match goal with
      | |- context [slot_at _ (if ?b then _ else _) _] => destruct b
      end ].

(** What registration does to the slot of each ordering. *)
Lemma article_posttime_slot now m o :
  slot_at (GROUP_ARTICLE_POSTTIME_WKR_PREFIX +:+ Newsgroup m)
          (register_pipeline HashMessageID now m) o
  = ZAdd_slot ZNX now (MessageID m) o.
Proof.
  unfold register_pipeline. rewrite !slot_at_app. untouched_loops.
  by slot_simpl.
Qed.

Lemma thread_bumptime_slot now m o :
  OP m = false →
  slot_at (GROUP_THREAD_BUMPTIME_WKR_PREFIX +:+ Newsgroup m)
          (register_pipeline HashMessageID now m) o
  = if Sage m then o else ZAdd_slot ZXX (Posted m) (Reference m) o.
Proof.
  intros HOP. unfold register_pipeline. rewrite HOP, !slot_at_app. untouched_loops.
  destruct (Sage m); simpl negb; by slot_simpl.
Qed.

Lemma bumptime_all_slot now m o :
  OP m = false →
  slot_at THREAD_BUMPTIME_WKR (register_pipeline HashMessageID now m) o
  = if Sage m then o else ZAdd_slot ZXX (Posted m) (Reference m) o.
Proof.
  intros HOP. unfold register_pipeline. rewrite HOP, !slot_at_app. untouched_loops.
  destruct (Sage m); simpl negb; by slot_simpl.
Qed.

Lemma thread_posttime_slot now m o :
  OP m = false →
  slot_at (GROUP_THREAD_POSTTIME_WKR_PREFIX +:+ Newsgroup m)
          (register_pipeline HashMessageID now m) o
  = ZAdd_slot ZXX (Posted m) (Reference m) o.
Proof.
  intros HOP. unfold register_pipeline. rewrite HOP, !slot_at_app. untouched_loops.
  destruct (Sage m); simpl negb; by slot_simpl.
Qed.

Lemma thread_posts_slot now m o :
  OP m = false →
  slot_at (THREAD_POST_WKR +:+ Reference m)
          (register_pipeline HashMessageID now m) o
  = ZAdd_slot ZNX (Posted m) (MessageID m) o.
Proof.
  intros HOP. unfold register_pipeline. rewrite HOP, !slot_at_app. untouched_loops.
  destruct (Sage m); simpl negb; by slot_simpl.
Qed.

Lemma group_posttime_slot now m o :
  slot_at GROUP_POSTTIME_WKR (register_pipeline HashMessageID now m) o
  = ZAdd_slot ZXX now (Newsgroup m) o.
Proof.
  unfold register_pipeline. rewrite !slot_at_app. untouched_loops.
  destruct (Sage m); simpl negb; by slot_simpl.
Qed.

Lemma article_record_slot now m :
  is_Some (slot_at (ARTICLE_PREFIX +:+ MessageID m)
                   (register_pipeline HashMessageID now m) None).
Proof.
  unfold register_pipeline. rewrite slot_at_app. slot_step.
  apply slot_at_keeps, slot_at_keeps. simpl. eauto.
Qed.

(** A new article: the index after [RegisterArticle], key by key. *)
Lemma RegisterArticle_new_lookup t_group now m s k :
  HasArticle (MessageID m) s = false →
  k ≠ GROUP_POSTTIME_WKR →
  RegisterArticle HashMessageID t_group now m s !! k
  = slot_at k (register_pipeline HashMessageID now m) (s !! k).
Proof.
  intros Hnew Hk. unfold RegisterArticle.
  rewrite group_step_HasArticle, Hnew, Exec_lookup.
  by rewrite group_step_lookup.
Qed.

(** A known article: only the first step is taken. *)
Lemma RegisterArticle_known t_group now m s :
  HasArticle (MessageID m) s = true →
  RegisterArticle HashMessageID t_group now m s
  = if HasNewsgroup (Newsgroup m) s then s
    else RegisterNewsgroup t_group (Newsgroup m) s.
Proof.
  intros Hknown. unfold RegisterArticle.
  by rewrite group_step_HasArticle, Hknown.
Qed.

Lemma RegisterArticle_HasArticle t_group now m s :
  HasArticle (MessageID m) (RegisterArticle HashMessageID t_group now m s) = true.
Proof.
  destruct (HasArticle (MessageID m) s) eqn:E.
  - rewrite RegisterArticle_known by done. by rewrite group_step_HasArticle.
  - unfold HasArticle, Exists in *.
    rewrite RegisterArticle_new_lookup by (done || key_neq).
    destruct (s !! (ARTICLE_PREFIX +:+ MessageID m)); [done|].
    by destruct (article_record_slot now m) as [v ->].
Qed.

Lemma ZAdd_XX_known score group o :
  (∃ z, o = Some (VZSet z) ∧ is_Some (z !! group)) →
  ∃ z, ZAdd_slot ZXX score group o = Some (VZSet z) ∧ is_Some (z !! group).
Proof.
  intros (z & -> & [x Hx]). simpl. eexists. split; [done|].
  unfold zadd_to. rewrite Hx, lookup_insert_eq. eauto.
Qed.

Lemma ZAdd_wrongtype fl score m o :
  match o with Some (VZSet _) | None => False | _ => True end →
  ZAdd_slot fl score m o = o.
Proof. by destruct o as [[]|]. Qed.

(** After [RegisterArticle] the first step has nothing left to do. *)
Lemma RegisterArticle_group_known t_group now m s :
  let s' := RegisterArticle HashMessageID t_group now m s in
  HasNewsgroup (Newsgroup m) s' = true
  ∨ zset_err GROUP_POSTTIME_WKR s' = Some redis_WRONGTYPE.
Proof.
  simpl. unfold RegisterArticle.
  pose proof (group_step_known t_group (Newsgroup m) s) as Hs0. simpl in Hs0.
  set (s0 := if HasNewsgroup (Newsgroup m) s then s
             else RegisterNewsgroup t_group (Newsgroup m) s) in *.
  destruct (HasArticle (MessageID m) s0); [done|].
  rewrite HasNewsgroup_true in *. unfold zset_err in *.
  rewrite Exec_lookup, group_posttime_slot.
  destruct Hs0 as [Hs0|Hs0].
  - left. apply ZAdd_XX_known. destruct Hs0 as (z & Hz & Hin). eauto.
  - right. destruct (s0 !! GROUP_POSTTIME_WKR) as [[v|h|ms|z]|]; done.
Qed.

(** Registering twice is registering once. *)
Lemma RegisterArticle_twice t1 t2 t3 t4 m s :
  RegisterArticle HashMessageID t3 t4 m (RegisterArticle HashMessageID t1 t2 m s)
  = RegisterArticle HashMessageID t1 t2 m s.
Proof.
  rewrite RegisterArticle_known by apply RegisterArticle_HasArticle.
  apply group_step_fixed, RegisterArticle_group_known.
Qed.

End Register.

End RegisterFacts.

(** ** The orderings after registration *)

Module OrderingFacts.
Import Redis RedisDB PipeFacts RegisterFacts.

Lemma slot_score_ZAdd_XX score m o :
  slot_score (ZAdd_slot ZXX score m o) m = rescore score (slot_score o m).
Proof.
  destruct o as [[v|h|ms|z]|]; simpl; try done.
  unfold zadd_to. destruct (z !! m) eqn:E; simpl.
  - by rewrite lookup_insert_eq.
  - by rewrite E.
Qed.

Lemma slot_score_ZAdd_NX score m o :
  match o with None | Some (VZSet _) => True | Some _ => False end →
  slot_score (ZAdd_slot ZNX score m o) m = Some (default score (slot_score o m)).
Proof.
  destruct o as [[v|h|ms|z]|]; simpl; try done; intros _.
  - unfold zadd_to. destruct (z !! m) eqn:E; simpl.
    + by rewrite E.
    + by rewrite lookup_insert_eq.
  - unfold keep_zset, zadd_to. rewrite lookup_empty.
    rewrite decide_False by apply insert_non_empty.
    simpl. by rewrite lookup_insert_eq.
Qed.

Lemma zset_err_None k s :
  zset_err k s = None →
  match s !! k with None | Some (VZSet _) => True | Some _ => False end.
Proof. unfold zset_err. by destruct (s !! k) as [[]|]. Qed.

End OrderingFacts.

Import Redis RedisDB.

(** C1 (as amended). An article that is new to the index enters
    [group_article_posttime[group]] with the time the clock shows at
    registration ([now]) as its score; a message-id that is already a member
    of that ordering keeps the score it has. The posted time of the headers is
    not used for this ordering. *)
Theorem article_posttime_scored_at_registration
    (HashMessageID : string → string) (t_group now : Z) (m : NNTPMessage) (s : db) :
  HasArticle (MessageID m) s = false →
  zset_err (GROUP_ARTICLE_POSTTIME_WKR_PREFIX +:+ Newsgroup m) s = None →
  ZScore (GROUP_ARTICLE_POSTTIME_WKR_PREFIX +:+ Newsgroup m) (MessageID m)
         (RegisterArticle HashMessageID t_group now m s)
  = Some (default now
            (ZScore (GROUP_ARTICLE_POSTTIME_WKR_PREFIX +:+ Newsgroup m)
                    (MessageID m) s)).
Proof.
  intros Hnew Hty. unfold ZScore.
  rewrite RegisterFacts.RegisterArticle_new_lookup by (done || key_neq).
  rewrite RegisterFacts.article_posttime_slot.
  by apply OrderingFacts.slot_score_ZAdd_NX, OrderingFacts.zset_err_None.
Qed.

Lemma article_posttime_scored_at_registration_witness :
  ZScore (GROUP_ARTICLE_POSTTIME_WKR_PREFIX +:+ "overchan.test") "<abc@x>"
         (RegisterArticle Scenarios.hash_stub 1136240000 1136240001
                          Scenarios.plain_article ∅)
  = Some 1136240001.
Proof.
  refine (eq_trans
            (article_posttime_scored_at_registration
               Scenarios.hash_stub 1136240000 1136240001
               Scenarios.plain_article ∅ _ _) _);
    reflexivity.
Defined.

(** C1 as stated fails: the article of scenario 1, posted at 1136239445 and
    registered when the clock shows 1136240001, is scored 1136240001. *)
Lemma article_posttime_not_posted_time :
  (∀ HashMessageID,
     ZScore (GROUP_ARTICLE_POSTTIME_WKR_PREFIX +:+ "overchan.test") "<abc@x>"
            (RegisterArticle HashMessageID 1136240000 1136240001
                             Scenarios.plain_article ∅)
     = Some 1136240001)
  ∧ Posted Scenarios.plain_article = 1136239445
  ∧ 1136240001 ≠ 1136239445.
Proof.
  split; [|split; [reflexivity | discriminate]].
  intros H. unfold ZScore.
  rewrite RegisterFacts.RegisterArticle_new_lookup by (reflexivity || key_neq).
  rewrite (RegisterFacts.article_posttime_slot H 1136240001 Scenarios.plain_article).
  reflexivity.
Qed.

(** C4 (as amended). For a reply that is new to the index, with root
    [Reference m]: the root's score in [group_thread_bumptime[group]] and in
    [thread_bumptime_all] is left as it is by a sage reply, and becomes the
    reply's posted time for a reply that does not sage, provided the root is a
    member of that ordering (a root that is no member is not added); in both
    cases the root's score in [group_thread_posttime[group]] becomes the
    reply's posted time, again provided the root is a member; and the reply
    enters [thread_posts[reference]] scored by its posted time unless it is
    a member already. *)
Theorem reply_bump_semantics
    (HashMessageID : string → string) (t_group now : Z) (m : NNTPMessage) (s : db) :
  OP m = false →
  HasArticle (MessageID m) s = false →
  let s' := RegisterArticle HashMessageID t_group now m s in
  let bump := GROUP_THREAD_BUMPTIME_WKR_PREFIX +:+ Newsgroup m in
  let post := GROUP_THREAD_POSTTIME_WKR_PREFIX +:+ Newsgroup m in
  let posts := THREAD_POST_WKR +:+ Reference m in
  ZScore bump (Reference m) s'
    = (if Sage m then ZScore bump (Reference m) s
       else rescore (Posted m) (ZScore bump (Reference m) s))
  ∧ ZScore THREAD_BUMPTIME_WKR (Reference m) s'
    = (if Sage m then ZScore THREAD_BUMPTIME_WKR (Reference m) s
       else rescore (Posted m) (ZScore THREAD_BUMPTIME_WKR (Reference m) s))
  ∧ ZScore post (Reference m) s' = rescore (Posted m) (ZScore post (Reference m) s)
  ∧ (zset_err posts s = None →
     ZScore posts (MessageID m) s'
     = Some (default (Posted m) (ZScore posts (MessageID m) s))).
Proof.
  intros HOP Hnew. simpl. unfold ZScore.
  rewrite !RegisterFacts.RegisterArticle_new_lookup by (done || key_neq).
  rewrite RegisterFacts.thread_bumptime_slot, RegisterFacts.bumptime_all_slot,
    RegisterFacts.thread_posttime_slot, RegisterFacts.thread_posts_slot by done.
  repeat split.
  - destruct (Sage m); [done | apply OrderingFacts.slot_score_ZAdd_XX].
  - destruct (Sage m); [done | apply OrderingFacts.slot_score_ZAdd_XX].
  - apply OrderingFacts.slot_score_ZAdd_XX.
  - intros Hty.
    by apply OrderingFacts.slot_score_ZAdd_NX, OrderingFacts.zset_err_None.
Qed.

Lemma reply_bump_semantics_witness :
  ZScore (GROUP_THREAD_BUMPTIME_WKR_PREFIX +:+ "overchan.test") "<abc@x>"
         (RegisterArticle Scenarios.hash_stub 1136240100 1136240101
            Scenarios.reply_article
            (RegisterArticle Scenarios.hash_stub 1136240000 1136240001
               Scenarios.plain_article ∅))
  = Some 1136239500
  ∧ ZScore (GROUP_THREAD_POSTTIME_WKR_PREFIX +:+ "overchan.test") "<abc@x>"
         (RegisterArticle Scenarios.hash_stub 1136240100 1136240101
            Scenarios.reply_article
            (RegisterArticle Scenarios.hash_stub 1136240000 1136240001
               Scenarios.plain_article ∅))
  = Some 1136239500.
Proof.
  pose proof (reply_bump_semantics Scenarios.hash_stub 1136240100 1136240101
                Scenarios.reply_article
                (RegisterArticle Scenarios.hash_stub 1136240000 1136240001
                   Scenarios.plain_article ∅)) as Hthm.
  destruct Hthm as (Hbump & _ & Hpost & _).
  - reflexivity.
  - vm_compute. reflexivity.
  - split.
    + etransitivity; [exact Hbump|]. vm_compute. reflexivity.
    + etransitivity; [exact Hpost|]. vm_compute. reflexivity.
Defined.

(** C4 as stated fails: a reply whose root is not in the orderings (it has
    not arrived, or was deleted) leaves [group_thread_posttime[group]] and
    [group_thread_bumptime[group]] without an entry for the root, although the
    reply does not sage. *)
Lemma reply_to_unknown_root_sets_nothing :
  (∀ HashMessageID,
     ZScore (GROUP_THREAD_POSTTIME_WKR_PREFIX +:+ "overchan.test") "<abc@x>"
            (RegisterArticle HashMessageID 1136240100 1136240101
                             Scenarios.reply_article ∅) = None
     ∧ ZScore (GROUP_THREAD_BUMPTIME_WKR_PREFIX +:+ "overchan.test") "<abc@x>"
            (RegisterArticle HashMessageID 1136240100 1136240101
                             Scenarios.reply_article ∅) = None)
  ∧ OP Scenarios.reply_article = false
  ∧ Sage Scenarios.reply_article = false
  ∧ Reference Scenarios.reply_article = "<abc@x>"
  ∧ Posted Scenarios.reply_article = 1136239500.
Proof.
  split; [|by repeat split].
  intros H. unfold ZScore.
  rewrite !RegisterFacts.RegisterArticle_new_lookup by (reflexivity || key_neq).
  rewrite (RegisterFacts.thread_posttime_slot H _ Scenarios.reply_article)
    by reflexivity.
  rewrite (RegisterFacts.thread_bumptime_slot H _ Scenarios.reply_article)
    by reflexivity.
  split; reflexivity.
Qed.

(** C9 (as amended). Registering an article whose message-id is present
    changes nothing but, when the article's newsgroup is not known, the group
    ordering, which gains the newsgroup; and registering the same article
    twice leaves the index that registering it once leaves. *)
Theorem register_known_article
    (HashMessageID : string → string) (t1 t2 t3 t4 : Z) (m : NNTPMessage) (s : db) :
  (HasArticle (MessageID m) s = true →
   RegisterArticle HashMessageID t1 t2 m s
   = if HasNewsgroup (Newsgroup m) s then s
     else RegisterNewsgroup t1 (Newsgroup m) s)
  ∧ RegisterArticle HashMessageID t3 t4 m (RegisterArticle HashMessageID t1 t2 m s)
    = RegisterArticle HashMessageID t1 t2 m s.
Proof.
  split.
  - apply RegisterFacts.RegisterArticle_known.
  - apply RegisterFacts.RegisterArticle_twice.
Qed.

(** C9 as stated fails: with [<abc@x>] registered in [overchan.test], an
    article of the same message-id that names [overchan.other] is not
    registered again, but [overchan.other] enters the group ordering. *)
Lemma register_known_article_adds_group :
  (∀ HashMessageID,
     HasArticle "<abc@x>"
       (RegisterArticle HashMessageID 1136240000 1136240001
                        Scenarios.plain_article ∅) = true
     ∧ ZScore GROUP_POSTTIME_WKR "overchan.other"
         (RegisterArticle HashMessageID 1136240000 1136240001
                          Scenarios.plain_article ∅) = None
     ∧ ZScore GROUP_POSTTIME_WKR "overchan.other"
         (RegisterArticle HashMessageID 1136240100 1136240101
            Scenarios.crosspost_article
            (RegisterArticle HashMessageID 1136240000 1136240001
                             Scenarios.plain_article ∅)) = Some 1136240100)
  ∧ MessageID Scenarios.crosspost_article = MessageID Scenarios.plain_article.
Proof.
  split; [|reflexivity]. intros H.
  set (s1 := RegisterArticle H 1136240000 1136240001 Scenarios.plain_article ∅).
  assert (Hknown : HasArticle "<abc@x>" s1 = true)
    by apply (RegisterFacts.RegisterArticle_HasArticle H _ _ Scenarios.plain_article).
  assert (Hslot : s1 !! GROUP_POSTTIME_WKR
                  = Some (VZSet {[ "overchan.test" := 1136240001 ]})).
  { unfold s1, RegisterArticle.
    change (HasNewsgroup (Newsgroup Scenarios.plain_article) ∅) with false.
    cbv iota.
    change (HasArticle (MessageID Scenarios.plain_article)
              (RegisterNewsgroup 1136240000 (Newsgroup Scenarios.plain_article) ∅))
      with false.
    cbv iota. rewrite PipeFacts.Exec_lookup, RegisterFacts.group_posttime_slot.
    vm_compute. reflexivity. }
  split; [done|]. split.
  - unfold ZScore. rewrite Hslot. reflexivity.
  - rewrite (RegisterFacts.RegisterArticle_known H _ _ Scenarios.crosspost_article)
      by done.
    assert (Hnew : HasNewsgroup (Newsgroup Scenarios.crosspost_article) s1 = false).
    { unfold HasNewsgroup, ZRank. rewrite Hslot. reflexivity. }
    rewrite Hnew. unfold ZScore, RegisterNewsgroup, ZAddNX, ZAddF.
    rewrite lookup_partial_alter_eq, Hslot. reflexivity.
Qed.

(** ** Article numbers *)

Module NumberFacts.
Import PipeFacts RegisterFacts.

Lemma zsorted_length (z : gmap string Z) : length (zsorted z).*1 = size z.
Proof.
  rewrite length_fmap. unfold zsorted.
  rewrite merge_sort_Permutation. apply length_map_to_list.
Qed.

Lemma range_slice_past_end {A} (l : list A) :
  range_slice l (Z.of_nat (length l)) (Z.of_nat (length l)) = [].
Proof.
  unfold range_slice.
  replace (Z.of_nat (length l) <? 0) with false by (symmetry; apply Z.ltb_ge; lia).
  rewrite Z.ltb_irrefl, Z.leb_refl. done.
Qed.

End NumberFacts.

(** C2. The code returns [first = 1] always and [last = 0] for an empty
    ordering, but for an ordering of [n > 0] articles it returns
    [last = n + 1], not [n]; no article has that number: the lookup by number
    answers the empty message-id for it. *)
Theorem last_is_one_past_cardinality (group : string) (s : db) (z : gmap string Z) :
  s !! (GROUP_ARTICLE_POSTTIME_WKR_PREFIX +:+ group) = Some (VZSet z) →
  z ≠ ∅ →
  GetLastAndFirstForGroup group s = (Z.of_nat (size z) + 1, 1, None)
  ∧ GetMessageIDForNNTPID group (Z.of_nat (size z) + 1) s = (EmptyString, None).
Proof.
  intros Hz Hne. split.
  - unfold GetLastAndFirstForGroup, ZCard. rewrite Hz.
    assert (size z ≠ 0%nat) by by rewrite map_size_non_empty_iff.
    destruct (Z.eqb_spec (Z.of_nat (size z)) 0); [lia | done].
  - unfold GetMessageIDForNNTPID, ZRange, zmembers. rewrite Hz.
    destruct (Z.eqb_spec (Z.of_nat (size z) + 1) 0); [lia|].
    replace (Z.of_nat (size z) + 1 - 1) with (Z.of_nat (size z)) by lia.
    rewrite <- NumberFacts.zsorted_length, NumberFacts.range_slice_past_end. done.
Qed.

Lemma last_is_one_past_cardinality_witness :
  GetLastAndFirstForGroup "overchan.test" Scenarios.index_with_one = (2, 1, None)
  ∧ GetMessageIDForNNTPID "overchan.test" 2 Scenarios.index_with_one
    = (EmptyString, None).
Proof.
  assert (Hz : Scenarios.index_with_one
                 !! (GROUP_ARTICLE_POSTTIME_WKR_PREFIX +:+ "overchan.test")
               = Some (VZSet {[ "<abc@x>" := 1136240001 ]}))
    by (vm_compute; reflexivity).
  pose proof (last_is_one_past_cardinality "overchan.test"
                Scenarios.index_with_one {[ "<abc@x>" := 1136240001 ]}
                Hz (insert_non_empty _ _ _)) as Hthm.
  rewrite map_size_singleton in Hthm. exact Hthm.
Defined.

(** The parts of C2 that hold: [first] is 1 whatever the index, and an
    ordering that is missing gives [last = 0]. *)
Lemma first_is_one (group : string) (s : db) :
  (GetLastAndFirstForGroup group s).1.2 = 1.
Proof.
  unfold GetLastAndFirstForGroup.
  destruct (ZCard _ s) as [last err]. by destruct (last =? 0).
Qed.

Lemma last_of_empty_group (group : string) (s : db) :
  s !! (GROUP_ARTICLE_POSTTIME_WKR_PREFIX +:+ group) = None →
  GetLastAndFirstForGroup group s = (0, 1, None).
Proof. intros H. unfold GetLastAndFirstForGroup, ZCard. by rewrite H. Qed.

(** The numbers the lookup by number does serve end at the cardinality. *)
Lemma number_one_of_single_article :
  GetMessageIDForNNTPID "overchan.test" 1 Scenarios.index_with_one
  = ("<abc@x>", None).
Proof. vm_compute. reflexivity. Qed.

(** ** Deletion *)

(** C3. Deleting an article removes the reverse link of each attachment and,
    with the last referrer, the attachment record; the file of the blob stays
    on disk (the source marks the removal as still to do). With two articles
    sharing the blob [ab]: after deleting one the record and the file are
    there, after deleting both the record is gone and the file is still
    there. *)
Theorem delete_article_leaves_blob_file (Atoi : string → Z) (isSage : string → bool) :
  let w1 := DeleteArticle_world Atoi isSage "<one@x>" Scenarios.world_with_two in
  let w2 := DeleteArticle_world Atoi isSage "<two@x>" w1 in
  (SIsMember (ATTACHMENT_ARTICLE_KR_PREFIX +:+ "ab") "<one@x>" (index w1) = false
   ∧ SIsMember (ATTACHMENT_ARTICLE_KR_PREFIX +:+ "ab") "<two@x>" (index w1) = true
   ∧ Exists (ATTACHMENT_PREFIX +:+ "ab") (index w1) = true
   ∧ "attachments/ab.png" ∈ disk w1)
  ∧ (Exists (ATTACHMENT_ARTICLE_KR_PREFIX +:+ "ab") (index w2) = false
     ∧ Exists (ATTACHMENT_PREFIX +:+ "ab") (index w2) = false
     ∧ HasArticle "<one@x>" (index w2) = false
     ∧ HasArticle "<two@x>" (index w2) = false
     ∧ "attachments/ab.png" ∈ disk w2).
Proof.
  simpl. repeat split; try (vm_compute; reflexivity); set_solver.
Qed.

(** ** The ban lookup *)

Module BanFacts.

#[local] Instance zle_trans : Transitive zle.
Proof.
  intros [m1 s1] [m2 s2] [m3 s3]. unfold zle. simpl.
  intros [H1|[H1 L1]] [H2|[H2 L2]]; try (left; lia).
  right. split; [lia|]. by etransitivity.
Qed.

#[local] Instance zle_total : Total zle.
Proof.
  intros [m1 s1] [m2 s2]. unfold zle. simpl.
  destruct (Z.lt_trichotomy s1 s2) as [H|[H|H]]; [by left; left| |by right; left].
  destruct (total String.le m1 m2); [left|right]; right; done.
Qed.

Lemma zsorted_sorted (z : gmap string Z) : StronglySorted zle (zsorted z).
Proof. apply StronglySorted_merge_sort; apply _. Qed.

(** With one score for all members the sorted set is in the order of the
    members' bytes. *)
Lemma uniform_members_sorted (l : list (string * Z)) :
  (∀ x, x ∈ l → x.2 = 0) →
  StronglySorted zle l → StronglySorted String.le l.*1.
Proof.
  intros Hu Hs. induction Hs as [|x l Hs IH Hx]; simpl; constructor.
  - apply IH. intros y Hy. apply Hu. by right.
  - rewrite Forall_fmap. rewrite Forall_forall in Hx |- *.
    intros y Hy. specialize (Hx y Hy). simpl.
    destruct Hx as [Hlt|[_ Hle]]; [|done].
    rewrite (Hu x), (Hu y) in Hlt by (by left || by right). lia.
Qed.

(** The first element of a sorted list that satisfies [P] is the least one
    that does. *)
Lemma head_filter_sorted (P : string → Prop) `{!∀ x, Decision (P x)}
    (l : list string) (e : string) :
  StronglySorted String.le l →
  head (filter P l) = Some e ↔
  e ∈ l ∧ P e ∧ ∀ x, x ∈ l → P x → String.le e x.
Proof.
  intros Hs. split.
  - induction Hs as [|a l Hs IH Ha]; simpl; [done|].
    rewrite filter_cons. destruct (decide (P a)) as [HP|HP]; simpl.
    + intros [= <-]. split; [by left|]. split; [done|].
      intros x Hx _. apply elem_of_cons in Hx as [->|Hx]; [done|].
      rewrite Forall_forall in Ha. by apply Ha.
    + intros Hh. destruct (IH Hh) as (Hin & HPe & Hleast).
      split; [by right|]. split; [done|].
      intros x Hx HPx. apply elem_of_cons in Hx as [->|Hx]; [done|].
      by apply Hleast.
  - intros (Hin & HPe & Hleast).
    destruct (head (filter P l)) as [e'|] eqn:Hh.
    + f_equal. apply head_Some_elem_of in Hh as Hin'.
      apply list_elem_of_filter in Hin' as [HPe' Hin'].
      apply (anti_symm String.le).
      * clear Hleast. revert Hh. induction Hs as [|a l Hs IH Ha]; simpl; [done|].
        rewrite filter_cons. destruct (decide (P a)) as [HP|HP]; simpl.
        -- intros [= ->]. apply elem_of_cons in Hin as [->|Hin]; [done|].
           rewrite Forall_forall in Ha. by apply Ha.
        -- intros Hh. apply elem_of_cons in Hin as [->|Hin]; [done|].
           apply elem_of_cons in Hin' as [->|Hin']; [done|].
           by apply IH.
      * by apply Hleast.
    + apply head_None in Hh.
      assert (e ∈ filter P l) as Hf by by apply list_elem_of_filter.
      rewrite Hh in Hf. by apply not_elem_of_nil in Hf.
Qed.

Lemma take_one_head {A} (l : list A) :
  take 1 l = match head l with Some x => [x] | None => [] end.
Proof. by destruct l. Qed.

(** [ZRANGEBYLEX key [start + LIMIT 0 1] on [ip_range_ban]. *)
Lemma first_endpoint (s : db) (start : string) :
  (∀ e sc, range_endpoints s !! e = Some sc → sc = 0) →
  let '(res, err) := ZRangeByLexFrom IP_RANGE_BAN_KR start 1 s in
  match err, res with
  | None, e :: _ => least_endpoint_from s start e
  | _, _ => ∀ e, is_Some (range_endpoints s !! e) → ¬ String.le start e
  end.
Proof.
  intros Hu. unfold ZRangeByLexFrom, zmembers, least_endpoint_from.
  unfold range_endpoints in *.
  destruct (s !! IP_RANGE_BAN_KR) as [[v|h|ms|z]|] eqn:E;
    try (intros e [x Hx]; by rewrite lookup_empty in Hx).
  assert (Hs : StronglySorted String.le (zsorted z).*1).
  { apply uniform_members_sorted; [|apply zsorted_sorted].
    intros [m sc] Hin. simpl. apply (Hu m).
    unfold zsorted in Hin. rewrite merge_sort_Permutation in Hin.
    by apply elem_of_map_to_list in Hin. }
  rewrite take_one_head.
  destruct (head (filter (λ m, String.le start m) (zsorted z).*1)) as [e|] eqn:Hh.
  - apply (head_filter_sorted _ _ _ Hs) in Hh as (Hin & Hle & Hleast).
    split; [by apply RegisterFacts.zsorted_members|]. split; [done|].
    intros e' He' Hle'. apply Hleast; [|done]. by apply RegisterFacts.zsorted_members.
  - intros e Hin Hle. apply head_None in Hh.
    assert (e ∈ filter (λ m, String.le start m) (zsorted z).*1) as Hf.
    { apply list_elem_of_filter. split; [done|]. by apply RegisterFacts.zsorted_members. }
    rewrite Hh in Hf. by apply not_elem_of_nil in Hf.
Qed.

Lemma least_endpoint_unique (s : db) (start e1 e2 : string) :
  least_endpoint_from s start e1 → least_endpoint_from s start e2 → e1 = e2.
Proof.
  intros (H1 & L1 & M1) (H2 & L2 & M2).
  apply (anti_symm String.le); [by apply M1 | by apply M2].
Qed.

End BanFacts.

(** ** The states the ban operations reach *)

Module BanStates.
Import BanFacts.

Local Abbreviation PREFIX := IP_RANGE_BAN_PREFIX.
Local Abbreviation KR := IP_RANGE_BAN_KR.
Local Abbreviation removed es s :=
  (foldl (λ acc e, Del [PREFIX +:+ e] (ZRem KR e acc)) s es).

Lemma record_key_neq e e' : e ≠ e' → PREFIX +:+ e ≠ PREFIX +:+ e'.
Proof. intros Hne Heq. by apply KeyFacts.app_inj_l in Heq. Qed.

(** Whatever leaves the keys of the range bans alone keeps the ranges in
    order. *)
Lemma ranges_ordered_frame (s s' : db) :
  (∀ k, is_range_key k → s' !! k = s !! k) →
  ranges_ordered s → ranges_ordered s'.
Proof.
  intros Hsame.
  assert (range_endpoints s' = range_endpoints s) as Hep.
  { unfold range_endpoints. rewrite Hsame by by left. done. }
  assert (∀ e f, HGet (PREFIX +:+ e) f s' = HGet (PREFIX +:+ e) f s) as Hget.
  { intros e f. unfold HGet. rewrite Hsame by (right; eauto). done. }
  assert (∀ e, hash_err (PREFIX +:+ e) s' = hash_err (PREFIX +:+ e) s) as Hhe.
  { intros e. unfold hash_err. rewrite Hsame by (right; eauto). done. }
  assert (zset_err KR s' = zset_err KR s) as Hze.
  { unfold zset_err. rewrite Hsame by by left. done. }
  intros (H1 & H2 & H3 & H4 & H5). unfold ranges_ordered.
  rewrite Hep, Hze. split; [done|]. split; [by intros e; rewrite Hhe|].
  split; [done|]. split.
  - intros e He. rewrite Hget. by apply H4.
  - intros e1 e2 st1 st2 ? ?. rewrite !Hget. by apply H5.
Qed.

(** One range taken out: its endpoint leaves the sorted set, its record is
    deleted, every other record stays. *)
Lemma remove_one_endpoints e (s : db) :
  range_endpoints (Del [PREFIX +:+ e] (ZRem KR e s)) = delete e (range_endpoints s).
Proof.
  unfold range_endpoints, Del, ZRem. cbn [foldl].
  rewrite lookup_partial_alter_ne by key_neq.
  rewrite lookup_partial_alter_eq.
  destruct (s !! KR) as [[x|h|ms|z]|]; cbn [ZRem_slot]; try by rewrite delete_empty.
  unfold keep_zset. case_decide as Hz; [by rewrite Hz|done].
Qed.

Lemma remove_one_record e e' (s : db) :
  Del [PREFIX +:+ e] (ZRem KR e s) !! (PREFIX +:+ e')
  = if decide (e' = e) then None else s !! (PREFIX +:+ e').
Proof.
  unfold Del, ZRem. cbn [foldl]. case_decide as He.
  - subst. by rewrite lookup_partial_alter_eq.
  - rewrite lookup_partial_alter_ne by (apply record_key_neq; congruence).
    by rewrite lookup_partial_alter_ne by key_neq.
Qed.

Lemma remove_one_zset_err e (s : db) :
  zset_err KR s = None → zset_err KR (Del [PREFIX +:+ e] (ZRem KR e s)) = None.
Proof.
  unfold zset_err, Del, ZRem. cbn [foldl].
  rewrite lookup_partial_alter_ne by key_neq.
  rewrite lookup_partial_alter_eq.
  destruct (s !! KR) as [[x|h|ms|z]|]; cbn [ZRem_slot]; try done.
  intros _. unfold keep_zset. by case_decide.
Qed.

Lemma removed_endpoints es (s : db) e' :
  range_endpoints (removed es s) !! e'
  = if decide (e' ∈ es) then None else range_endpoints s !! e'.
Proof.
  revert s. induction es as [|e es IH]; intros s.
  - cbn [foldl]. rewrite decide_False by apply not_elem_of_nil. done.
  - cbn [foldl]. rewrite IH, remove_one_endpoints.
    destruct (decide (e' ∈ es)) as [Hin|Hnin].
    + rewrite decide_True by (by right). done.
    + destruct (decide (e' = e)) as [->|Hne].
      * rewrite decide_True by (by left). by rewrite lookup_delete_eq.
      * rewrite decide_False by (rewrite elem_of_cons; intuition).
        by rewrite lookup_delete_ne.
Qed.

Lemma removed_record es (s : db) e' :
  removed es s !! (PREFIX +:+ e')
  = if decide (e' ∈ es) then None else s !! (PREFIX +:+ e').
Proof.
  revert s. induction es as [|e es IH]; intros s.
  - cbn [foldl]. rewrite decide_False by apply not_elem_of_nil. done.
  - cbn [foldl]. rewrite IH, remove_one_record.
    destruct (decide (e' ∈ es)) as [Hin|Hnin].
    + rewrite decide_True by (by right). done.
    + destruct (decide (e' = e)) as [->|Hne].
      * rewrite decide_True by (by left). done.
      * rewrite decide_False by (rewrite elem_of_cons; intuition). done.
Qed.

Lemma removed_zset_err es (s : db) :
  zset_err KR s = None → zset_err KR (removed es s) = None.
Proof.
  revert s. induction es as [|e es IH]; intros s Hs; cbn [foldl]; [done|].
  apply IH. by apply remove_one_zset_err.
Qed.

(** Taking ranges out keeps the remaining ones in order. *)
Lemma removed_ordered es (s : db) :
  ranges_ordered s → ranges_ordered (removed es s).
Proof.
  intros (H1 & H2 & H3 & H4 & H5).
  assert (∀ e, is_Some (range_endpoints (removed es s) !! e) →
               (e ∉ es) ∧ is_Some (range_endpoints s !! e)) as Hin.
  { intros e. rewrite removed_endpoints. case_decide; [intros [? ?]; done|done]. }
  assert (∀ e f, e ∉ es →
            HGet (PREFIX +:+ e) f (removed es s) = HGet (PREFIX +:+ e) f s) as Hget.
  { intros e f He. unfold HGet. rewrite removed_record. by rewrite decide_False. }
  split; [by apply removed_zset_err|]. split.
  { intros e. unfold hash_err. rewrite removed_record. case_decide; [done|].
    apply H2. }
  split.
  { intros e sc. rewrite removed_endpoints. case_decide; [done|]. apply H3. }
  split.
  - intros e He. apply Hin in He as [Hnin He]. rewrite Hget by done. by apply H4.
  - intros e1 e2 st1 st2 He1 He2. apply Hin in He1 as [Hn1 He1].
    apply Hin in He2 as [Hn2 He2]. rewrite !Hget by done. by apply H5.
Qed.


Section Lookup.
Context {IP IPNet : Type}.
Variable IsSubnet : string → option IPNet.
Variable IPNet2MinMax : IPNet → IP * IP.
Variable ZeroIPString : IP → string.
Variable ParseIP : string → option IP.

(** The lookup tests the least endpoint that is not below the query's. *)
Lemma lookup_tests_least_endpoint (addr : string) (s : db) (max min : string) :
  query_endpoints IsSubnet IPNet2MinMax ZeroIPString ParseIP addr = Some (max, min) →
  (∀ e sc, range_endpoints s !! e = Some sc → sc = 0) →
  (CheckIPBanned IsSubnet IPNet2MinMax ZeroIPString ParseIP addr s).1 = true
  ↔ Exists (IP_BAN_PREFIX +:+ addr) s = true
    ∨ ∃ e start_e,
        least_endpoint_from s max e
        ∧ HGet (PREFIX +:+ e) "start" s = (start_e, None)
        ∧ String.le start_e min.
Proof.
  intros Hq Hu. unfold CheckIPBanned.
  destruct (Exists (IP_BAN_PREFIX +:+ addr) s) eqn:Hkey; [by split; auto|].
  rewrite Hq. pose proof (first_endpoint s max Hu) as Hfirst.
  destruct (ZRangeByLexFrom KR max 1 s) as [res err].
  assert (Hnone : (∀ e, is_Some (range_endpoints s !! e) → ¬ String.le max e) →
                  false = true ↔
                  false = true ∨ ∃ e start_e, least_endpoint_from s max e
                    ∧ HGet (PREFIX +:+ e) "start" s = (start_e, None)
                    ∧ String.le start_e min).
  { intros Hno. split; [done|]. intros [?|(e & ? & (Hin & Hle & _) & _)]; [done|].
    by destruct (Hno e Hin). }
  destruct err as [err|]; [by apply Hnone|].
  destruct res as [|e res]; [by apply Hnone|].
  destruct (HGet (PREFIX +:+ e) "start" s) as [range_min err'] eqn:Hget.
  destruct err' as [err'|]; simpl.
  - split; [done|]. intros [?|(e' & start_e & He' & Hget' & _)]; [done|].
    rewrite (least_endpoint_unique s max e' e He' Hfirst) in Hget'.
    congruence.
  - rewrite bool_decide_eq_true. split.
    + intros Hle. right. by exists e, range_min.
    + intros [?|(e' & start_e & He' & Hget' & Hle)]; [done|].
      rewrite (least_endpoint_unique s max e' e He' Hfirst) in Hget'.
      congruence.
Qed.

(** Among ranges in order, a range that covers the query makes the least
    endpoint's range cover it. *)
Lemma covering_range_is_found (s : db) (max min : string) :
  ranges_ordered s →
  (∃ e st, is_Some (range_endpoints s !! e) ∧ String.le max e
           ∧ HGet (PREFIX +:+ e) "start" s = (st, None)
           ∧ String.le st min)
  ↔ (∃ e st, least_endpoint_from s max e
             ∧ HGet (PREFIX +:+ e) "start" s = (st, None)
             ∧ String.le st min).
Proof.
  intros (H1 & H2 & Hu & Hstart & Hmono). split.
  - intros (e & st & Hin & Hle & Hget & Hst).
    pose proof (first_endpoint s max Hu) as Hfirst.
    destruct (ZRangeByLexFrom KR max 1 s) as [res err].
    assert (∃ f, least_endpoint_from s max f) as [f Hf].
    { destruct err as [err|]; [by destruct (Hfirst e Hin)|].
      destruct res as [|f res]; [by destruct (Hfirst e Hin)|]. by exists f. }
    destruct Hf as (Hfin & Hfle & Hfleast).
    destruct (Hstart f Hfin) as (stf & Hgetf & _).
    exists f, stf. split; [done|]. split; [done|].
    etransitivity; [|exact Hst].
    apply (Hmono f e stf st Hfin Hin (Hfleast e Hin Hle) Hgetf Hget).
  - intros (e & st & (Hin & Hle & _) & Hget & Hst). by exists e, st.
Qed.

Lemma lookup_sees_every_range (addr : string) (s : db) (max min : string) :
  ranges_ordered s →
  query_endpoints IsSubnet IPNet2MinMax ZeroIPString ParseIP addr = Some (max, min) →
  (CheckIPBanned IsSubnet IPNet2MinMax ZeroIPString ParseIP addr s).1 = true
  ↔ Exists (IP_BAN_PREFIX +:+ addr) s = true
    ∨ ∃ e start_e,
        is_Some (range_endpoints s !! e) ∧ String.le max e
        ∧ HGet (PREFIX +:+ e) "start" s = (start_e, None)
        ∧ String.le start_e min.
Proof.
  intros Hord Hq. rewrite (covering_range_is_found s max min Hord).
  apply lookup_tests_least_endpoint; [done|]. apply Hord.
Qed.


(** [IPNet2MinMax] answers the smallest and the largest address of a
    subnet, and [ZeroIPString] writes addresses zero-padded, so that the
    order of the strings is the order of the addresses. *)
Hypothesis min_below_max : ∀ ipnet min max,
  IPNet2MinMax ipnet = (min, max) →
  String.le (ZeroIPString min) (ZeroIPString max).

Lemma between_members (a b : string) (s : db) (e : string) :
  e ∈ (ZRangeByLexBetween KR a b s).1
  ↔ is_Some (range_endpoints s !! e)
    ∧ (String.le a e ∧ a ≠ e) ∧ String.le e b.
Proof.
  unfold ZRangeByLexBetween, zmembers, range_endpoints.
  destruct (s !! KR) as [[x|h|ms|z]|]; cbn [fst];
    try (rewrite filter_nil, elem_of_nil, lookup_empty;
         split; [done|intros [[? ?] _]; done]).
  rewrite list_elem_of_filter, RegisterFacts.zsorted_members. tauto.
Qed.

Lemma le_or_above (a e : string) : String.le e a ∨ (String.le a e ∧ a ≠ e).
Proof.
  destruct (decide (a = e)) as [->|Hne]; [by left|].
  destruct (total String.le e a); [by left|by right].
Qed.

Lemma banned_range_state (now : Z) (a b : string) (s1 : db) :
  zset_err KR s1 = None →
  hash_err (PREFIX +:+ b) s1 = None →
  let s3 := HMSet (PREFIX +:+ b) [("start", a); ("end", b); ("made", Itoa now)]
              (ZAdd KR 0 b s1) in
  range_endpoints s3 = <[b := 0]> (range_endpoints s1)
  ∧ zset_err KR s3 = None
  ∧ (∀ e, e ≠ b → s3 !! (PREFIX +:+ e) = s1 !! (PREFIX +:+ e))
  ∧ hash_err (PREFIX +:+ b) s3 = None
  ∧ HGet (PREFIX +:+ b) "start" s3 = (a, None).
Proof.
  intros Hz Hh s3. subst s3.
  unfold range_endpoints, zset_err, hash_err, HGet, HMSet, ZAdd, ZAddF in *.
  rewrite !(lookup_partial_alter_ne _ _ (PREFIX +:+ b) KR) by key_neq.
  rewrite !lookup_partial_alter_eq.
  rewrite !(lookup_partial_alter_ne _ _ KR (PREFIX +:+ b)) by key_neq.
  split; [|split; [|split; [|split]]].
  - destruct (s1 !! KR) as [[x|h|ms|z]|]; try done; cbn [ZAdd_slot];
      unfold zadd_to, keep_zset; rewrite lookup_empty;
      rewrite decide_False by apply insert_non_empty; done.
  - destruct (s1 !! KR) as [[x|h|ms|z]|]; try done; cbn [ZAdd_slot];
      unfold zadd_to, keep_zset; rewrite lookup_empty;
      rewrite decide_False by apply insert_non_empty; done.
  - intros e He. rewrite lookup_partial_alter_ne by (apply record_key_neq; congruence).
    by rewrite lookup_partial_alter_ne by key_neq.
  - by destruct (s1 !! (PREFIX +:+ b)) as [[x|h|ms|z]|].
  - destruct (s1 !! (PREFIX +:+ b)) as [[x|h|ms|z]|]; try done;
      cbn [HMSet_slot hset_all foldl fst snd];
      (rewrite lookup_insert_ne by done); (rewrite lookup_insert_ne by done);
      by rewrite lookup_insert_eq.
Qed.


(** Banning keeps the ranges in order: a new range is only stored when the
    lookup does not find it covered, and the ranges it contains are cleared
    first. *)
Lemma BanAddr_ordered (now : Z) (addr : string) (s : db) :
  ranges_ordered s →
  ranges_ordered (BanAddr IsSubnet IPNet2MinMax ZeroIPString ParseIP now addr s).1.
Proof.
  intros Hord. unfold BanAddr.
  destruct (IsSubnet addr) as [ipnet|] eqn:Hnet; cbn [fst].
  2:{ apply (ranges_ordered_frame s); [|done].
      intros k [->|[e ->]]; unfold HMSet; by rewrite lookup_partial_alter_ne by key_neq. }
  destruct (CheckIPBanned IsSubnet IPNet2MinMax ZeroIPString ParseIP addr s)
    as [isBanned err] eqn:Hchk.
  destruct isBanned; [done|]. destruct err as [err|]; [done|].
  destruct (IPNet2MinMax ipnet) as [min max] eqn:Hmm. cbv zeta.
  pose proof (min_below_max ipnet min max Hmm) as Hab.
  set (a := ZeroIPString min) in *. set (b := ZeroIPString max) in *.
  assert (query_endpoints IsSubnet IPNet2MinMax ZeroIPString ParseIP addr
          = Some (b, a)) as Hq.
  { unfold query_endpoints. by rewrite Hnet, Hmm. }
  assert (∀ e st, is_Some (range_endpoints s !! e) → String.le b e →
                  HGet (PREFIX +:+ e) "start" s = (st, None) →
                  ¬ String.le st a) as Hfree.
  { intros e st He Hbe Hget Hst.
    assert ((CheckIPBanned IsSubnet IPNet2MinMax ZeroIPString ParseIP addr s).1
            = true) as Hyes.
    { apply (lookup_sees_every_range addr s b a Hord Hq). right. by exists e, st. }
    by rewrite Hchk in Hyes. }
  unfold clearIPRange.
  set (es := (ZRangeByLexBetween KR a b s).1).
  pose proof (removed_ordered es s Hord) as Hord1.
  set (s1 := foldl _ s es) in *.
  assert (∀ e, is_Some (range_endpoints s1 !! e) →
               (e ∉ es) ∧ is_Some (range_endpoints s !! e)) as Hin1.
  { intros e. unfold s1. rewrite removed_endpoints.
    case_decide; [intros [? ?]; done|done]. }
  assert (∀ e f, e ∉ es →
            HGet (PREFIX +:+ e) f s1 = HGet (PREFIX +:+ e) f s) as Hget1.
  { intros e f He. unfold HGet, s1. rewrite removed_record. by rewrite decide_False. }
  destruct Hord as (_ & _ & _ & Hstart & _).
  destruct Hord1 as (Hz1 & Hh1 & Hu1 & Hstart1 & Hmono1).
  rewrite Hz1. cbn [fst].
  destruct (banned_range_state now a b s1 Hz1 (Hh1 b))
    as (Hep & Hz3 & Hrec & Hhb & Hgb).
  match goal with |- ranges_ordered ?t => set (s3 := t) in * end.
  assert (∀ e f, e ≠ b →
            HGet (PREFIX +:+ e) f s3 = HGet (PREFIX +:+ e) f s1) as Hget3.
  { intros e f He. unfold HGet. by rewrite Hrec. }
  split; [done|]. split.
  { intros e. destruct (decide (e = b)) as [->|He]; [done|].
    unfold hash_err. rewrite Hrec by done. apply Hh1. }
  split.
  { intros e sc. rewrite Hep. destruct (decide (e = b)) as [->|He].
    - rewrite lookup_insert_eq. congruence.
    - rewrite lookup_insert_ne by congruence. apply Hu1. }
  split.
  - intros e. rewrite Hep. destruct (decide (e = b)) as [->|He].
    + intros _. by exists a.
    + rewrite lookup_insert_ne by congruence. rewrite Hget3 by done.
      apply Hstart1.
  - intros e1 e2 st1 st2. rewrite !Hep.
    destruct (decide (e1 = b)) as [->|He1], (decide (e2 = b)) as [->|He2].
    + rewrite Hgb. by intros _ _ _ [= <-] [= <-].
    + rewrite (lookup_insert_ne _ b e2) by congruence. intros _ He2in Hle.
      rewrite Hgb, Hget3 by done. intros [= <-] Hg2.
      apply Hin1 in He2in as [Hn2 He2in]. rewrite Hget1 in Hg2 by done.
      destruct (total String.le a st2) as [?|Hst]; [done|].
      by destruct (Hfree e2 st2 He2in Hle Hg2).
    + rewrite (lookup_insert_ne _ b e1) by congruence. intros He1in _ Hle.
      rewrite Hgb, Hget3 by done. intros Hg1 [= <-].
      destruct (Hstart1 e1 He1in) as (st & Hg & Hst).
      assert (st = st1) as -> by congruence.
      apply Hin1 in He1in as [Hn1 He1in].
      destruct (le_or_above a e1) as [?|Habove]; [by etransitivity|].
      destruct Hn1. apply between_members. done.
    + rewrite !lookup_insert_ne by congruence. rewrite !Hget3 by done.
      apply Hmono1.
Qed.

(** Lifting a ban takes out at most one range. *)
Lemma UnbanAddr_ordered (addr : string) (s : db) :
  ranges_ordered s →
  ranges_ordered (UnbanAddr IsSubnet IPNet2MinMax ZeroIPString addr s).1.
Proof.
  intros Hord. unfold UnbanAddr.
  assert (∀ t, ranges_ordered t → ranges_ordered (Del [IP_BAN_PREFIX +:+ addr] t))
    as Hdel.
  { intros t Ht. apply (ranges_ordered_frame t); [|done].
    intros k [->|[e ->]]; unfold Del; cbn [foldl];
      by rewrite lookup_partial_alter_ne by key_neq. }
  apply Hdel in Hord. set (s0 := Del [IP_BAN_PREFIX +:+ addr] s) in *.
  destruct (IsSubnet addr) as [ipnet|]; [|by apply Hdel].
  destruct (IPNet2MinMax ipnet) as [min max].
  destruct (ZRangeByLexFrom KR (ZeroIPString max) 1 s0) as [res err].
  destruct err as [err|]; [done|]. destruct res as [|range_max res]; [done|].
  destruct (HGet (PREFIX +:+ range_max) "start" s0) as [range_min err].
  destruct err as [err|]; [done|]. case_bool_decide; [|done].
  cbn [fst]. apply (removed_ordered [range_max] s0 Hord).
Qed.

Lemma empty_ordered : ranges_ordered ∅.
Proof.
  unfold ranges_ordered, zset_err, hash_err, range_endpoints.
  rewrite lookup_empty. split; [done|]. split; [by intros e; rewrite lookup_empty|].
  split; [by intros e sc; rewrite lookup_empty|].
  split; [intros e [? H]; by rewrite lookup_empty in H|].
  intros e1 e2 st1 st2 [? H]. by rewrite lookup_empty in H.
Qed.

(** Every state the ban operations reach has its ranges in order. *)
Lemma reachable_ordered (s : db) :
  ban_reachable IsSubnet IPNet2MinMax ZeroIPString ParseIP s → ranges_ordered s.
Proof.
  induction 1 as [|now addr s _ IH|addr s _ IH|s s' _ IH Hsame].
  - apply empty_ordered.
  - by apply BanAddr_ordered.
  - by apply UnbanAddr_ordered.
  - by apply (ranges_ordered_frame s).
Qed.

End Lookup.

End BanStates.

(** C6. On every state of the index that the ban operations reach, a query
    with endpoints [(min, max)] is reported banned iff the individual-ip ban
    key of the queried string exists, or some endpoint of [ip_range_ban] is at
    or above [max] and its stored [start] is at or below [min]. The one
    assumption on the code outside the sources at hand is that the smallest
    address [IPNet2MinMax] answers is not above the largest, in the order of
    the strings [ZeroIPString] writes. *)
Theorem ban_lookup_finds_covering_range {IP IPNet : Type}
    (IsSubnet : string → option IPNet) (IPNet2MinMax : IPNet → IP * IP)
    (ZeroIPString : IP → string) (ParseIP : string → option IP)
    (addr : string) (s : db) (max min : string) :
  (∀ ipnet lo hi, IPNet2MinMax ipnet = (lo, hi) →
                  String.le (ZeroIPString lo) (ZeroIPString hi)) →
  ban_reachable IsSubnet IPNet2MinMax ZeroIPString ParseIP s →
  query_endpoints IsSubnet IPNet2MinMax ZeroIPString ParseIP addr = Some (max, min) →
  (CheckIPBanned IsSubnet IPNet2MinMax ZeroIPString ParseIP addr s).1 = true
  ↔ Exists (IP_BAN_PREFIX +:+ addr) s = true
    ∨ ∃ e start_e,
        is_Some (range_endpoints s !! e) ∧ String.le max e
        ∧ HGet (IP_RANGE_BAN_PREFIX +:+ e) "start" s = (start_e, None)
        ∧ String.le start_e min.
Proof.
  intros Hmm Hreach Hq.
  apply BanStates.lookup_sees_every_range; [|done].
  by apply (BanStates.reachable_ordered IsSubnet IPNet2MinMax ZeroIPString ParseIP).
Qed.

Lemma ban_lookup_finds_covering_range_witness :
  (CheckIPBanned Scenarios.one_subnet Scenarios.subnet_minmax Scenarios.padded
                 Scenarios.parse_padded "010.000.000.005" Scenarios.one_ban).1 = true
  ↔ Exists (IP_BAN_PREFIX +:+ "010.000.000.005") Scenarios.one_ban = true
    ∨ ∃ e start_e,
        is_Some (range_endpoints Scenarios.one_ban !! e)
        ∧ String.le "010.000.000.005" e
        ∧ HGet (IP_RANGE_BAN_PREFIX +:+ e) "start" Scenarios.one_ban = (start_e, None)
        ∧ String.le start_e "010.000.000.005".
Proof.
  apply (ban_lookup_finds_covering_range
           Scenarios.one_subnet Scenarios.subnet_minmax Scenarios.padded
           Scenarios.parse_padded "010.000.000.005" Scenarios.one_ban).
  - intros ipnet lo hi [= <- <-]. vm_compute. exact I.
  - apply reach_BanAddr, reach_empty.
  - reflexivity.
Defined.

(** In that state the address 10.0.0.5 is reported banned, and 10.0.1.5,
    above the range, is not. *)
Lemma subnet_ban_covers_its_addresses :
  CheckIPBanned Scenarios.one_subnet Scenarios.subnet_minmax Scenarios.padded
                Scenarios.parse_padded "010.000.000.005" Scenarios.one_ban
  = (true, None)
  ∧ CheckIPBanned Scenarios.one_subnet Scenarios.subnet_minmax Scenarios.padded
                  Scenarios.parse_padded "010.000.001.005" Scenarios.one_ban
    = (false, None).
Proof. split; vm_compute; reflexivity. Qed.

(** ** The message-id gate of the article store *)

(** C7. For a string that does not have the message-id syntax (it begins with
    [<], ends with [>], contains [@] and is no longer than the limit),
    [GetFilename] returns the empty path; it logs one line and makes no call
    on the file system. *)
Theorem filename_rejects_invalid_message_id
    (max_len : nat) (Join : string → string → string)
    (self : Store.articleStore) (messageID : string) :
  ¬ (Store.begins_with "<" messageID = true
     ∧ Store.ends_with ">" messageID = true
     ∧ Store.contains "@" messageID = true
     ∧ (String.length messageID ≤ max_len)%nat) →
  (Store.GetFilename max_len Join self messageID).1 = EmptyString
  ∧ Forall (λ e, Store.is_fs_access e = false)
           (Store.GetFilename max_len Join self messageID).2.
Proof.
  intros Hbad. unfold Store.GetFilename.
  assert (Store.ValidMessageID max_len messageID = false) as ->.
  { apply not_true_is_false. intros Hv. apply Hbad.
    unfold Store.ValidMessageID in Hv.
    apply andb_prop in Hv as [Hv Hlen]. apply andb_prop in Hv as [Hv Hat].
    apply andb_prop in Hv as [Hlt Hgt].
    repeat split; try done. by apply Nat.leb_le. }
  simpl. split; [done|]. by repeat constructor.
Qed.

Lemma filename_rejects_invalid_message_id_witness :
  (Store.GetFilename 250 (λ dir name, dir +:+ "/" +:+ name)
     {| Store.directory := "articles"; Store.temp := "incoming";
        Store.attachments := "attachments"; Store.thumbs := "thumbs";
        Store.compression := false |} "abc@x").1 = EmptyString
  ∧ Forall (λ e, Store.is_fs_access e = false)
      (Store.GetFilename 250 (λ dir name, dir +:+ "/" +:+ name)
         {| Store.directory := "articles"; Store.temp := "incoming";
            Store.attachments := "attachments"; Store.thumbs := "thumbs";
            Store.compression := false |} "abc@x").2.
Proof.
  apply filename_rejects_invalid_message_id.
  intros (Hlt & _). vm_compute in Hlt. discriminate.
Defined.

(** [GetFilename] makes no call on the file system for a valid message-id
    either: the path is computed, not looked up. *)
Lemma filename_never_touches_files
    (max_len : nat) (Join : string → string → string)
    (self : Store.articleStore) (messageID : string) :
  Forall (λ e, Store.is_fs_access e = false)
         (Store.GetFilename max_len Join self messageID).2.
Proof.
  unfold Store.GetFilename.
  destruct (Store.ValidMessageID max_len messageID); simpl; by repeat constructor.
Qed.

(** ** Signed envelopes *)

Module ParserFacts.



End ParserFacts.




(** X21. The other way a message of type [message/rfc822] is turned down,
    before its signature is looked at: with a missing key or a missing
    signature parsing returns the invalid-headers error. *)
Lemma envelope_without_key_or_signature
    (ParseMediaType : string → string * gmap string string * option error)
    (sha512_Sum unhex : string → string)
    (CryptoVerifyFucky : string → string → string → bool)
    (readMIMEHeader : string → Store.MIMEHeader * string * option error)
    (Part : Type) (NextParts : string → Store.reader → list (Part * option error))
    (part_ContentType : Part → string) (Att : Type)
    (readAttachmentFromMimePartAndStore : Part → bool → option Att)
    (createPlaintextAttachment : string → Att)
    (ContentType Pubkey : Store.MIMEHeader → string)
    (headers_Get : Store.MIMEHeader → string → string → string)
    (fuel : nat) (hdr : Store.MIMEHeader) (body : Store.reader)
    (params : gmap string string) :
  ParseMediaType (ContentType hdr) = ("message/rfc822", params, None) →
  params !! "boundary" = None →
  Pubkey hdr = EmptyString
  ∨ headers_Get hdr "X-Signature-Ed25519-Sha512" EmptyString = EmptyString →
  Store.read_message_body ParseMediaType sha512_Sum unhex CryptoVerifyFucky
    readMIMEHeader Part NextParts part_ContentType Att
    readAttachmentFromMimePartAndStore createPlaintextAttachment
    ContentType Pubkey headers_Get (S fuel) body hdr true
  = Done (None, Some (errors_New "invalid headers")).
Proof.
  intros Hmt Hb Hmiss. simpl. rewrite Hmt, Hb.
  rewrite decide_True by done. by rewrite decide_True.
Qed.

(** ** Header-based signatures *)

(** C10. With an empty signature, key or signed region [Verify] returns true,
    whatever the hash function and the signature check are: neither is
    consulted. *)
Theorem unsigned_message_verifies
    (sha512_Sum512 : string → string) (CryptoVerify : string → string → bool)
    (self : MessageGo.NNTPMessage) :
  MessageGo.Signature self = EmptyString
  ∨ MessageGo.Key self = EmptyString
  ∨ MessageGo.Signed self = EmptyString →
  MessageGo.Verify sha512_Sum512 CryptoVerify self = Done true.
Proof.
  unfold MessageGo.Verify. intros [H|[H|H]]; rewrite H; simpl.
  - done.
  - by rewrite andb_false_r.
  - by rewrite andb_false_r.
Qed.

Lemma unsigned_message_verifies_witness :
  MessageGo.Verify (λ _, EmptyString) (λ _ _, false)
    {| MessageGo.MessageID := "<abc@x>"; MessageGo.Key := EmptyString;
       MessageGo.Signature := "00ff"; MessageGo.Signed := "ban <def@x>" |}
  = Done true.
Proof.
  apply unsigned_message_verifies. right. left. reflexivity.
Defined.

(** C8 (as amended). For an article with a non-empty key, signature and
    signed region, [Verify] hashes with SHA-512 the signed region in which
    every [\n] (also one that follows a [\r]) is replaced by [\r\n] and from
    which the last two bytes are then dropped; when signature and key are
    hexadecimal it answers with the [crypto_sign_open] check of the signature
    bytes followed by the hash against the key, and when either is not it
    answers false without that check. (The replaced region has at least two
    bytes unless the signed region is a single byte other than [\n].) *)
Theorem header_signature_check
    (sha512_Sum512 : string → string) (CryptoVerify : string → string → bool)
    (self : MessageGo.NNTPMessage) :
  MessageGo.Signature self ≠ EmptyString →
  MessageGo.Key self ≠ EmptyString →
  MessageGo.Signed self ≠ EmptyString →
  (2 ≤ String.length (MessageGo.Replace_LF_CRLF (MessageGo.Signed self)))%nat →
  let replaced := MessageGo.Replace_LF_CRLF (MessageGo.Signed self) in
  let buff := String.substring 0 (String.length replaced - 2) replaced in
  MessageGo.Verify sha512_Sum512 CryptoVerify self
  = Done match hex.DecodeString (MessageGo.Signature self),
               hex.DecodeString (MessageGo.Key self) with
         | Some sig_bytes, Some pk_bytes =>
             CryptoVerify (sig_bytes +:+ sha512_Sum512 buff) pk_bytes
         | _, _ => false
         end.
Proof.
  intros Hsig Hkey Hsigned Hlen. simpl. unfold MessageGo.Verify.
  assert (∀ x, x ≠ EmptyString → (0 <? String.length x)%nat = true) as Hpos.
  { intros [|c x] Hx; [done|]. reflexivity. }
  rewrite !Hpos by done. simpl.
  unfold MessageGo.signed_buffer, MessageGo.trim2.
  destruct (Nat.ltb_spec (String.length (MessageGo.Replace_LF_CRLF (MessageGo.Signed self))) 2);
    [lia|].
  destruct (hex.DecodeString (MessageGo.Signature self)); [|done].
  destruct (hex.DecodeString (MessageGo.Key self)); [|done].
  by destruct (CryptoVerify _ _).
Qed.

Lemma header_signature_check_witness :
  MessageGo.Verify (λ buff, "sha512:" +:+ buff)
    (λ smsg pk, String.eqb smsg (String (ascii_of_N 0) (String (ascii_of_N 255) "sha512:ban <def@x>")))
    {| MessageGo.MessageID := "<abc@x>"; MessageGo.Key := "aa";
       MessageGo.Signature := "00ff";
       MessageGo.Signed := "ban <def@x>" +:+ String "010" EmptyString |}
  = Done true.
Proof.
  refine (eq_trans
            (header_signature_check (λ buff, "sha512:" +:+ buff)
               (λ smsg pk, String.eqb smsg
                  (String (ascii_of_N 0) (String (ascii_of_N 255) "sha512:ban <def@x>")))
               {| MessageGo.MessageID := "<abc@x>"; MessageGo.Key := "aa";
                  MessageGo.Signature := "00ff";
                  MessageGo.Signed := "ban <def@x>" +:+ String "010" EmptyString |}
               _ _ _ _) _).
  - discriminate.
  - discriminate.
  - discriminate.
  - vm_compute. lia.
  - vm_compute. reflexivity.
Defined.

(** C8 as stated fails: in the signed region [a\r\nb\n] the first [\n]
    follows a [\r] and is not a lone one; the code replaces it as well, so the
    bytes it hashes, [a\r\r\nb], are not the bytes [a\r\nb] that replacing the
    lone [\n] alone gives. *)
Lemma crlf_line_is_replaced_too :
  MessageGo.signed_buffer
    ("a" +:+ String "013" (String "010" ("b" +:+ String "010" EmptyString)))
  = Done ("a" +:+ String "013" (String "013" (String "010" "b")))
  ∧ MessageGo.spec_signed_buffer
      ("a" +:+ String "013" (String "010" ("b" +:+ String "010" EmptyString)))
    = Done ("a" +:+ String "013" (String "010" "b"))
  ∧ "a" +:+ String "013" (String "013" (String "010" "b"))
    ≠ "a" +:+ String "013" (String "010" "b").
Proof. repeat split; try (vm_compute; reflexivity). vm_compute. discriminate. Qed.

(** On a signed region without [\r] every [\n] is a lone one, and the two
    readings agree. *)
Lemma replace_lone_agrees_without_cr (signed : string) :
  Store.contains "013" signed = false →
  MessageGo.replace_lone_LF false signed = MessageGo.Replace_LF_CRLF signed.
Proof.
  induction signed as [|c rest IH]; [done|].
  intros Hc. change (Ascii.eqb c "013" || Store.contains "013" rest = false) in Hc.
  apply orb_false_elim in Hc as [Hc Hrest].
  change (MessageGo.replace_lone_LF false (String c rest))
    with (if Ascii.eqb c "010"%char && negb false
          then String "013"%char (String "010"%char (MessageGo.replace_lone_LF false rest))
          else String c (MessageGo.replace_lone_LF (Ascii.eqb c "013"%char) rest)).
  change (MessageGo.Replace_LF_CRLF (String c rest))
    with (if Ascii.eqb c "010"%char
          then String "013"%char (String "010"%char (MessageGo.Replace_LF_CRLF rest))
          else String c (MessageGo.Replace_LF_CRLF rest)).
  rewrite Hc, andb_true_r, (IH Hrest). done.
Qed.

(** A signed region of one byte other than [\n] makes the slice bound
    negative: [Verify] panics. *)
Lemma verify_one_byte_region
    (sha512_Sum512 : string → string) (CryptoVerify : string → string → bool) :
  MessageGo.Verify sha512_Sum512 CryptoVerify
    {| MessageGo.MessageID := "<abc@x>"; MessageGo.Key := "aa";
       MessageGo.Signature := "00ff"; MessageGo.Signed := "x" |}
  = Panics.
Proof. reflexivity. Qed.

(** The one signed region on which the trimming has fewer than two bytes to
    drop is a single byte other than [\n]. *)
Lemma short_replaced_region (signed : string) :
  signed ≠ EmptyString →
  (String.length (MessageGo.Replace_LF_CRLF signed) < 2)%nat
  ↔ ∃ c, signed = String c EmptyString ∧ c ≠ "010"%char.
Proof.
  intros Hne. destruct signed as [|c rest]; [done|].
  cbn [MessageGo.Replace_LF_CRLF].
  destruct (Ascii.eqb_spec c "010"%char) as [->|Hc].
  - cbn [String.length]. split; [lia|]. intros (c' & [= <- _] & Hc'). done.
  - destruct rest as [|d rest].
    + cbn. split; [|lia]. intros _. by exists c.
    + cbn [MessageGo.Replace_LF_CRLF]. split.
      * destruct (Ascii.eqb d "010"%char); cbn [String.length]; lia.
      * intros (c' & [=] & _).
Qed.

(** X19. On a signed region of a single byte other than [\n], with key and
    signature present, [Verify] does not answer: the bound of the slice that
    drops the last two bytes is negative and the call panics. *)
Lemma verify_short_region_panics
    (sha512_Sum512 : string → string) (CryptoVerify : string → string → bool)
    (self : MessageGo.NNTPMessage) (c : ascii) :
  MessageGo.Signature self ≠ EmptyString →
  MessageGo.Key self ≠ EmptyString →
  MessageGo.Signed self = String c EmptyString →
  c ≠ "010"%char →
  MessageGo.Verify sha512_Sum512 CryptoVerify self = Panics.
Proof.
  intros Hsig Hkey Hsigned Hc. unfold MessageGo.Verify.
  assert (∀ x, x ≠ EmptyString → (0 <? String.length x)%nat = true) as Hpos.
  { intros [|a x] Hx; [done|]. reflexivity. }
  rewrite !Hpos by (done || by rewrite Hsigned). cbn [andb].
  rewrite Hsigned. unfold MessageGo.signed_buffer. cbn [MessageGo.Replace_LF_CRLF].
  destruct (Ascii.eqb_spec c "010"%char); [done|]. reflexivity.
Qed.

(** ** Deletion, key by key *)

Module DeleteFacts.

Lemma lookup_Del_ne ks (s : db) k : k ∉ ks → Del ks s !! k = s !! k.
Proof.
  unfold Del. revert s. induction ks as [|k' ks IH]; intros s Hk; simpl; [done|].
  apply not_elem_of_cons in Hk as [Hne Hk].
  rewrite IH by done. by rewrite lookup_partial_alter_ne.
Qed.

Lemma lookup_Del_eq ks (s : db) k : k ∈ ks → Del ks s !! k = None.
Proof.
  unfold Del. revert s. induction ks as [|k' ks IH]; intros s Hk; simpl.
  - by apply not_elem_of_nil in Hk.
  - destruct (decide (k ∈ ks)) as [Hin|Hnin]; [by apply IH|].
    apply elem_of_cons in Hk as [->|Hk]; [|done].
    pose proof (lookup_Del_ne ks (partial_alter (λ _, None) k' s) k' Hnin) as Hd.
    unfold Del in Hd. rewrite Hd. by rewrite lookup_partial_alter_eq.
Qed.

Lemma lookup_ZRem_ne k m (s : db) k' : k ≠ k' → ZRem k m s !! k' = s !! k'.
Proof. intros. unfold ZRem. by rewrite lookup_partial_alter_ne. Qed.

Lemma lookup_SRem_ne k m (s : db) k' : k ≠ k' → SRem k m s !! k' = s !! k'.
Proof. intros. unfold SRem. by rewrite lookup_partial_alter_ne. Qed.

Lemma lookup_SRem_eq k m (s : db) : SRem k m s !! k = SRem_slot m (s !! k).
Proof. unfold SRem. by rewrite lookup_partial_alter_eq. Qed.

(** The first part leaves the keys of the header index and of the
    attachments alone, and removes the article record. *)
Lemma delete_records_lookup msgid p (s : db) k :
  (∀ x, THREAD_POST_WKR +:+ x ≠ k) →
  (∀ x, HASH_MESSAGEID_PREFIX +:+ x ≠ k) →
  (∀ x, ARTICLE_PREFIX +:+ x ≠ k) →
  (∀ x, ARTICLE_POST_PREFIX +:+ x ≠ k) →
  (∀ x, ARTICLE_KEY_PREFIX +:+ x ≠ k) →
  (∀ x, GROUP_ARTICLE_POSTTIME_WKR_PREFIX +:+ x ≠ k) →
  ARTICLE_WKR ≠ k →
  delete_records msgid p s !! k = s !! k.
Proof.
  intros H1 H2 H3 H4 H5 H6 H7. unfold delete_records.
  rewrite !lookup_ZRem_ne by done.
  rewrite lookup_Del_ne by (rewrite !not_elem_of_cons; repeat split;
                            auto using not_elem_of_nil).
  set (s1 := if negb (op p) then _ else s).
  assert (s1 !! k = s !! k) as Hs1.
  { unfold s1. destruct (negb (op p)); [|done]. by rewrite lookup_ZRem_ne. }
  match goal with |- context [decide ?P] => destruct (decide P) end; [|done].
  rewrite lookup_Del_ne; [done|].
  rewrite !not_elem_of_cons. split; [auto | apply not_elem_of_nil].
Qed.

Lemma delete_records_article msgid p (s : db) :
  delete_records msgid p s !! (ARTICLE_PREFIX +:+ msgid) = None.
Proof.
  unfold delete_records.
  rewrite !lookup_ZRem_ne by key_neq.
  apply lookup_Del_eq. rewrite !elem_of_cons. by left.
Qed.

Lemma fold_SRem_lookup msgid hs (s : db) k :
  (∀ x, HEADER_KR_PREFIX +:+ x ≠ k) →
  foldl (λ acc h, SRem (HEADER_KR_PREFIX +:+ h) msgid acc) s hs !! k = s !! k.
Proof.
  intros Hk. revert s. induction hs as [|h hs IH]; intros s; simpl; [done|].
  rewrite IH. by apply lookup_SRem_ne.
Qed.

Lemma delete_header_links_lookup msgid (s : db) k :
  (∀ x, HEADER_KR_PREFIX +:+ x ≠ k) →
  (∀ x, MESSAGEID_HEADER_KR_PREFIX +:+ x ≠ k) →
  delete_header_links msgid s !! k = s !! k.
Proof.
  intros H1 H2. unfold delete_header_links.
  rewrite lookup_Del_ne.
  - by apply fold_SRem_lookup.
  - rewrite !not_elem_of_cons. split; [auto | apply not_elem_of_nil].
Qed.

Lemma SRem_slot_idemp m o : SRem_slot m (SRem_slot m o) = SRem_slot m o.
Proof.
  destruct o as [[v|h|ms|z]|]; try done.
  cbn [SRem_slot]. unfold keep_set.
  destruct (decide (ms ∖ {[m]} = ∅)) as [|Hne]; [done|].
  cbn [SRem_slot]. unfold keep_set.
  assert (ms ∖ {[m]} ∖ {[m]} = ms ∖ {[m]}) as ->
    by (apply set_eq; intros x; rewrite !elem_of_difference; tauto).
  by rewrite decide_False.
Qed.

(** One round of the attachment loop, at the keys of an attachment [a]. *)
Lemma delete_attachment_link_lookup msgid (s : db) a' a :
  let link := s !! (ATTACHMENT_ARTICLE_KR_PREFIX +:+ a) in
  let record := s !! (ATTACHMENT_PREFIX +:+ a) in
  let s' := delete_attachment_link msgid s a' in
  s' !! (ATTACHMENT_ARTICLE_KR_PREFIX +:+ a)
    = (if decide (a' = a) then SRem_slot msgid link else link)
  ∧ s' !! (ATTACHMENT_PREFIX +:+ a)
    = (if decide (a' = a)
       then match SRem_slot msgid link with None => None | Some _ => record end
       else record).
Proof.
  simpl. unfold delete_attachment_link, Exists.
  rewrite lookup_SRem_eq.
  destruct (decide (a' = a)) as [->|Hne].
  - destruct (SRem_slot msgid (s !! (ATTACHMENT_ARTICLE_KR_PREFIX +:+ a))) eqn:E;
      cbn [negb].
    + rewrite lookup_SRem_eq, E. by rewrite lookup_SRem_ne by key_neq.
    + rewrite lookup_Del_ne, lookup_SRem_eq, E
        by (rewrite !not_elem_of_cons; split; [key_neq | apply not_elem_of_nil]).
      split; [done|]. apply lookup_Del_eq. by left.
  - assert (ATTACHMENT_ARTICLE_KR_PREFIX +:+ a' ≠ ATTACHMENT_ARTICLE_KR_PREFIX +:+ a)
      by (intros ?%KeyFacts.app_inj_l; done).
    assert (ATTACHMENT_PREFIX +:+ a' ≠ ATTACHMENT_PREFIX +:+ a)
      by (intros ?%KeyFacts.app_inj_l; done).
    destruct (SRem_slot msgid (s !! (ATTACHMENT_ARTICLE_KR_PREFIX +:+ a')));
      cbn [negb].
    + rewrite !lookup_SRem_ne by (done || key_neq). done.
    + rewrite !lookup_Del_ne, !lookup_SRem_ne
        by (done || key_neq
            || (rewrite !not_elem_of_cons; split;
                [done || key_neq | apply not_elem_of_nil])).
      done.
Qed.

(** The whole loop. *)
Lemma attachment_loop_lookup msgid atts (s : db) a :
  let link := s !! (ATTACHMENT_ARTICLE_KR_PREFIX +:+ a) in
  let record := s !! (ATTACHMENT_PREFIX +:+ a) in
  let s' := foldl (delete_attachment_link msgid) s atts in
  s' !! (ATTACHMENT_ARTICLE_KR_PREFIX +:+ a)
    = (if decide (a ∈ atts) then SRem_slot msgid link else link)
  ∧ s' !! (ATTACHMENT_PREFIX +:+ a)
    = (if decide (a ∈ atts)
       then match SRem_slot msgid link with None => None | Some _ => record end
       else record).
Proof.
  simpl. revert s. induction atts as [|a' atts IH]; intros s; simpl; [done|].
  destruct (IH (delete_attachment_link msgid s a')) as [IH1 IH2].
  destruct (delete_attachment_link_lookup msgid s a' a) as [H1 H2]. simpl in H1, H2.
  rewrite IH1, IH2, H1, H2. clear IH IH1 IH2 H1 H2.
  assert (a ∈ a' :: atts ↔ a' = a ∨ a ∈ atts) as Hcons
    by (rewrite elem_of_cons; intuition congruence).
  repeat case_decide; subst; rewrite ?SRem_slot_idemp;
    try (exfalso; intuition congruence);
    try (by destruct (SRem_slot msgid (s !! (ATTACHMENT_ARTICLE_KR_PREFIX +:+ a)))).
Qed.

(** The third part, at the keys of an attachment the article referenced. *)
Lemma delete_attachment_links_lookup msgid (s : db) a :
  a ∈ (SMembers (ARTICLE_ATTACHMENT_KR_PREFIX +:+ msgid) s).1 →
  let link := s !! (ATTACHMENT_ARTICLE_KR_PREFIX +:+ a) in
  let s' := delete_attachment_links msgid s in
  s' !! (ATTACHMENT_ARTICLE_KR_PREFIX +:+ a) = SRem_slot msgid link
  ∧ s' !! (ATTACHMENT_PREFIX +:+ a)
    = match SRem_slot msgid link with
      | None => None
      | Some _ => s !! (ATTACHMENT_PREFIX +:+ a)
      end
  ∧ s' !! (ARTICLE_ATTACHMENT_KR_PREFIX +:+ msgid) = None.
Proof.
  intros Hin. simpl. unfold delete_attachment_links.
  destruct (attachment_loop_lookup msgid
              (SMembers (ARTICLE_ATTACHMENT_KR_PREFIX +:+ msgid) s).1 s a) as [H1 H2].
  simpl in H1, H2. rewrite decide_True in H1, H2 by done.
  rewrite !lookup_Del_ne
    by (rewrite !not_elem_of_cons; split; [key_neq | apply not_elem_of_nil]).
  rewrite H1, H2. repeat split. apply lookup_Del_eq. by left.
Qed.

Lemma delete_attachment_links_other msgid (s : db) k :
  (∀ x, ATTACHMENT_ARTICLE_KR_PREFIX +:+ x ≠ k) →
  (∀ x, ATTACHMENT_PREFIX +:+ x ≠ k) →
  (∀ x, ARTICLE_ATTACHMENT_KR_PREFIX +:+ x ≠ k) →
  delete_attachment_links msgid s !! k = s !! k.
Proof.
  intros H1 H2 H3. unfold delete_attachment_links.
  rewrite lookup_Del_ne
    by (rewrite !not_elem_of_cons; split; [auto | apply not_elem_of_nil]).
  generalize (SMembers (ARTICLE_ATTACHMENT_KR_PREFIX +:+ msgid) s).1. intros atts.
  revert s. induction atts as [|a atts IH]; intros s; simpl; [done|].
  rewrite IH. unfold delete_attachment_link.
  destruct (negb _).
  - rewrite lookup_Del_ne
      by (rewrite !not_elem_of_cons; split; [auto | apply not_elem_of_nil]).
    by apply lookup_SRem_ne.
  - by apply lookup_SRem_ne.
Qed.

Section Models.
Variable Atoi : string → Z.
Variable isSage : string → bool.

(** [DeleteArticle] at the keys of an attachment the article referenced:
    the reverse link loses the article, and the attachment record goes when
    nothing is left of the reverse link. *)
Lemma DeleteArticle_attachment msgid (s : db) a :
  (HGetAll (ARTICLE_POST_PREFIX +:+ msgid) s).2 = None →
  a ∈ (SMembers (ARTICLE_ATTACHMENT_KR_PREFIX +:+ msgid) s).1 →
  let link := s !! (ATTACHMENT_ARTICLE_KR_PREFIX +:+ a) in
  let s' := DeleteArticle Atoi isSage msgid s in
  s' !! (ATTACHMENT_ARTICLE_KR_PREFIX +:+ a) = SRem_slot msgid link
  ∧ s' !! (ATTACHMENT_PREFIX +:+ a)
    = match SRem_slot msgid link with
      | None => None
      | Some _ => s !! (ATTACHMENT_PREFIX +:+ a)
      end
  ∧ s' !! (ARTICLE_ATTACHMENT_KR_PREFIX +:+ msgid) = None
  ∧ HasArticle msgid s' = false.
Proof.
  intros Hmodel Hin. cbv zeta. unfold DeleteArticle, GetPostModel.
  destruct (HGetAll (ARTICLE_POST_PREFIX +:+ msgid) s) as [mapRes err].
  simpl in Hmodel. subst err.
  match goal with |- context [delete_records msgid ?pp s] => set (p := pp) end.
  set (s2 := delete_header_links msgid (delete_records msgid p s)).
  assert (∀ k, (∀ x, THREAD_POST_WKR +:+ x ≠ k) →
               (∀ x, HASH_MESSAGEID_PREFIX +:+ x ≠ k) →
               (∀ x, ARTICLE_PREFIX +:+ x ≠ k) →
               (∀ x, ARTICLE_POST_PREFIX +:+ x ≠ k) →
               (∀ x, ARTICLE_KEY_PREFIX +:+ x ≠ k) →
               (∀ x, GROUP_ARTICLE_POSTTIME_WKR_PREFIX +:+ x ≠ k) →
               ARTICLE_WKR ≠ k →
               (∀ x, HEADER_KR_PREFIX +:+ x ≠ k) →
               (∀ x, MESSAGEID_HEADER_KR_PREFIX +:+ x ≠ k) →
               s2 !! k = s !! k) as Hsame.
  { intros k ? ? ? ? ? ? ? ? ?. unfold s2.
    rewrite delete_header_links_lookup by done.
    by apply delete_records_lookup. }
  assert (s2 !! (ATTACHMENT_ARTICLE_KR_PREFIX +:+ a)
          = s !! (ATTACHMENT_ARTICLE_KR_PREFIX +:+ a)) as Hlink
    by (apply Hsame; intros; key_neq).
  assert (s2 !! (ATTACHMENT_PREFIX +:+ a) = s !! (ATTACHMENT_PREFIX +:+ a)) as Hrec
    by (apply Hsame; intros; key_neq).
  assert (s2 !! (ARTICLE_ATTACHMENT_KR_PREFIX +:+ msgid)
          = s !! (ARTICLE_ATTACHMENT_KR_PREFIX +:+ msgid)) as Hatts
    by (apply Hsame; intros; key_neq).
  assert (a ∈ (SMembers (ARTICLE_ATTACHMENT_KR_PREFIX +:+ msgid) s2).1) as Hin2.
  { unfold SMembers in *. by rewrite Hatts. }
  pose proof (delete_attachment_links_lookup msgid s2 a Hin2) as Hloop.
  cbv zeta in Hloop. destruct Hloop as (H1 & H2 & H3).
  rewrite Hlink in H1, H2. rewrite Hrec in H2.
  split; [exact H1|]. split; [exact H2|]. split; [exact H3|].
  unfold HasArticle, Exists.
  rewrite delete_attachment_links_other by (intros; key_neq).
  unfold s2. rewrite delete_header_links_lookup by (intros; key_neq).
  by rewrite delete_records_article.
Qed.

(** X18. Deleting an article takes it out of the referrers of each of its
    attachments; when it was the last referrer the reverse link and the
    attachment record are deleted, otherwise both stay, the link without the
    article. [ms] is the set of referrers before the deletion. *)
Lemma DeleteArticle_referrers msgid (s : db) a (ms : gset string) :
  (HGetAll (ARTICLE_POST_PREFIX +:+ msgid) s).2 = None →
  a ∈ (SMembers (ARTICLE_ATTACHMENT_KR_PREFIX +:+ msgid) s).1 →
  s !! (ATTACHMENT_ARTICLE_KR_PREFIX +:+ a) = Some (VSet ms) →
  let s' := DeleteArticle Atoi isSage msgid s in
  SIsMember (ATTACHMENT_ARTICLE_KR_PREFIX +:+ a) msgid s' = false
  ∧ (ms ∖ {[msgid]} = ∅ →
     Exists (ATTACHMENT_ARTICLE_KR_PREFIX +:+ a) s' = false
     ∧ Exists (ATTACHMENT_PREFIX +:+ a) s' = false)
  ∧ (ms ∖ {[msgid]} ≠ ∅ →
     s' !! (ATTACHMENT_ARTICLE_KR_PREFIX +:+ a) = Some (VSet (ms ∖ {[msgid]}))
     ∧ s' !! (ATTACHMENT_PREFIX +:+ a) = s !! (ATTACHMENT_PREFIX +:+ a)).
Proof.
  intros Hmodel Hin Hms. cbv zeta.
  pose proof (DeleteArticle_attachment msgid s a Hmodel Hin) as Hdel.
  cbv zeta in Hdel. destruct Hdel as (H1 & H2 & _ & _).
  rewrite Hms in H1, H2. cbn [SRem_slot] in H1, H2.
  unfold keep_set in H1, H2. unfold SIsMember, Exists. rewrite H1, H2.
  destruct (decide (ms ∖ {[msgid]} = ∅)) as [He|Hne].
  - split; [reflexivity|]. split; [intros _; split; reflexivity|].
    intros Hne. by destruct Hne.
  - split; [|split; [intros He; by destruct Hne | intros _; split; reflexivity]].
    apply bool_decide_eq_false. rewrite elem_of_difference, elem_of_singleton. tauto.
Qed.

End Models.

End DeleteFacts.

(** Whatever the index holds, deleting an article leaves every file where it
    is. *)
Lemma DeleteArticle_world_disk (Atoi : string → Z) (isSage : string → bool)
    (msgid : string) (w : world) :
  disk (DeleteArticle_world Atoi isSage msgid w) = disk w.
Proof. reflexivity. Qed.

(** ** Banning a single address *)

(** X20. An address that is no subnet is banned by its own key, and is
    reported banned from then on, whatever the index held. *)
Lemma BanAddr_single_then_banned {IP IPNet : Type}
    (IsSubnet : string → option IPNet) (IPNet2MinMax : IPNet → IP * IP)
    (ZeroIPString : IP → string) (ParseIP : string → option IP)
    (now : Z) (addr : string) (s : db) :
  IsSubnet addr = None →
  CheckIPBanned IsSubnet IPNet2MinMax ZeroIPString ParseIP addr
    (BanAddr IsSubnet IPNet2MinMax ZeroIPString ParseIP now addr s).1
  = (true, None).
Proof.
  intros Hnet. unfold BanAddr. rewrite Hnet. cbn [fst].
  unfold CheckIPBanned, Exists, HMSet. rewrite lookup_partial_alter_eq.
  by destruct (s !! (IP_BAN_PREFIX +:+ addr)) as [[v|h|ms|z]|].
Qed.

(** ** Removing a newsgroup does remove the files *)

(** On the index of the two articles that share the blob [ab], removing their
    newsgroup takes the article files, the blob and its thumbnail off the
    disk, and the records out of the index. *)
Lemma nuke_removes_blob_file (Atoi : string → Z) (isSage : string → bool) :
  disk (Nuke.NukeNewsgroup 250 Scenarios.slash_join Atoi isSage "overchan.test"
          Scenarios.test_store Scenarios.world_with_two) = ∅
  ∧ Exists (ATTACHMENT_PREFIX +:+ "ab")
      (index (Nuke.NukeNewsgroup 250 Scenarios.slash_join Atoi isSage "overchan.test"
                Scenarios.test_store Scenarios.world_with_two)) = false
  ∧ HasArticle "<one@x>"
      (index (Nuke.NukeNewsgroup 250 Scenarios.slash_join Atoi isSage "overchan.test"
                Scenarios.test_store Scenarios.world_with_two)) = false
  ∧ HasNewsgroup "overchan.test"
      (index (Nuke.NukeNewsgroup 250 Scenarios.slash_join Atoi isSage "overchan.test"
                Scenarios.test_store Scenarios.world_with_two)) = false.
Proof. repeat split; vm_compute; reflexivity. Qed.

(** ** Further consequences *)

(** Registering a known message-id leaves every key but the group ordering
    as it is: records, article and thread orderings, header index and
    attachment entries. *)
Lemma register_known_article_other_keys
    (HashMessageID : string → string) (t_group now : Z) (m : NNTPMessage)
    (s : db) (k : string) :
  HasArticle (MessageID m) s = true →
  k ≠ GROUP_POSTTIME_WKR →
  RegisterArticle HashMessageID t_group now m s !! k = s !! k.
Proof.
  intros Hknown Hk. rewrite RegisterFacts.RegisterArticle_known by done.
  by apply RegisterFacts.group_step_lookup.
Qed.

(** A query that is neither a subnet nor an address is answered by the
    individual key alone, with an error when the key is missing. *)
Lemma ban_lookup_unparsed {IP IPNet : Type}
    (IsSubnet : string → option IPNet) (IPNet2MinMax : IPNet → IP * IP)
    (ZeroIPString : IP → string) (ParseIP : string → option IP)
    (addr : string) (s : db) :
  query_endpoints IsSubnet IPNet2MinMax ZeroIPString ParseIP addr = None →
  CheckIPBanned IsSubnet IPNet2MinMax ZeroIPString ParseIP addr s
  = if Exists (IP_BAN_PREFIX +:+ addr) s then (true, None)
    else (false, Some (errors_New "Couldn't parse IP")).
Proof.
  intros Hq. unfold CheckIPBanned. rewrite Hq.
  by destruct (Exists (IP_BAN_PREFIX +:+ addr) s).
Qed.

(** * Further properties of the index *)

(** ** What registration writes *)

Module RegisterMore.
Import PipeFacts RegisterFacts.

Ltac absurd_key :=
  let H := fresh in
  intros H; exfalso;
  match type of H with
  | ?a = ?b => assert (a ≠ b) by key_neq
  end; contradiction.

Lemma on_key_app k P p1 p2 : on_key k P p1 → on_key k P p2 → on_key k P (p1 ++ p2).
Proof. intros. by apply Forall_app. Qed.

Lemma on_key_flat_map {A} k P (f : A → list cmd) (l : list A) :
  (∀ x, x ∈ l → on_key k P (f x)) → on_key k P (flat_map f l).
Proof.
  intros H. apply Forall_flat_map, Forall_forall. intros x Hx. by apply H.
Qed.

(** A key that only [SADD] writes to holds a set that grows. *)
Lemma sadd_only_grows k pipe ms :
  on_key k is_SAdd pipe →
  ∃ ms', slot_at k pipe (Some (VSet ms)) = Some (VSet ms') ∧ ms ⊆ ms'.
Proof.
  intros Hall. revert ms. induction Hall as [|c pipe Hc _ IH]; intros ms.
  - by exists ms.
  - destruct (decide (cmd_key c = k)) as [Hk|Hk].
    + rewrite slot_at_cons_eq by done. destruct (Hc Hk) as [m ->]. simpl.
      destruct (IH ({[m]} ∪ ms)) as (ms' & -> & Hsub).
      exists ms'. split; [done|]. set_solver.
    + rewrite slot_at_cons_ne by done. apply IH.
Qed.

Lemma sadd_only_member k pipe m o :
  on_key k is_SAdd pipe →
  pSAdd k m ∈ pipe →
  none_or_set o →
  ∃ ms, slot_at k pipe o = Some (VSet ms) ∧ m ∈ ms.
Proof.
  intros Hall. revert o. induction Hall as [|c pipe Hc Hall IH]; intros o Hin Ho.
  - by apply not_elem_of_nil in Hin.
  - apply elem_of_cons in Hin as [<-|Hin].
    + rewrite slot_at_cons_eq by done. simpl.
      destruct o as [[v|h|ms|z]|]; try done; simpl.
      * destruct (sadd_only_grows k pipe ({[m]} ∪ ms) Hall) as (ms' & -> & Hsub).
        exists ms'. split; [done|]. set_solver.
      * destruct (sadd_only_grows k pipe {[m]} Hall) as (ms' & -> & Hsub).
        exists ms'. split; [done|]. set_solver.
    + destruct (decide (cmd_key c = k)) as [Hk|Hk].
      * rewrite slot_at_cons_eq by done. apply IH; [done|].
        destruct (Hc Hk) as [x ->]. by destruct o as [[v|h|ms|z]|].
      * rewrite slot_at_cons_ne by done. by apply IH.
Qed.

(** A key that only [HSETNX] writes to keeps the fields it has. *)
Lemma hsetnx_only_keeps k pipe h f v :
  on_key k is_HSetNX pipe →
  h !! f = Some v →
  ∃ h', slot_at k pipe (Some (VHash h)) = Some (VHash h') ∧ h' !! f = Some v.
Proof.
  intros Hall. revert h. induction Hall as [|c pipe Hc _ IH]; intros h Hf.
  - by exists h.
  - destruct (decide (cmd_key c = k)) as [Hk|Hk].
    + rewrite slot_at_cons_eq by done. destruct (Hc Hk) as (f' & v' & ->). simpl.
      destruct (h !! f') eqn:E; [by apply IH|].
      apply IH. rewrite lookup_insert_ne; [done|]. intros ->. congruence.
    + rewrite slot_at_cons_ne by done. by apply IH.
Qed.

Section Register.
Variable HashMessageID : string → string.

(** The commands of the loops over headers and attachments are [SADD]s and
    [HSETNX]s. *)
Lemma header_cmds_on_key msgid hdrs k :
  on_key k is_SAdd (flat_map (header_cmds msgid) hdrs).
Proof.
  apply on_key_flat_map. intros [h vs] _. unfold header_cmds.
  apply on_key_flat_map. intros v _. repeat constructor; intros _; by eexists.
Qed.

Lemma attachment_cmds_on_set_key msgid atts k :
  (∀ x, ATTACHMENT_PREFIX +:+ x ≠ k) →
  on_key k is_SAdd (flat_map (attachment_cmds msgid) atts).
Proof.
  intros Hk. apply on_key_flat_map. intros att _. unfold attachment_cmds.
  repeat constructor; cbn [cmd_key]; intros H;
    try (by eexists); by destruct (Hk _ H).
Qed.

Lemma attachment_cmds_on_record_key msgid atts k :
  (∀ x, ATTACHMENT_ARTICLE_KR_PREFIX +:+ x ≠ k) →
  (∀ x, ARTICLE_ATTACHMENT_KR_PREFIX +:+ x ≠ k) →
  on_key k is_HSetNX (flat_map (attachment_cmds msgid) atts).
Proof.
  intros H1 H2. apply on_key_flat_map. intros att _. unfold attachment_cmds.
  repeat constructor; cbn [cmd_key]; intros H;
    try (by do 2 eexists); try (by destruct (H1 _ H)); by destruct (H2 _ H).
Qed.

(** The commands before the loops write to no key of the header index or of
    the attachments. *)
Lemma front_cmds_on_key now m k P :
  (∀ x, ARTICLE_PREFIX +:+ x ≠ k) →
  (∀ x, HASH_MESSAGEID_PREFIX +:+ x ≠ k) →
  GROUP_POSTTIME_WKR ≠ k →
  (∀ x, GROUP_ARTICLE_POSTTIME_WKR_PREFIX +:+ x ≠ k) →
  (∀ x, ARTICLE_POST_PREFIX +:+ x ≠ k) →
  ARTICLE_WKR ≠ k →
  (∀ x, GROUP_THREAD_POSTTIME_WKR_PREFIX +:+ x ≠ k) →
  (∀ x, GROUP_THREAD_BUMPTIME_WKR_PREFIX +:+ x ≠ k) →
  THREAD_BUMPTIME_WKR ≠ k →
  (∀ x, THREAD_POST_WKR +:+ x ≠ k) →
  ∃ loops,
    register_pipeline HashMessageID now m
    = loops ++ flat_map (header_cmds (MessageID m)) (Headers m)
            ++ flat_map (attachment_cmds (MessageID m)) (Attachments m)
    ∧ on_key k P loops.
Proof.
  intros H1 H2 H3 H4 H5 H6 H7 H8 H9 H10. unfold register_pipeline.
  eexists. split.
  - rewrite !app_assoc. reflexivity.
  - assert (∀ c, cmd_key c ≠ k → cmd_key c = k → P c) as Hno by done.
    unfold on_key. rewrite !Forall_app. repeat split.
    + repeat constructor; apply Hno; cbn [cmd_key]; auto.
    + destruct (decide (Newsgroup m ≠ "ctl")); repeat constructor;
        apply Hno; cbn [cmd_key]; auto.
    + destruct (OP m), (Sage m), (decide (Newsgroup m ≠ "ctl")); cbn [negb];
        rewrite ?Forall_app; repeat split;
        repeat constructor; apply Hno; cbn [cmd_key]; auto.
Qed.

Ltac loops_untouched :=
  rewrite ?(slot_at_other _ (flat_map (attachment_cmds _) _))
    by (apply attachment_cmds_keys; intros; key_neq);
  rewrite ?(slot_at_other _ (flat_map (header_cmds _) _))
    by (apply header_cmds_keys; intros; key_neq).

Ltac slots :=
  repeat first
    [ rewrite slot_at_nil
    | rewrite slot_at_app
    | slot_step
    | match goal with
      | |- context [slot_at _ (if ?b then _ else _) _] => destruct b
      end ].





Lemma article_post_slot now m o :
  slot_at (ARTICLE_POST_PREFIX +:+ MessageID m)
          (register_pipeline HashMessageID now m) o
  = HMSet_slot
      [ ("newsgroup", Newsgroup m); ("message_id", MessageID m);
        ("ref_id", Reference m); ("name", Name m); ("subject", Subject m);
        ("path", Path m); ("time_posted", Itoa (Posted m));
        ("message", Message m); ("addr", Addr m) ] o.
Proof.
  unfold register_pipeline. rewrite !slot_at_app. loops_untouched.
  destruct (decide (Newsgroup m ≠ "ctl")), (OP m), (Sage m); cbn [negb]; by slots.
Qed.

Lemma hash_messageid_slot now m o :
  slot_at (HASH_MESSAGEID_PREFIX +:+ HashMessageID (MessageID m))
          (register_pipeline HashMessageID now m) o
  = Set_slot (MessageID m) o.
Proof.
  unfold register_pipeline. rewrite !slot_at_app. loops_untouched.
  destruct (decide (Newsgroup m ≠ "ctl")), (OP m), (Sage m); cbn [negb]; by slots.
Qed.

(** The slot of a key of the header index or of the attachment sets after
    registration: a set that holds what the loops add. *)
Lemma loops_member now m k x o :
  (∀ y, ARTICLE_PREFIX +:+ y ≠ k) →
  (∀ y, HASH_MESSAGEID_PREFIX +:+ y ≠ k) →
  GROUP_POSTTIME_WKR ≠ k →
  (∀ y, GROUP_ARTICLE_POSTTIME_WKR_PREFIX +:+ y ≠ k) →
  (∀ y, ARTICLE_POST_PREFIX +:+ y ≠ k) →
  ARTICLE_WKR ≠ k →
  (∀ y, GROUP_THREAD_POSTTIME_WKR_PREFIX +:+ y ≠ k) →
  (∀ y, GROUP_THREAD_BUMPTIME_WKR_PREFIX +:+ y ≠ k) →
  THREAD_BUMPTIME_WKR ≠ k →
  (∀ y, THREAD_POST_WKR +:+ y ≠ k) →
  (∀ y, ATTACHMENT_PREFIX +:+ y ≠ k) →
  pSAdd k x ∈ flat_map (header_cmds (MessageID m)) (Headers m)
              ++ flat_map (attachment_cmds (MessageID m)) (Attachments m) →
  none_or_set o →
  ∃ ms, slot_at k (register_pipeline HashMessageID now m) o = Some (VSet ms)
        ∧ x ∈ ms.
Proof.
  intros H1 H2 H3 H4 H5 H6 H7 H8 H9 H10 H11 Hin Ho.
  destruct (front_cmds_on_key now m k is_SAdd H1 H2 H3 H4 H5 H6 H7 H8 H9 H10)
    as (loops & -> & Hloops).
  apply sadd_only_member; [|by (rewrite elem_of_app; right)|done].
  apply on_key_app; [done|]. apply on_key_app.
  - apply header_cmds_on_key.
  - by apply attachment_cmds_on_set_key.
Qed.

Lemma attachment_record_kept now m hash h f v :
  h !! f = Some v →
  ∃ h', slot_at (ATTACHMENT_PREFIX +:+ hash)
                (register_pipeline HashMessageID now m) (Some (VHash h))
        = Some (VHash h')
        ∧ h' !! f = Some v.
Proof.
  intros Hf.
  destruct (front_cmds_on_key now m (ATTACHMENT_PREFIX +:+ hash) is_HSetNX)
    as (loops & -> & Hloops); try (intros; key_neq).
  apply hsetnx_only_keeps; [|done].
  apply on_key_app; [done|]. apply on_key_app.
  - apply on_key_flat_map. intros [hd vs] _. unfold header_cmds.
    apply on_key_flat_map. intros v' _.
    repeat constructor; cbn [cmd_key]; absurd_key.
  - apply attachment_cmds_on_record_key; intros; key_neq.
Qed.

End Register.

End RegisterMore.





Module ReadBack.
Import PipeFacts RegisterFacts.

(** The hash of the post after [HMSET] with the nine fields of an article. *)
Lemma post_fields (h : gmap string string) (m : NNTPMessage) :
  let h' := hset_all h
      [ ("newsgroup", Newsgroup m); ("message_id", MessageID m);
        ("ref_id", Reference m); ("name", Name m); ("subject", Subject m);
        ("path", Path m); ("time_posted", Itoa (Posted m));
        ("message", Message m); ("addr", Addr m) ] in
  h' !! "newsgroup" = Some (Newsgroup m)
  ∧ h' !! "message_id" = Some (MessageID m)
  ∧ h' !! "ref_id" = Some (Reference m)
  ∧ h' !! "name" = Some (Name m)
  ∧ h' !! "subject" = Some (Subject m)
  ∧ h' !! "path" = Some (Path m)
  ∧ h' !! "time_posted" = Some (Itoa (Posted m))
  ∧ h' !! "message" = Some (Message m)
  ∧ h' !! "addr" = Some (Addr m).
Proof.
  cbv zeta. unfold hset_all. cbn [foldl fst snd].
  repeat split; rewrite ?lookup_insert_ne by discriminate; apply lookup_insert_eq.
Qed.

Lemma registered_post_slot (HashMessageID : string → string)
    (t_group now : Z) (m : NNTPMessage) (s : db) :
  HasArticle (MessageID m) s = false →
  hash_err (ARTICLE_POST_PREFIX +:+ MessageID m) s = None →
  ∃ h, RegisterArticle HashMessageID t_group now m s
         !! (ARTICLE_POST_PREFIX +:+ MessageID m)
       = Some (VHash (hset_all h
           [ ("newsgroup", Newsgroup m); ("message_id", MessageID m);
             ("ref_id", Reference m); ("name", Name m); ("subject", Subject m);
             ("path", Path m); ("time_posted", Itoa (Posted m));
             ("message", Message m); ("addr", Addr m) ])).
Proof.
  intros Hnew Hty.
  rewrite RegisterArticle_new_lookup by (done || key_neq).
  rewrite RegisterMore.article_post_slot. unfold hash_err in Hty.
  destruct (s !! (ARTICLE_POST_PREFIX +:+ MessageID m)) as [[v|h|ms|z]|];
    try done; by eexists.
Qed.

End ReadBack.

(** X3. An article that is new to the index is read back by [GetPostModel]
    with the fields it was registered with. The model's [parent] is the
    article's own message-id when its reference is empty, [op] is derived from
    the reference and [sage] from the subject, not taken from the message. *)
Theorem registered_article_is_read_back
    (HashMessageID : string → string) (Atoi : string → Z) (isSage : string → bool)
    (t_group now : Z) (m : NNTPMessage) (s : db) (prefix : string) :
  HasArticle (MessageID m) s = false →
  hash_err (ARTICLE_POST_PREFIX +:+ MessageID m) s = None →
  ∃ p,
    GetPostModel Atoi isSage prefix (MessageID m)
                 (RegisterArticle HashMessageID t_group now m s) = Some p
    ∧ board p = Newsgroup m
    ∧ message_id p = MessageID m
    ∧ parent p = (if decide (Reference m = EmptyString)
                  then MessageID m else Reference m)
    ∧ op p = bool_decide (Reference m = EmptyString)
    ∧ name p = Name m
    ∧ subject p = Subject m
    ∧ path p = Path m
    ∧ posted p = Atoi (Itoa (Posted m))
    ∧ message p = Message m
    ∧ addr p = Addr m
    ∧ sage p = isSage (Subject m).
Proof.
  intros Hnew Hty.
  destruct (ReadBack.registered_post_slot HashMessageID t_group now m s Hnew Hty)
    as [h Hslot].
  pose proof (ReadBack.post_fields h m) as Hf. cbv zeta in Hf.
  destruct Hf as (F1 & F2 & F3 & F4 & F5 & F6 & F7 & F8 & F9).
  unfold GetPostModel, HGetAll. rewrite Hslot.
  eexists. split; [reflexivity|]. cbn [board message_id parent op name subject
    path posted message addr sage]. unfold field.
  rewrite F1, F2, F3, F4, F5, F6, F7, F8, F9. cbn [default]. repeat split.
Qed.

Lemma registered_article_is_read_back_witness :
  ∃ p,
    GetPostModel (λ _, 0) (λ _, false) EmptyString
                 (MessageID Scenarios.reply_article)
                 (RegisterArticle Scenarios.hash_stub 1136240000 1136240001
                                  Scenarios.reply_article ∅) = Some p
    ∧ board p = Newsgroup Scenarios.reply_article
    ∧ message_id p = MessageID Scenarios.reply_article
    ∧ parent p = (if decide (Reference Scenarios.reply_article = EmptyString)
                  then MessageID Scenarios.reply_article
                  else Reference Scenarios.reply_article)
    ∧ op p = bool_decide (Reference Scenarios.reply_article = EmptyString)
    ∧ name p = Name Scenarios.reply_article
    ∧ subject p = Subject Scenarios.reply_article
    ∧ path p = Path Scenarios.reply_article
    ∧ posted p = (λ _, 0) (Itoa (Posted Scenarios.reply_article))
    ∧ message p = Message Scenarios.reply_article
    ∧ addr p = Addr Scenarios.reply_article
    ∧ sage p = (λ _, false) (Subject Scenarios.reply_article).
Proof.
  apply (registered_article_is_read_back Scenarios.hash_stub (λ _, 0) (λ _, false)
           1136240000 1136240001 Scenarios.reply_article ∅ EmptyString);
    reflexivity.
Defined.

(** X4. An article that is new to the index is found by the hash of its
    message-id: [GetMessageIDByHash] answers its message-id and newsgroup. *)
Theorem registered_article_is_found_by_hash
    (HashMessageID : string → string) (t_group now : Z) (m : NNTPMessage) (s : db) :
  HasArticle (MessageID m) s = false →
  hash_err (ARTICLE_POST_PREFIX +:+ MessageID m) s = None →
  GetMessageIDByHash (HashMessageID (MessageID m))
                     (RegisterArticle HashMessageID t_group now m s)
  = ((MessageID m, Newsgroup m), None).
Proof.
  intros Hnew Hty. unfold GetMessageIDByHash, Get.
  rewrite RegisterFacts.RegisterArticle_new_lookup by (done || key_neq).
  rewrite RegisterMore.hash_messageid_slot. cbn [Set_slot].
  unfold GetGroupForMessage, HGet.
  destruct (ReadBack.registered_post_slot HashMessageID t_group now m s Hnew Hty)
    as [h Hslot].
  rewrite Hslot.
  pose proof (ReadBack.post_fields h m) as Hf. cbv zeta in Hf.
  destruct Hf as (F1 & _). by rewrite F1.
Qed.

Lemma registered_article_is_found_by_hash_witness :
  GetMessageIDByHash (Scenarios.hash_stub (MessageID Scenarios.plain_article))
    (RegisterArticle Scenarios.hash_stub 1136240000 1136240001
                     Scenarios.plain_article ∅)
  = ((MessageID Scenarios.plain_article, Newsgroup Scenarios.plain_article), None).
Proof.
  apply (registered_article_is_found_by_hash Scenarios.hash_stub 1136240000
           1136240001 Scenarios.plain_article ∅); reflexivity.
Defined.

Module LoopFacts.
Import PipeFacts RegisterFacts.

Lemma elem_of_flat_map {A B} (f : A → list B) (l : list A) (y : B) :
  y ∈ flat_map f l ↔ ∃ x, x ∈ l ∧ y ∈ f x.
Proof.
  rewrite list_elem_of_In, in_flat_map. split.
  - intros (x & Hx & Hy). exists x. by rewrite !list_elem_of_In.
  - intros (x & Hx & Hy). exists x. by rewrite <- !list_elem_of_In.
Qed.

Lemma none_or_set_of_err k (s : db) : set_err k s = None → none_or_set (s !! k).
Proof. unfold set_err. by destruct (s !! k) as [[]|]. Qed.

End LoopFacts.

(** X5. Every header value of an article that is new to the index is indexed:
    the article is among the message-ids [GetMessageIDByHeader] answers for
    that header name and value, and the header is recorded in the article's
    reverse set. *)
Theorem registered_headers_are_indexed
    (HashMessageID : string → string) (t_group now : Z) (m : NNTPMessage) (s : db)
    (name val : string) (vals : list string) :
  HasArticle (MessageID m) s = false →
  (name, vals) ∈ Headers m →
  val ∈ vals →
  set_err (HEADER_KR_PREFIX +:+ ("Name::" +:+ name +:+ "::Value::" +:+ val)) s = None →
  set_err (MESSAGEID_HEADER_KR_PREFIX +:+ MessageID m) s = None →
  MessageID m ∈ (GetMessageIDByHeader name val
                   (RegisterArticle HashMessageID t_group now m s)).1
  ∧ ("Name::" +:+ name +:+ "::Value::" +:+ val)
    ∈ (SMembers (MESSAGEID_HEADER_KR_PREFIX +:+ MessageID m)
         (RegisterArticle HashMessageID t_group now m s)).1.
Proof.
  intros Hnew Hhdr Hval Hty1 Hty2.
  unfold GetMessageIDByHeader, SMembers.
  rewrite !RegisterFacts.RegisterArticle_new_lookup by (done || key_neq).
  assert (∀ k x,
            (k = HEADER_KR_PREFIX +:+ ("Name::" +:+ name +:+ "::Value::" +:+ val)
             ∧ x = MessageID m)
            ∨ (k = MESSAGEID_HEADER_KR_PREFIX +:+ MessageID m
               ∧ x = "Name::" +:+ name +:+ "::Value::" +:+ val) →
            pSAdd k x
            ∈ flat_map (header_cmds (MessageID m)) (Headers m)
              ++ flat_map (attachment_cmds (MessageID m)) (Attachments m)) as Hin.
  { intros k x Hkx. rewrite elem_of_app. left.
    apply LoopFacts.elem_of_flat_map. exists (name, vals). split; [done|].
    unfold header_cmds. apply LoopFacts.elem_of_flat_map. exists val.
    split; [done|]. cbn [fst snd]. rewrite !elem_of_cons.
    destruct Hkx as [[-> ->]|[-> ->]]; auto. }
  split.
  - edestruct (RegisterMore.loops_member HashMessageID now m
                 (HEADER_KR_PREFIX +:+ ("Name::" +:+ name +:+ "::Value::" +:+ val))
                 (MessageID m)) as (ms & -> & Hms);
      try (intros; key_neq); [by apply Hin; left | by apply LoopFacts.none_or_set_of_err |].
    cbn [fst]. by apply elem_of_elements.
  - edestruct (RegisterMore.loops_member HashMessageID now m
                 (MESSAGEID_HEADER_KR_PREFIX +:+ MessageID m)
                 ("Name::" +:+ name +:+ "::Value::" +:+ val)) as (ms & -> & Hms);
      try (intros; key_neq); [by apply Hin; right | by apply LoopFacts.none_or_set_of_err |].
    cbn [fst]. by apply elem_of_elements.
Qed.

Lemma registered_headers_are_indexed_witness :
  MessageID Scenarios.plain_article
  ∈ (GetMessageIDByHeader "Subject" "hello"
       (RegisterArticle Scenarios.hash_stub 1136240000 1136240001
                        Scenarios.plain_article ∅)).1
  ∧ ("Name::" +:+ "Subject" +:+ "::Value::" +:+ "hello")
    ∈ (SMembers (MESSAGEID_HEADER_KR_PREFIX +:+ MessageID Scenarios.plain_article)
         (RegisterArticle Scenarios.hash_stub 1136240000 1136240001
                          Scenarios.plain_article ∅)).1.
Proof.
  apply (registered_headers_are_indexed Scenarios.hash_stub 1136240000 1136240001
           Scenarios.plain_article ∅ "Subject" "hello" ["hello"]).
  - reflexivity.
  - apply list_elem_of_here.
  - apply list_elem_of_here.
  - reflexivity.
  - reflexivity.
Defined.

(** X6. Each attachment of an article that is new to the index is linked in
    both directions: the article is a referrer of the attachment's hash, and
    the hash is among the article's attachments. *)
Theorem registered_attachments_are_linked
    (HashMessageID : string → string) (t_group now : Z) (m : NNTPMessage) (s : db)
    (att : NNTPAttachment) :
  HasArticle (MessageID m) s = false →
  att ∈ Attachments m →
  set_err (ATTACHMENT_ARTICLE_KR_PREFIX +:+ hex.EncodeToString (att_Hash att)) s
  = None →
  set_err (ARTICLE_ATTACHMENT_KR_PREFIX +:+ MessageID m) s = None →
  SIsMember (ATTACHMENT_ARTICLE_KR_PREFIX +:+ hex.EncodeToString (att_Hash att))
            (MessageID m) (RegisterArticle HashMessageID t_group now m s) = true
  ∧ SIsMember (ARTICLE_ATTACHMENT_KR_PREFIX +:+ MessageID m)
              (hex.EncodeToString (att_Hash att))
              (RegisterArticle HashMessageID t_group now m s) = true.
Proof.
  intros Hnew Hatt Hty1 Hty2. unfold SIsMember.
  rewrite !RegisterFacts.RegisterArticle_new_lookup by (done || key_neq).
  assert (∀ c, c ∈ attachment_cmds (MessageID m) att →
            c ∈ flat_map (header_cmds (MessageID m)) (Headers m)
              ++ flat_map (attachment_cmds (MessageID m)) (Attachments m)) as Hin.
  { intros c Hc. rewrite elem_of_app. right.
    apply LoopFacts.elem_of_flat_map. by exists att. }
  split.
  - edestruct (RegisterMore.loops_member HashMessageID now m
                 (ATTACHMENT_ARTICLE_KR_PREFIX +:+ hex.EncodeToString (att_Hash att))
                 (MessageID m)) as (ms & -> & Hms);
      try (intros; key_neq);
      [ apply Hin; unfold attachment_cmds; rewrite !elem_of_cons; auto
      | by apply LoopFacts.none_or_set_of_err |].
    by apply bool_decide_eq_true.
  - edestruct (RegisterMore.loops_member HashMessageID now m
                 (ARTICLE_ATTACHMENT_KR_PREFIX +:+ MessageID m)
                 (hex.EncodeToString (att_Hash att))) as (ms & -> & Hms);
      try (intros; key_neq);
      [ apply Hin; unfold attachment_cmds; rewrite !elem_of_cons; auto
      | by apply LoopFacts.none_or_set_of_err |].
    by apply bool_decide_eq_true.
Qed.

Lemma registered_attachments_are_linked_witness :
  SIsMember (ATTACHMENT_ARTICLE_KR_PREFIX
             +:+ hex.EncodeToString (att_Hash Scenarios.blob))
            (MessageID Scenarios.first_with_blob)
            (RegisterArticle Scenarios.hash_stub 1136240000 1136240001
                             Scenarios.first_with_blob ∅) = true
  ∧ SIsMember (ARTICLE_ATTACHMENT_KR_PREFIX +:+ MessageID Scenarios.first_with_blob)
              (hex.EncodeToString (att_Hash Scenarios.blob))
              (RegisterArticle Scenarios.hash_stub 1136240000 1136240001
                               Scenarios.first_with_blob ∅) = true.
Proof.
  apply (registered_attachments_are_linked Scenarios.hash_stub 1136240000
           1136240001 Scenarios.first_with_blob ∅ Scenarios.blob).
  - reflexivity.
  - apply list_elem_of_here.
  - reflexivity.
  - reflexivity.
Defined.

(** X7. Attachment records are insert-if-absent: a field an attachment record
    has before an article is registered has the same value afterwards,
    whatever attachments the article carries. The record stays that of the
    first referrer. *)
Theorem attachment_record_is_kept
    (HashMessageID : string → string) (t_group now : Z) (m : NNTPMessage) (s : db)
    (hash f v : string) :
  HasArticle (MessageID m) s = false →
  HGet (ATTACHMENT_PREFIX +:+ hash) f s = (v, None) →
  HGet (ATTACHMENT_PREFIX +:+ hash) f
       (RegisterArticle HashMessageID t_group now m s) = (v, None).
Proof.
  intros Hnew Hget. unfold HGet in *.
  rewrite RegisterFacts.RegisterArticle_new_lookup by (done || key_neq).
  destruct (s !! (ATTACHMENT_PREFIX +:+ hash)) as [[x|h|ms|z]|]; try done.
  destruct (h !! f) as [v'|] eqn:Hf; [|done]. injection Hget as ->.
  destruct (RegisterMore.attachment_record_kept HashMessageID now m hash h f v Hf)
    as (h' & -> & Hf').
  by rewrite Hf'.
Qed.

Lemma attachment_record_is_kept_witness :
  HGet (ATTACHMENT_PREFIX +:+ "ab") "filename"
       (RegisterArticle Scenarios.hash_stub 1136240002 1136240003
          Scenarios.second_with_blob
          (RegisterArticle Scenarios.hash_stub 1136240000 1136240001
             Scenarios.first_with_blob ∅))
  = ("cat.png", None).
Proof.
  apply (attachment_record_is_kept Scenarios.hash_stub 1136240002 1136240003
           Scenarios.second_with_blob
           (RegisterArticle Scenarios.hash_stub 1136240000 1136240001
              Scenarios.first_with_blob ∅) "ab" "filename" "cat.png").
  - vm_compute. reflexivity.
  - vm_compute. reflexivity.
Defined.

(** ** Ranges of replies, threads and pages *)

Module RangeFacts.

Ltac ztests :=
  repeat match goal with
  | |- context [?a <? ?b] => destruct (Z.ltb_spec a b)
  | |- context [?a <=? ?b] => destruct (Z.leb_spec a b)
  end.

Lemma range_slice_all {A} (l : list A) : range_slice l 0 (-1) = l.
Proof.
  unfold range_slice. ztests; cbn [orb]; try lia.
  - destruct l; [done|]. simpl length in *. lia.
  - rewrite drop_0. apply take_ge. lia.
Qed.

Lemma range_slice_last {A} (l : list A) (k : Z) :
  1 ≤ k → range_slice l (- k) (-1) = drop (length l - Z.to_nat k) l.
Proof.
  intros Hk. unfold range_slice. ztests; cbn [orb]; try lia.
  - destruct l; [done|]. simpl length in *. lia.
  - rewrite take_ge by (rewrite length_drop; lia). f_equal. lia.
Qed.

Lemma range_slice_but_last {A} (l : list A) (k : Z) :
  0 ≤ k → range_slice l 0 (- k - 1) = take (length l - Z.to_nat k) l.
Proof.
  intros Hk. unfold range_slice. ztests; cbn [orb]; try lia.
  - replace (length l - Z.to_nat k)%nat with 0%nat by lia. done.
  - replace (length l - Z.to_nat k)%nat with 0%nat by lia. done.
  - rewrite drop_0. f_equal. lia.
Qed.

Lemma range_slice_first {A} (l : list A) (k : Z) :
  0 ≤ k → range_slice l 0 k = take (Z.to_nat (k + 1)) l.
Proof.
  intros Hk. unfold range_slice. ztests; cbn [orb]; try lia.
  - destruct l; [|simpl length in *; lia]. by rewrite take_nil.
  - rewrite drop_0. destruct (Z.le_gt_cases k (Z.of_nat (length l) - 1)).
    + f_equal. lia.
    + rewrite !take_ge by lia. done.
Qed.

Lemma range_slice_lookup {A} (l : list A) (a b : Z) (i : nat) (x : A) :
  0 ≤ a → a ≤ Z.of_nat i → Z.of_nat i ≤ b → l !! i = Some x →
  range_slice l a b !! (i - Z.to_nat a)%nat = Some x.
Proof.
  intros Ha Hai Hib Hx. pose proof (lookup_lt_Some _ _ _ Hx) as Hlt.
  unfold range_slice. ztests; cbn [orb]; try lia.
  rewrite lookup_take_lt by lia. rewrite lookup_drop.
  replace (Z.to_nat a + (i - Z.to_nat a))%nat with i by lia. done.
Qed.

Lemma range_slice_one {A} (l : list A) (i : nat) (x : A) :
  l !! i = Some x → range_slice l (Z.of_nat i) (Z.of_nat i) = [x].
Proof.
  intros Hx. pose proof (lookup_lt_Some _ _ _ Hx) as Hlt.
  unfold range_slice. ztests; cbn [orb]; try lia.
  replace (Z.to_nat (Z.min (Z.of_nat i) (Z.of_nat (length l) - 1) - Z.of_nat i + 1))
    with 1%nat by lia.
  rewrite Nat2Z.id. rewrite (drop_S _ x) by done. done.
Qed.

End RangeFacts.

(** X8. [GetThreadReplies] with a limit of 1 or less answers every reply of
    the thread, oldest first; with a limit of 2 or more it answers the
    [limit - 1] newest replies (all of them when the thread has fewer). *)
Theorem thread_replies_limit (rootpost : string) (limit : Z) (s : db) :
  GetThreadReplies rootpost limit s
  = let all := (zmembers (THREAD_POST_WKR +:+ rootpost) s).1 in
    if limit <=? 1 then all
    else drop (length all - Z.to_nat (limit - 1)) all.
Proof.
  unfold GetThreadReplies, ZRange.
  destruct (zmembers (THREAD_POST_WKR +:+ rootpost) s) as [l err]. cbn [fst].
  cbv zeta.
  destruct (Z.ltb_spec limit 1), (Z.leb_spec limit 1); try lia.
  - apply RangeFacts.range_slice_all.
  - replace limit with 1 by lia. apply RangeFacts.range_slice_all.
  - replace (- limit + 1) with (- (limit - 1)) by lia.
    apply RangeFacts.range_slice_last. lia.
Qed.

(** X9. [GetRootPostsForExpiration] answers the threads of a group, oldest
    first, without the [threadcount] newest: nothing when the group has no
    more than [threadcount] threads. *)
Theorem expiration_spares_newest_threads
    (newsgroup : string) (threadcount : Z) (s : db) :
  0 ≤ threadcount →
  GetRootPostsForExpiration newsgroup threadcount s
  = let all := (zmembers (GROUP_THREAD_POSTTIME_WKR_PREFIX +:+ newsgroup) s).1 in
    take (length all - Z.to_nat threadcount) all.
Proof.
  intros Hc. unfold GetRootPostsForExpiration, ZRange.
  destruct (zmembers _ s) as [l err]. cbn [fst]. cbv zeta.
  by apply RangeFacts.range_slice_but_last.
Qed.

Lemma expiration_spares_newest_threads_witness :
  0 ≤ 1
  ∧ GetRootPostsForExpiration "overchan.test" 1 Scenarios.index_with_two
    = ["<one@x>"].
Proof.
  split; [lia|].
  rewrite (expiration_spares_newest_threads "overchan.test" 1
             Scenarios.index_with_two) by lia.
  vm_compute. reflexivity.
Defined.

Module PageFacts.

Lemma list_find_eq_lookup (l : list string) (m : string) (i : nat) (y : string) :
  list_find (λ x, x = m) l = Some (i, y) → l !! i = Some m.
Proof. intros H. apply list_find_Some in H as (Hl & -> & _). done. Qed.

Lemma list_find_member (l : list string) (m : string) :
  m ∈ l → ∃ i, list_find (λ x, x = m) l = Some (i, m).
Proof.
  intros Hin. destruct (list_find (λ x, x = m) l) as [[i y]|] eqn:Hf.
  - apply list_find_Some in Hf as Hf'. destruct Hf' as (_ & -> & _). eauto.
  - apply list_find_None in Hf. rewrite Forall_forall in Hf.
    by destruct (Hf m Hin).
Qed.

End PageFacts.

(** X10. A thread is on the page [GetPageForRootMessage] reports for it: when
    the lookup answers group and page without an error, the board page
    [GetGroupForPage] builds for that group and page, at the ten threads per
    page the lookup reckons with, holds the thread of that root post. *)
Theorem thread_is_on_its_page
    (Atoi : string → Z) (isSage : string → bool)
    (prefix frontend root group : string) (page : Z) (s : db) :
  GetPageForRootMessage root s = (group, page, None) →
  {| thread_prefix := prefix;
     posts := [GetPostModel Atoi isSage prefix root s];
     links := [(group, prefix +:+ group +:+ "-0.html")] |}
  ∈ threads (GetGroupForPage Atoi isSage prefix frontend group page 10 s).
Proof.
  unfold GetPageForRootMessage, GetGroupForPage.
  destruct (GetGroupForMessage root s) as [g [e|]]; [done|].
  cbn [GetPagesPerBoard fst]. unfold ZRevRank, ZRevRange, zmembers.
  destruct (s !! (GROUP_THREAD_BUMPTIME_WKR_PREFIX +:+ g)) as [[x|h|ms|z]|] eqn:Hk;
    try done.
  destruct (list_find (λ x, x = root) (reverse (zsorted z).*1))
    as [[i y]|] eqn:Hf; [|done].
  intros [= <- <-]. rewrite Hk. cbn [threads].
  apply PageFacts.list_find_eq_lookup in Hf.
  apply (list_elem_of_fmap_2 (λ msgid,
           {| thread_prefix := prefix;
              posts := [GetPostModel Atoi isSage prefix msgid s];
              links := [(g, prefix +:+ g +:+ "-0.html")] |})).
  pose proof (Z.mul_div_le (Z.of_nat i) 10 ltac:(lia)).
  pose proof (Z.mul_succ_div_gt (Z.of_nat i) 10 ltac:(lia)).
  eapply list_elem_of_lookup_2.
  apply (RangeFacts.range_slice_lookup _ _ _ i); [lia..|done].
Qed.

Lemma thread_is_on_its_page_witness :
  {| thread_prefix := "/";
     posts := [GetPostModel (λ _, 0) (λ _, false) "/" "<one@x>"
                 Scenarios.index_with_two];
     links := [("overchan.test", "/" +:+ "overchan.test" +:+ "-0.html")] |}
  ∈ threads (GetGroupForPage (λ _, 0) (λ _, false) "/" "front" "overchan.test" 0 10
               Scenarios.index_with_two).
Proof.
  apply (thread_is_on_its_page (λ _, 0) (λ _, false) "/" "front" "<one@x>"
           "overchan.test" 0 Scenarios.index_with_two).
  vm_compute. reflexivity.
Defined.

(** ** Numbers, replies of redis, and what deletion removes *)

(** X11. Every article of a group can be fetched by number: an article in
    the group's ordering has a number between 1 and the cardinality of the
    ordering for which the lookup by number answers its message-id. *)
Theorem every_article_has_a_number (group msgid : string) (t : Z) (s : db) :
  ZScore (GROUP_ARTICLE_POSTTIME_WKR_PREFIX +:+ group) msgid s = Some t →
  ∃ id, 1 ≤ id ≤ (ZCard (GROUP_ARTICLE_POSTTIME_WKR_PREFIX +:+ group) s).1
        ∧ GetMessageIDForNNTPID group id s = (msgid, None).
Proof.
  unfold ZScore, slot_score, ZCard, GetMessageIDForNNTPID, ZRange, zmembers.
  destruct (s !! (GROUP_ARTICLE_POSTTIME_WKR_PREFIX +:+ group))
    as [[x|h|ms|z]|]; try done.
  intros Hz.
  assert (msgid ∈ (zsorted z).*1) as Hin
    by (apply RegisterFacts.zsorted_members; eauto).
  apply list_elem_of_lookup in Hin as [i Hi].
  pose proof (lookup_lt_Some _ _ _ Hi) as Hlt.
  rewrite NumberFacts.zsorted_length in Hlt.
  exists (Z.of_nat i + 1). cbn [fst]. split; [lia|].
  destruct (Z.eqb_spec (Z.of_nat i + 1) 0); [lia|].
  replace (Z.of_nat i + 1 - 1) with (Z.of_nat i) by lia.
  by rewrite (RangeFacts.range_slice_one _ i msgid Hi).
Qed.

Lemma every_article_has_a_number_witness :
  ∃ id, 1 ≤ id ≤ (ZCard (GROUP_ARTICLE_POSTTIME_WKR_PREFIX +:+ "overchan.test")
                        Scenarios.index_with_two).1
        ∧ GetMessageIDForNNTPID "overchan.test" id Scenarios.index_with_two
          = ("<two@x>", None).
Proof.
  apply (every_article_has_a_number "overchan.test" "<two@x>" 1136240003
           Scenarios.index_with_two).
  vm_compute. reflexivity.
Defined.

Module ReplyFacts.
Import RedisReply.

Lemma from_even_or_odd (hash : list string) :
  (∀ m, match processHashResult_from hash m with
        | Done m' =>
            ∃ pairs, hash = flat_map (λ fv : string * string, [fv.1; fv.2]) pairs
                     ∧ m' = foldr (λ fv acc, <[fv.1 := fv.2]> acc) m (reverse pairs)
        | Panics => Nat.Odd (length hash)
        | NoFuel => False
        end)
  ∧ (∀ x m, match processHashResult_from (x :: hash) m with
            | Done m' =>
                ∃ pairs, x :: hash = flat_map (λ fv : string * string, [fv.1; fv.2]) pairs
                         ∧ m' = foldr (λ fv acc, <[fv.1 := fv.2]> acc) m (reverse pairs)
            | Panics => Nat.Odd (length (x :: hash))
            | NoFuel => False
            end).
Proof.
  induction hash as [|y hash [IH1 IH2]].
  - split; [intros m; by exists []|]. intros x m. cbn. by exists 0%nat.
  - split; [apply IH2|]. intros x m.
    cbn [processHashResult_from]. specialize (IH1 (<[x := y]> m)).
    destruct (processHashResult_from hash (<[x := y]> m)) as [m'| |]; [| |done].
    + destruct IH1 as (pairs & -> & ->). exists ((x, y) :: pairs).
      split; [done|]. rewrite reverse_cons, foldr_app. done.
    + destruct IH1 as [n Hn]. exists (S n). cbn [length]. lia.
Qed.

End ReplyFacts.

(** X12. [processHashResult] turns the flat reply of [HGETALL] into the map
    of its fields, a later value of a field taking the place of an earlier
    one; a reply of odd length makes it read past the end of the reply, and
    the call panics. It has no other outcome. *)
Theorem hash_reply_is_read_in_pairs (hash : list string) :
  match RedisReply.processHashResult hash with
  | Done mapRes =>
      ∃ pairs, hash = flat_map (λ fv : string * string, [fv.1; fv.2]) pairs
               ∧ mapRes = list_to_map (reverse pairs)
  | Panics => Nat.Odd (length hash)
  | NoFuel => False
  end.
Proof.
  unfold RedisReply.processHashResult.
  destruct (ReplyFacts.from_even_or_odd hash) as [H _]. exact (H ∅).
Qed.

Module DeleteMore.
Import DeleteFacts.

Lemma delete_records_post msgid p (s : db) :
  delete_records msgid p s !! (ARTICLE_POST_PREFIX +:+ msgid) = None.
Proof.
  unfold delete_records.
  rewrite !lookup_ZRem_ne by key_neq.
  apply lookup_Del_eq. rewrite !elem_of_cons. auto.
Qed.

Lemma delete_records_key msgid p (s : db) :
  delete_records msgid p s !! (ARTICLE_KEY_PREFIX +:+ msgid) = None.
Proof.
  unfold delete_records.
  rewrite !lookup_ZRem_ne by key_neq.
  apply lookup_Del_eq. rewrite !elem_of_cons. auto.
Qed.

Lemma slot_score_ZRem m o : slot_score (ZRem_slot m o) m = None.
Proof.
  destruct o as [[x|h|ms|z]|]; try done. cbn [ZRem_slot]. unfold keep_zset.
  case_decide; [done|]. cbn [slot_score]. by rewrite lookup_delete_eq.
Qed.

Lemma delete_records_orderings msgid p (s : db) :
  ZScore ARTICLE_WKR msgid (delete_records msgid p s) = None
  ∧ ZScore (GROUP_ARTICLE_POSTTIME_WKR_PREFIX +:+ board p) msgid
      (delete_records msgid p s) = None.
Proof.
  unfold delete_records, ZScore. split.
  - unfold ZRem at 1. rewrite lookup_partial_alter_eq. apply slot_score_ZRem.
  - rewrite lookup_ZRem_ne by key_neq. unfold ZRem at 1.
    rewrite lookup_partial_alter_eq. apply slot_score_ZRem.
Qed.

Lemma SIsMember_SRem_slot k m (s : db) o :
  s !! k = SRem_slot m o → SIsMember k m s = false.
Proof.
  unfold SIsMember. intros ->. destruct o as [[x|h|ms|z]|]; try done.
  cbn [SRem_slot]. unfold keep_set. case_decide; [done|].
  apply bool_decide_eq_false. rewrite elem_of_difference, elem_of_singleton. tauto.
Qed.

Lemma fold_SRem_member msgid hs (s : db) h :
  h ∈ hs →
  foldl (λ acc h, SRem (HEADER_KR_PREFIX +:+ h) msgid acc) s hs
    !! (HEADER_KR_PREFIX +:+ h)
  = SRem_slot msgid (s !! (HEADER_KR_PREFIX +:+ h)).
Proof.
  revert s. induction hs as [|h' hs IH]; intros s Hin; [by apply elem_of_nil in Hin|].
  cbn [foldl]. destruct (decide (h ∈ hs)) as [Hhs|Hhs].
  - rewrite IH by done. destruct (decide (h' = h)) as [->|Hne].
    + by rewrite lookup_SRem_eq, SRem_slot_idemp.
    + rewrite lookup_SRem_ne; [done|]. intros Heq.
      by apply KeyFacts.app_inj_l in Heq.
  - apply elem_of_cons in Hin as [->|Hin]; [|done].
    assert (∀ t, foldl (λ acc h, SRem (HEADER_KR_PREFIX +:+ h) msgid acc) t hs
                 !! (HEADER_KR_PREFIX +:+ h') = t !! (HEADER_KR_PREFIX +:+ h')) as Hskip.
    { clear IH. induction hs as [|x hs IHhs]; intros t; cbn [foldl]; [done|].
      apply not_elem_of_cons in Hhs as [Hx Hhs]. rewrite IHhs by done.
      rewrite lookup_SRem_ne; [done|]. intros Heq.
      apply KeyFacts.app_inj_l in Heq. congruence. }
    by rewrite Hskip, lookup_SRem_eq.
Qed.

End DeleteMore.

(** X13. The records of a deleted article are gone: after [DeleteArticle]
    the article is neither known nor local, its key is deleted, it has left
    the global article ordering and the article ordering of its group, and
    no header it was indexed under answers it any more. *)
Theorem deleted_article_leaves_no_record
    (Atoi : string → Z) (isSage : string → bool) (msgid : string) (s : db) :
  (HGetAll (ARTICLE_POST_PREFIX +:+ msgid) s).2 = None →
  let s' := DeleteArticle Atoi isSage msgid s in
  HasArticle msgid s' = false
  ∧ HasArticleLocal msgid s' = false
  ∧ Exists (ARTICLE_KEY_PREFIX +:+ msgid) s' = false
  ∧ ZScore ARTICLE_WKR msgid s' = None
  ∧ ZScore (GROUP_ARTICLE_POSTTIME_WKR_PREFIX
            +:+ (HGet (ARTICLE_POST_PREFIX +:+ msgid) "newsgroup" s).1) msgid s'
    = None
  ∧ Exists (MESSAGEID_HEADER_KR_PREFIX +:+ msgid) s' = false
  ∧ ∀ h, h ∈ (SMembers (MESSAGEID_HEADER_KR_PREFIX +:+ msgid) s).1 →
         SIsMember (HEADER_KR_PREFIX +:+ h) msgid s' = false.
Proof.
  intros Hmodel. cbv zeta. unfold DeleteArticle, GetPostModel.
  assert ((HGet (ARTICLE_POST_PREFIX +:+ msgid) "newsgroup" s).1
          = field (HGetAll (ARTICLE_POST_PREFIX +:+ msgid) s).1 "newsgroup") as Hboard.
  { unfold HGet, HGetAll, field.
    destruct (s !! (ARTICLE_POST_PREFIX +:+ msgid)) as [[x|h|ms|z]|]; try done.
    cbn [fst]. by destruct (h !! "newsgroup"). }
  rewrite Hboard.
  destruct (HGetAll (ARTICLE_POST_PREFIX +:+ msgid) s) as [mapRes err].
  cbn [snd] in Hmodel. subst err. cbn [fst].
  match goal with |- context [delete_records msgid ?pp s] => set (p := pp) end.
  change (field mapRes "newsgroup") with (board p).
  set (s1 := delete_records msgid p s).
  set (s2 := delete_header_links msgid s1).
  assert (∀ k, (∀ x, ATTACHMENT_ARTICLE_KR_PREFIX +:+ x ≠ k) →
               (∀ x, ATTACHMENT_PREFIX +:+ x ≠ k) →
               (∀ x, ARTICLE_ATTACHMENT_KR_PREFIX +:+ x ≠ k) →
               (∀ x, HEADER_KR_PREFIX +:+ x ≠ k) →
               (∀ x, MESSAGEID_HEADER_KR_PREFIX +:+ x ≠ k) →
               delete_attachment_links msgid s2 !! k = s1 !! k) as Hlate.
  { intros k ? ? ? ? ?. rewrite DeleteFacts.delete_attachment_links_other by done.
    unfold s2. by apply DeleteFacts.delete_header_links_lookup. }
  destruct (DeleteMore.delete_records_orderings msgid p s) as [Hall Hgroup].
  fold s1 in Hall, Hgroup.
  split; [|split; [|split; [|split; [|split; [|split]]]]].
  - unfold HasArticle, Exists. rewrite Hlate by (intros; key_neq).
    unfold s1. by rewrite DeleteFacts.delete_records_article.
  - unfold HasArticleLocal, Exists. rewrite Hlate by (intros; key_neq).
    unfold s1. by rewrite DeleteMore.delete_records_post.
  - unfold Exists. rewrite Hlate by (intros; key_neq).
    unfold s1. by rewrite DeleteMore.delete_records_key.
  - unfold ZScore in *. rewrite Hlate by (intros; key_neq). exact Hall.
  - unfold ZScore in *. rewrite Hlate by (intros; key_neq). exact Hgroup.
  - unfold Exists.
    rewrite DeleteFacts.delete_attachment_links_other by (intros; key_neq).
    unfold s2, delete_header_links.
    rewrite DeleteFacts.lookup_Del_eq by (apply list_elem_of_here). done.
  - intros h Hh.
    assert (s1 !! (MESSAGEID_HEADER_KR_PREFIX +:+ msgid)
            = s !! (MESSAGEID_HEADER_KR_PREFIX +:+ msgid)) as Hset
      by (apply DeleteFacts.delete_records_lookup; intros; key_neq).
    apply (DeleteMore.SIsMember_SRem_slot _ _ _ (s1 !! (HEADER_KR_PREFIX +:+ h))).
    rewrite DeleteFacts.delete_attachment_links_other by (intros; key_neq).
    unfold s2, delete_header_links.
    rewrite DeleteFacts.lookup_Del_ne
      by (rewrite not_elem_of_cons; split; [key_neq | apply not_elem_of_nil]).
    apply DeleteMore.fold_SRem_member.
    unfold SMembers in *. by rewrite Hset.
Qed.

Lemma deleted_article_leaves_no_record_witness :
  HasArticle "<abc@x>"
    (DeleteArticle (λ _, 0) (λ _, false) "<abc@x>"
       (RegisterArticle Scenarios.hash_stub 1136240000 1136240001
          Scenarios.plain_article ∅)) = false
  ∧ HasArticleLocal "<abc@x>"
      (DeleteArticle (λ _, 0) (λ _, false) "<abc@x>"
         (RegisterArticle Scenarios.hash_stub 1136240000 1136240001
            Scenarios.plain_article ∅)) = false
  ∧ Exists (ARTICLE_KEY_PREFIX +:+ "<abc@x>")
      (DeleteArticle (λ _, 0) (λ _, false) "<abc@x>"
         (RegisterArticle Scenarios.hash_stub 1136240000 1136240001
            Scenarios.plain_article ∅)) = false
  ∧ ZScore ARTICLE_WKR "<abc@x>"
      (DeleteArticle (λ _, 0) (λ _, false) "<abc@x>"
         (RegisterArticle Scenarios.hash_stub 1136240000 1136240001
            Scenarios.plain_article ∅)) = None
  ∧ ZScore (GROUP_ARTICLE_POSTTIME_WKR_PREFIX
            +:+ (HGet (ARTICLE_POST_PREFIX +:+ "<abc@x>") "newsgroup"
                   (RegisterArticle Scenarios.hash_stub 1136240000 1136240001
                      Scenarios.plain_article ∅)).1) "<abc@x>"
      (DeleteArticle (λ _, 0) (λ _, false) "<abc@x>"
         (RegisterArticle Scenarios.hash_stub 1136240000 1136240001
            Scenarios.plain_article ∅)) = None
  ∧ Exists (MESSAGEID_HEADER_KR_PREFIX +:+ "<abc@x>")
      (DeleteArticle (λ _, 0) (λ _, false) "<abc@x>"
         (RegisterArticle Scenarios.hash_stub 1136240000 1136240001
            Scenarios.plain_article ∅)) = false
  ∧ ∀ h, h ∈ (SMembers (MESSAGEID_HEADER_KR_PREFIX +:+ "<abc@x>")
                (RegisterArticle Scenarios.hash_stub 1136240000 1136240001
                   Scenarios.plain_article ∅)).1 →
         SIsMember (HEADER_KR_PREFIX +:+ h) "<abc@x>"
           (DeleteArticle (λ _, 0) (λ _, false) "<abc@x>"
              (RegisterArticle Scenarios.hash_stub 1136240000 1136240001
                 Scenarios.plain_article ∅)) = false.
Proof.
  apply (deleted_article_leaves_no_record (λ _, 0) (λ _, false) "<abc@x>"
           (RegisterArticle Scenarios.hash_stub 1136240000 1136240001
              Scenarios.plain_article ∅)).
  vm_compute. reflexivity.
Defined.

(** ** Bans of articles and newsgroups, moderator keys *)

(** X14. An article is banned once: a second [BanArticle] for the same
    message-id changes nothing, so the reason and the time of the first ban
    stay. *)
Theorem first_article_ban_stays (now1 now2 : Z) (messageID reason1 reason2 : string)
    (s : db) :
  BanArticle now2 messageID reason2 (BanArticle now1 messageID reason1 s).1
  = ((BanArticle now1 messageID reason1 s).1, None)
  ∧ ArticleBanned messageID (BanArticle now1 messageID reason1 s).1 = true.
Proof.
  assert (ArticleBanned messageID (BanArticle now1 messageID reason1 s).1 = true)
    as Hbanned.
  { unfold BanArticle. destruct (ArticleBanned messageID s) eqn:Hb; [done|].
    cbn [fst]. unfold ArticleBanned, Exists, HMSet in *.
    rewrite lookup_partial_alter_eq.
    by destruct (s !! (BANNED_ARTICLE_PREFIX +:+ messageID)) as [[x|h|ms|z]|]. }
  split; [|done]. unfold BanArticle at 1. by rewrite Hbanned.
Qed.

(** X15. A newsgroup is banned from [BanNewsgroup] until [UnbanNewsgroup],
    and the ban of one newsgroup says nothing about another. *)
Theorem newsgroup_ban_round_trip (now : Z) (group other : string) (s : db) :
  other ≠ group →
  NewsgroupBanned group (BanNewsgroup now group s).1 = (true, None)
  ∧ NewsgroupBanned group (UnbanNewsgroup group (BanNewsgroup now group s).1).1
    = (false, None)
  ∧ NewsgroupBanned other (BanNewsgroup now group s).1 = NewsgroupBanned other s
  ∧ NewsgroupBanned other (UnbanNewsgroup group s).1 = NewsgroupBanned other s.
Proof.
  intros Hne.
  assert (BANNED_GROUP_PREFIX +:+ group ≠ BANNED_GROUP_PREFIX +:+ other) as Hk.
  { intros Heq. apply KeyFacts.app_inj_l in Heq. congruence. }
  unfold NewsgroupBanned, BanNewsgroup, UnbanNewsgroup, Exists, HMSet, Del.
  cbn [fst foldl]. rewrite !lookup_partial_alter_eq.
  rewrite !lookup_partial_alter_ne by done.
  repeat split.
  by destruct (s !! (BANNED_GROUP_PREFIX +:+ group)) as [[x|h|ms|z]|].
Qed.

Lemma newsgroup_ban_round_trip_witness :
  NewsgroupBanned "overchan.spam" (BanNewsgroup 1136240000 "overchan.spam" ∅).1
  = (true, None)
  ∧ NewsgroupBanned "overchan.spam"
      (UnbanNewsgroup "overchan.spam"
         (BanNewsgroup 1136240000 "overchan.spam" ∅).1).1
    = (false, None)
  ∧ NewsgroupBanned "overchan.test" (BanNewsgroup 1136240000 "overchan.spam" ∅).1
    = NewsgroupBanned "overchan.test" ∅
  ∧ NewsgroupBanned "overchan.test" (UnbanNewsgroup "overchan.spam" ∅).1
    = NewsgroupBanned "overchan.test" ∅.
Proof.
  apply (newsgroup_ban_round_trip 1136240000 "overchan.spam" "overchan.test" ∅).
  discriminate.
Defined.

(** X16. A public key of 64 bytes that is marked as global moderator is
    reported as one, and is not after the mark is taken away again. *)
Theorem global_mark_round_trip (pubkey : string) (s : db) :
  String.length pubkey = 64%nat →
  set_err (permissions_key pubkey "overchan") s = None →
  (MarkModPubkeyGlobal pubkey s).2 = None
  ∧ CheckModPubkeyGlobal pubkey (MarkModPubkeyGlobal pubkey s).1 = true
  ∧ (UnMarkModPubkeyGlobal pubkey (MarkModPubkeyGlobal pubkey s).1).2 = None
  ∧ CheckModPubkeyGlobal pubkey
      (UnMarkModPubkeyGlobal pubkey (MarkModPubkeyGlobal pubkey s).1).1 = false.
Proof.
  intros Hlen Hty.
  assert ((MarkModPubkeyGlobal pubkey s).2 = None
          ∧ CheckModPubkeyGlobal pubkey (MarkModPubkeyGlobal pubkey s).1 = true
          ∧ set_err (permissions_key pubkey "overchan")
              (MarkModPubkeyGlobal pubkey s).1 = None) as (Herr & Hmarked & Hty').
  { unfold MarkModPubkeyGlobal. rewrite Hlen.
    change (negb (64 =? 64)%nat) with false. cbv iota.
    destruct (CheckModPubkeyGlobal pubkey s) eqn:Hc; [done|]. cbn [fst snd].
    split; [done|]. unfold CheckModPubkeyGlobal, SIsMember, set_err, SAdd in *.
    rewrite lookup_partial_alter_eq.
    destruct (s !! permissions_key pubkey "overchan") as [[x|h|ms|z]|]; try done;
      cbn [SAdd_slot]; (split; [|done]); apply bool_decide_eq_true;
      rewrite ?elem_of_union, elem_of_singleton; auto. }
  split; [done|]. split; [done|].
  unfold UnMarkModPubkeyGlobal. rewrite Hmarked. cbn [fst snd].
  split; [done|].
  apply (DeleteMore.SIsMember_SRem_slot _ _ _
           ((MarkModPubkeyGlobal pubkey s).1 !! permissions_key pubkey "overchan")).
  unfold SRem. by rewrite lookup_partial_alter_eq.
Qed.

Lemma global_mark_round_trip_witness :
  (MarkModPubkeyGlobal
     "0123456789abcdef0123456789abcdef0123456789abcdef0123456789abcdef" ∅).2 = None
  ∧ CheckModPubkeyGlobal
      "0123456789abcdef0123456789abcdef0123456789abcdef0123456789abcdef"
      (MarkModPubkeyGlobal
         "0123456789abcdef0123456789abcdef0123456789abcdef0123456789abcdef" ∅).1
    = true
  ∧ (UnMarkModPubkeyGlobal
       "0123456789abcdef0123456789abcdef0123456789abcdef0123456789abcdef"
       (MarkModPubkeyGlobal
          "0123456789abcdef0123456789abcdef0123456789abcdef0123456789abcdef" ∅).1).2
    = None
  ∧ CheckModPubkeyGlobal
      "0123456789abcdef0123456789abcdef0123456789abcdef0123456789abcdef"
      (UnMarkModPubkeyGlobal
         "0123456789abcdef0123456789abcdef0123456789abcdef0123456789abcdef"
         (MarkModPubkeyGlobal
            "0123456789abcdef0123456789abcdef0123456789abcdef0123456789abcdef" ∅).1).1
    = false.
Proof.
  apply (global_mark_round_trip
           "0123456789abcdef0123456789abcdef0123456789abcdef0123456789abcdef" ∅).
  - reflexivity.
  - reflexivity.
Defined.

(** ** Parsing and the index *)

Module ParserMore.

Section Parser.
Variable ParseMediaType : string → string * gmap string string * option error.
Variable sha512_Sum : string → string.
Variable unhex : string → string.
Variable CryptoVerifyFucky : string → string → string → bool.
Variable readMIMEHeader : string → Store.MIMEHeader * string * option error.
Variable Part : Type.
Variable NextParts : string → Store.reader → list (Part * option error).
Variable part_ContentType : Part → string.
Variable Att : Type.
Variable readAttachmentFromMimePartAndStore : Part → bool → option Att.
Variable createPlaintextAttachment : string → Att.
Variable ContentType : Store.MIMEHeader → string.
Variable Pubkey : Store.MIMEHeader → string.
Variable headers_Get : Store.MIMEHeader → string → string → string.

Lemma read_parts_answer (store : bool) (parts : list (Part * option error))
    (nntp : Store.nntpArticle Att) :
  Store.read_parts ParseMediaType Part part_ContentType Att
    readAttachmentFromMimePartAndStore store parts nntp ≠ (None, None).
Proof.
  revert nntp. induction parts as [|[part [err|]] parts IH]; intros nntp; cbn.
  - done.
  - by destruct err.
  - destruct (ParseMediaType (part_ContentType part)) as [[media_type params] err].
    apply IH.
Qed.

(** Parsing answers a message or an error, whatever the fuel. *)
Lemma read_message_body_answer (fuel : nat) (body : Store.reader)
    (hdr : Store.MIMEHeader) (store : bool) :
  match Store.read_message_body ParseMediaType sha512_Sum unhex CryptoVerifyFucky
          readMIMEHeader Part NextParts part_ContentType Att
          readAttachmentFromMimePartAndStore createPlaintextAttachment
          ContentType Pubkey headers_Get fuel body hdr store with
  | Done (None, None) | Panics => False
  | _ => True
  end.
Proof.
  revert body hdr. induction fuel as [|fuel IH]; intros body hdr; [done|].
  cbn [Store.read_message_body].
  destruct (ParseMediaType (ContentType hdr)) as [[media_type params] [err|]]; [done|].
  destruct (params !! "boundary") as [boundary|].
  - pose proof (read_parts_answer store (NextParts boundary body)
                  {| Store.headers := hdr; Store.message := None;
                     Store.attachments_ := [] |}) as Hparts.
    destruct (Store.read_parts _ _ _ _ _ _ _ _) as [[nntp|] [err|]]; done.
  - case_decide; [|by destruct (Store.read_plain body EmptyString)].
    case_decide; [done|].
    destruct (Store.read_signed body EmptyString) as [buff [err|]]; [done|].
    destruct (CryptoVerifyFucky _ _ _); [|done].
    destruct (readMIMEHeader buff) as [[hdr' br] [err|]]; [done|]. apply IH.
Qed.

End Parser.

End ParserMore.

(** X17. [ProcessMessageBody] never panics, and a message that is turned
    down, for whatever reason, leaves the index as it was: the index changes
    only when parsing answers a message without an error, and then by the
    registration of that message. *)
Theorem failed_message_leaves_index
    (ParseMediaType : string → string * gmap string string * option error)
    (sha512_Sum unhex : string → string)
    (CryptoVerifyFucky : string → string → string → bool)
    (readMIMEHeader : string → Store.MIMEHeader * string * option error)
    (Part : Type) (NextParts : string → Store.reader → list (Part * option error))
    (part_ContentType : Part → string) (Att : Type)
    (readAttachmentFromMimePartAndStore : Part → bool → option Att)
    (createPlaintextAttachment : string → Att)
    (ContentType Pubkey : Store.MIMEHeader → string)
    (headers_Get : Store.MIMEHeader → string → string → string)
    (HashMessageID : string → string)
    (as_message : Store.nntpArticle Att → NNTPMessage)
    (fuel : nat) (t_group now : Z)
    (hdr : Store.MIMEHeader) (body : Store.reader) (s : db) :
  match Store.ProcessMessageBody ParseMediaType sha512_Sum unhex CryptoVerifyFucky
          readMIMEHeader Part NextParts part_ContentType Att
          readAttachmentFromMimePartAndStore createPlaintextAttachment
          ContentType Pubkey headers_Get HashMessageID as_message
          fuel t_group now hdr body s with
  | Done (s', Some err) => s' = s
  | Done (s', None) =>
      ∃ nntp,
        Store.read_message_body ParseMediaType sha512_Sum unhex CryptoVerifyFucky
          readMIMEHeader Part NextParts part_ContentType Att
          readAttachmentFromMimePartAndStore createPlaintextAttachment
          ContentType Pubkey headers_Get fuel body hdr true
        = Done (Some nntp, None)
        ∧ s' = RegisterArticle HashMessageID t_group now (as_message nntp) s
  | Panics => False
  | NoFuel =>
      Store.read_message_body ParseMediaType sha512_Sum unhex CryptoVerifyFucky
        readMIMEHeader Part NextParts part_ContentType Att
        readAttachmentFromMimePartAndStore createPlaintextAttachment
        ContentType Pubkey headers_Get fuel body hdr true
      = NoFuel
  end.
Proof.
  unfold Store.ProcessMessageBody.
  pose proof (ParserMore.read_message_body_answer ParseMediaType sha512_Sum unhex
                CryptoVerifyFucky readMIMEHeader Part NextParts part_ContentType Att
                readAttachmentFromMimePartAndStore createPlaintextAttachment
                ContentType Pubkey headers_Get fuel body hdr true) as Hans.
  destruct (Store.read_message_body _ _ _ _ _ _ _ _ _ _ _ _ _ _ fuel body hdr true)
    as [[[nntp|] [err|]]| |]; try done.
  unfold Store.RegisterPost. by exists nntp.
Qed.

(** ** Witnesses of earlier properties *)

Lemma DeleteArticle_referrers_witness :
  SIsMember (ATTACHMENT_ARTICLE_KR_PREFIX +:+ "ab") "<one@x>"
    (DeleteArticle (λ _, 0) (λ _, false) "<one@x>" Scenarios.index_with_two) = false
  ∧ (({[ "<one@x>"; "<two@x>" ]} : gset string) ∖ {[ "<one@x>" ]} = ∅ →
     Exists (ATTACHMENT_ARTICLE_KR_PREFIX +:+ "ab")
       (DeleteArticle (λ _, 0) (λ _, false) "<one@x>" Scenarios.index_with_two) = false
     ∧ Exists (ATTACHMENT_PREFIX +:+ "ab")
         (DeleteArticle (λ _, 0) (λ _, false) "<one@x>" Scenarios.index_with_two)
       = false)
  ∧ (({[ "<one@x>"; "<two@x>" ]} : gset string) ∖ {[ "<one@x>" ]} ≠ ∅ →
     DeleteArticle (λ _, 0) (λ _, false) "<one@x>" Scenarios.index_with_two
       !! (ATTACHMENT_ARTICLE_KR_PREFIX +:+ "ab")
     = Some (VSet ({[ "<one@x>"; "<two@x>" ]} ∖ {[ "<one@x>" ]}))
     ∧ DeleteArticle (λ _, 0) (λ _, false) "<one@x>" Scenarios.index_with_two
         !! (ATTACHMENT_PREFIX +:+ "ab")
       = Scenarios.index_with_two !! (ATTACHMENT_PREFIX +:+ "ab")).
Proof.
  apply (DeleteFacts.DeleteArticle_referrers (λ _, 0) (λ _, false) "<one@x>"
           Scenarios.index_with_two "ab" {[ "<one@x>"; "<two@x>" ]}).
  - vm_compute. reflexivity.
  - vm_compute. apply list_elem_of_here.
  - vm_compute. reflexivity.
Defined.

Lemma verify_short_region_panics_witness :
  MessageGo.Verify (λ buff, buff) (λ smsg pk, true)
    {| MessageGo.MessageID := "<abc@x>"; MessageGo.Key := "aa";
       MessageGo.Signature := "00ff"; MessageGo.Signed := "x" |}
  = Panics.
Proof.
  apply (verify_short_region_panics (λ buff, buff) (λ smsg pk, true)
           {| MessageGo.MessageID := "<abc@x>"; MessageGo.Key := "aa";
              MessageGo.Signature := "00ff"; MessageGo.Signed := "x" |} "x"%char).
  - discriminate.
  - discriminate.
  - reflexivity.
  - discriminate.
Defined.

Lemma BanAddr_single_then_banned_witness :
  CheckIPBanned Scenarios.one_subnet Scenarios.subnet_minmax Scenarios.padded
    Scenarios.parse_padded "010.000.001.005"
    (BanAddr Scenarios.one_subnet Scenarios.subnet_minmax Scenarios.padded
       Scenarios.parse_padded 1136240000 "010.000.001.005" ∅).1
  = (true, None).
Proof.
  apply (BanAddr_single_then_banned Scenarios.one_subnet Scenarios.subnet_minmax
           Scenarios.padded Scenarios.parse_padded 1136240000 "010.000.001.005" ∅).
  reflexivity.
Defined.

Lemma envelope_without_key_or_signature_witness :
  Store.read_message_body Scenarios.parse_bare id id Scenarios.rejecting_verifier
    Scenarios.no_header unit (λ _ _, []) (λ _, EmptyString) string
    (λ _ _, None) id
    (λ hdr, Scenarios.first_value hdr "Content-Type" EmptyString)
    (λ hdr, Scenarios.first_value hdr "X-Pubkey-Ed25519" EmptyString)
    Scenarios.first_value 1 Scenarios.envelope_body
    (delete "X-Pubkey-Ed25519" Scenarios.envelope_headers) true
  = Done (None, Some (errors_New "invalid headers")).
Proof.
  apply (envelope_without_key_or_signature Scenarios.parse_bare id id
           Scenarios.rejecting_verifier Scenarios.no_header unit (λ _ _, [])
           (λ _, EmptyString) string (λ _ _, None) id
           (λ hdr, Scenarios.first_value hdr "Content-Type" EmptyString)
           (λ hdr, Scenarios.first_value hdr "X-Pubkey-Ed25519" EmptyString)
           Scenarios.first_value 0%nat
           (delete "X-Pubkey-Ed25519" Scenarios.envelope_headers)
           Scenarios.envelope_body ∅).
  - reflexivity.
  - reflexivity.
  - left. reflexivity.
Defined.

(** X22. The message-id gate does not keep the store from the file system:
    for a string that is no message-id [GetFilename] answers the empty path,
    and [HasArticle] and [CreateFile] go on with it: the one tests the empty
    path, the other tests it and, finding no file there, asks for a file of
    that name to be created. *)
Theorem invalid_message_id_reaches_file_system
    (max_len : nat) (Join : string → string → string) (FS : Type)
    (CheckFile : string → FS → bool) (os_Create : string → FS → FS * option error)
    (self : Store.articleStore) (messageID : string) (fs : FS) :
  Store.ValidMessageID max_len messageID = false →
  CheckFile EmptyString fs = false →
  (Store.HasArticle max_len Join FS CheckFile self messageID fs).1 = false
  ∧ Store.ev_stat EmptyString
    ∈ (Store.HasArticle max_len Join FS CheckFile self messageID fs).2
  ∧ Store.ev_create EmptyString
    ∈ (Store.CreateFile max_len Join FS CheckFile os_Create self messageID fs).2
  ∧ (Store.CreateFile max_len Join FS CheckFile os_Create self messageID fs).1.2
    = (os_Create EmptyString fs).1.
Proof.
  intros Hinvalid Hnone.
  unfold Store.HasArticle, Store.CreateFile, Store.GetFilename.
  rewrite Hinvalid. cbn [negb fst snd]. rewrite Hnone.
  destruct (os_Create EmptyString fs) as [fs' [err|]]; cbn [fst snd];
    repeat split; rewrite ?elem_of_app, ?elem_of_cons; auto.
Qed.

Lemma invalid_message_id_reaches_file_system_witness :
  (Store.HasArticle 250 Scenarios.slash_join (gset string)
     Scenarios.file_there Scenarios.test_store "abc@x" ∅).1 = false
  ∧ Store.ev_stat EmptyString
    ∈ (Store.HasArticle 250 Scenarios.slash_join (gset string)
         Scenarios.file_there Scenarios.test_store "abc@x" ∅).2
  ∧ Store.ev_create EmptyString
    ∈ (Store.CreateFile 250 Scenarios.slash_join (gset string)
         Scenarios.file_there Scenarios.create_file Scenarios.test_store "abc@x" ∅).2
  ∧ (Store.CreateFile 250 Scenarios.slash_join (gset string)
       Scenarios.file_there Scenarios.create_file Scenarios.test_store "abc@x" ∅).1.2
    = (Scenarios.create_file EmptyString ∅).1.
Proof.
  apply (invalid_message_id_reaches_file_system 250 Scenarios.slash_join
           (gset string) Scenarios.file_there Scenarios.create_file Scenarios.test_store
           "abc@x" ∅).
  - reflexivity.
  - reflexivity.
Defined.

(** ** Banning a subnet *)

Module SubnetFacts.

Section Bans.
Context {IP IPNet : Type}.
Variable IsSubnet : string → option IPNet.
Variable IPNet2MinMax : IPNet → IP * IP.
Variable ZeroIPString : IP → string.
Variable ParseIP : string → option IP.

(** Among ranges in order the lookup of a query that is a subnet or parses
    as an address answers no error. *)
Lemma lookup_answers (addr : string) (s : db) (max min : string) :
  ranges_ordered s →
  query_endpoints IsSubnet IPNet2MinMax ZeroIPString ParseIP addr = Some (max, min) →
  (CheckIPBanned IsSubnet IPNet2MinMax ZeroIPString ParseIP addr s).2 = None.
Proof.
  intros (Hz & _ & Hu & Hstart & _) Hq. unfold CheckIPBanned.
  destruct (Exists (IP_BAN_PREFIX +:+ addr) s); [done|]. rewrite Hq.
  pose proof (BanFacts.first_endpoint s max Hu) as Hfirst.
  unfold ZRangeByLexFrom, zmembers, zset_err in *.
  destruct (s !! IP_RANGE_BAN_KR) as [[x|h|ms|z]|] eqn:Hkr; try done.
  cbn [fst snd] in *.
  destruct (take 1 _) as [|e res]; [done|].
  destruct Hfirst as (Hin & _ & _).
  destruct (Hstart e Hin) as (st & -> & _). done.
Qed.

End Bans.

End SubnetFacts.

(** X23. Banning a subnet bans its addresses: on a state the ban operations
    reach, and unless the subnet's own string is stored as an individual
    ban, after [BanAddr] of a subnet every address between the smallest and
    the largest address of the subnet is reported banned. *)
Theorem banned_subnet_covers_its_addresses {IP IPNet : Type}
    (IsSubnet : string → option IPNet) (IPNet2MinMax : IPNet → IP * IP)
    (ZeroIPString : IP → string) (ParseIP : string → option IP)
    (now : Z) (net addr : string) (ipnet : IPNet) (lo hi ip : IP) (s : db) :
  (∀ n a b, IPNet2MinMax n = (a, b) →
            String.le (ZeroIPString a) (ZeroIPString b)) →
  ban_reachable IsSubnet IPNet2MinMax ZeroIPString ParseIP s →
  IsSubnet net = Some ipnet →
  IPNet2MinMax ipnet = (lo, hi) →
  Exists (IP_BAN_PREFIX +:+ net) s = false →
  IsSubnet addr = None →
  ParseIP addr = Some ip →
  String.le (ZeroIPString lo) (ZeroIPString ip) →
  String.le (ZeroIPString ip) (ZeroIPString hi) →
  CheckIPBanned IsSubnet IPNet2MinMax ZeroIPString ParseIP addr
    (BanAddr IsSubnet IPNet2MinMax ZeroIPString ParseIP now net s).1
  = (true, None).
Proof.
  intros Hmm Hreach Hnet Hminmax Hkey Haddr Hip Hlo Hhi.
  pose proof (BanStates.reachable_ordered IsSubnet IPNet2MinMax ZeroIPString
                ParseIP Hmm s Hreach) as Hord.
  pose proof (BanStates.BanAddr_ordered IsSubnet IPNet2MinMax ZeroIPString
                ParseIP Hmm now net s Hord) as Hord'.
  assert (query_endpoints IsSubnet IPNet2MinMax ZeroIPString ParseIP addr
          = Some (ZeroIPString ip, ZeroIPString ip)) as Hq.
  { unfold query_endpoints. by rewrite Haddr, Hip. }
  assert (query_endpoints IsSubnet IPNet2MinMax ZeroIPString ParseIP net
          = Some (ZeroIPString hi, ZeroIPString lo)) as Hqnet.
  { unfold query_endpoints. by rewrite Hnet, Hminmax. }
  set (s' := (BanAddr IsSubnet IPNet2MinMax ZeroIPString ParseIP now net s).1) in *.
  pose proof (SubnetFacts.lookup_answers IsSubnet IPNet2MinMax ZeroIPString ParseIP
                addr s' _ _ Hord' Hq) as Herr.
  assert ((CheckIPBanned IsSubnet IPNet2MinMax ZeroIPString ParseIP addr s').1
          = true) as Hyes.
  { apply (BanStates.lookup_sees_every_range IsSubnet IPNet2MinMax ZeroIPString
             ParseIP addr s' _ _ Hord' Hq). right.
    assert (∃ e st, is_Some (range_endpoints s' !! e)
                    ∧ String.le (ZeroIPString hi) e
                    ∧ HGet (IP_RANGE_BAN_PREFIX +:+ e) "start" s' = (st, None)
                    ∧ String.le st (ZeroIPString lo)) as (e & st & He & Hle & Hget & Hst).
    { unfold s', BanAddr. rewrite Hnet.
      pose proof (SubnetFacts.lookup_answers IsSubnet IPNet2MinMax ZeroIPString
                    ParseIP net s _ _ Hord Hqnet) as Herrnet.
      destruct (CheckIPBanned IsSubnet IPNet2MinMax ZeroIPString ParseIP net s)
        as [isBanned err] eqn:Hchk.
      cbn [snd] in Herrnet. subst err. destruct isBanned.
      - cbn [fst].
        assert ((CheckIPBanned IsSubnet IPNet2MinMax ZeroIPString ParseIP net s).1
                = true) as Hb by by rewrite Hchk.
        apply (BanStates.lookup_sees_every_range IsSubnet IPNet2MinMax ZeroIPString
                 ParseIP net s _ _ Hord Hqnet) in Hb as [Hb|Hb]; [congruence|done].
      - rewrite Hminmax. cbv zeta. unfold clearIPRange.
        set (s1 := foldl _ s _).
        assert (ranges_ordered s1) as (Hz1 & Hh1 & _)
          by (apply BanStates.removed_ordered; done).
        rewrite Hz1. cbn [fst].
        destruct (BanStates.banned_range_state now (ZeroIPString lo) (ZeroIPString hi)
                    s1 Hz1 (Hh1 _)) as (Hep & _ & _ & _ & Hgb).
        exists (ZeroIPString hi), (ZeroIPString lo).
        rewrite Hep, lookup_insert_eq. eauto. }
    exists e, st. split; [done|]. split; [by etransitivity|]. split; [done|].
    by etransitivity. }
  destruct (CheckIPBanned IsSubnet IPNet2MinMax ZeroIPString ParseIP addr s')
    as [b err]. cbn [fst snd] in *. by subst.
Qed.

Lemma banned_subnet_covers_its_addresses_witness :
  CheckIPBanned Scenarios.one_subnet Scenarios.subnet_minmax Scenarios.padded
    Scenarios.parse_padded "010.000.000.005"
    (BanAddr Scenarios.one_subnet Scenarios.subnet_minmax Scenarios.padded
       Scenarios.parse_padded 1136240000 "10.0.0.0/24" ∅).1
  = (true, None).
Proof.
  apply (banned_subnet_covers_its_addresses Scenarios.one_subnet
           Scenarios.subnet_minmax Scenarios.padded Scenarios.parse_padded
           1136240000 "10.0.0.0/24" "010.000.000.005" tt
           "010.000.000.000" "010.000.000.255" "010.000.000.005" ∅).
  - intros n a b [= <- <-]. vm_compute. exact I.
  - apply reach_empty.
  - reflexivity.
  - reflexivity.
  - reflexivity.
  - reflexivity.
  - reflexivity.
  - vm_compute. exact I.
  - vm_compute. exact I.
Defined.
